(** * Quincho reservations: availability, conflict resolution and cancellation

    A shallow embedding of the slot-availability protocol of the quincho
    booking application:

    - the PostgreSQL schema of [supabase/migrations] (check constraints, the
      exclusion constraint [reservations_no_overlap_excl], the trigger
      function [cancel_reservations_in_blocked_range]);
    - the client library functions [sanitizeInput], [deleteReservation],
      [blockTimeSlot], [checkAvailability] (lib/supabase);
    - the hooks [doTimeRangesOverlap] and [addReservation];
    - the confirmation page effect [confirmReservation];
    - the login helper [fetchUserProfile];
    - further client code: [createReservation], [unblockTimeSlot],
      [loginAdmin], the dashboard handlers [handleApproveReservation] and
      [handleRejectReservation], the hooks [deleteReservation],
      [updateReservation] and [submitReservation], the calendar helpers of
      [useDateTimeUtils], [handleUserSignIn] and the logger;
    - the edge functions [send-email] and the cleanup of unconfirmed
      reservations, the trigger functions [delete_overlapping_reservations]
      and [handle_new_user].

    Tables are lists of rows, the backend is passed around explicitly as a
    [World], and everything the client cannot control (the clock of the
    browser and the clock of the database, generated UUIDs, transport
    failures, the signed-in user) is read from an [Env].
    Of the row-level security policies the two that decide what a
    cancellation, an approval or a confirmation does are part of the model:
    only a session whose profile has [is_admin] may update reservations (the
    update of any other session changes no row and reports no error) and
    insert into cancellations (the insert of any other session is refused).
    Reading and inserting reservations is open to everybody. *)

From Stdlib Require Import List String Ascii Arith ZArith Lia Bool.
From Stdlib Require Import Permutation OrderedTypeEx.
Import ListNotations.
Open Scope string_scope.

(* ------------------------------------------------------------------------- *)
(** ** JavaScript values used by the client code *)

Module Js.

(** Truthiness of a string: only the empty string is falsy. *)
Definition truthy (s : string) : bool := negb (s =? "").

(** Truthiness of a possibly [undefined]/[null] string. *)
Definition truthy_opt (v : option string) : bool :=
  match v with
  | Some s => truthy s
  | None => false
  end.

(** [a || b] on possibly undefined strings. *)
Definition or (a b : option string) : option string :=
  if truthy_opt a then a else b.

(** [a] comes strictly before [b] in the order of the relational
    operators on strings (code units compared lexicographically). *)
Definition before (a b : string) : Prop := String.compare a b = Lt.

(** Relational operators on strings compare code units lexicographically;
    a comparison with [undefined] is false. *)
Definition lt (a b : option string) : bool :=
  match a, b with
  | Some x, Some y => String.ltb x y
  | _, _ => false
  end.

Definition le (a b : option string) : bool :=
  match a, b with
  | Some x, Some y => String.leb x y
  | _, _ => false
  end.

Definition gt (a b : option string) : bool := lt b a.
Definition ge (a b : option string) : bool := le b a.

(** [s.includes(sub)] *)
Fixpoint includes (s sub : string) : bool :=
  if String.prefix sub s then true
  else match s with
       | EmptyString => false
       | String _ s' => includes s' sub
       end.

(** [s.endsWith(suffix)] *)
Definition endsWith (s suffix : string) : bool :=
  let n := String.length s in
  let m := String.length suffix in
  (m <=? n)%nat && (String.substring (n - m) m s =? suffix).

(** The decimal digit [d] as a character. *)
Definition digit (d : nat) : ascii := ascii_of_nat (48 + d).

Fixpoint digits_aux (fuel n : nat) (acc : string) : string :=
  match fuel with
  | O => acc
  | S fuel' =>
      let acc' := String (digit (n mod 10)) acc in
      if (n / 10 =? 0)%nat then acc' else digits_aux fuel' (n / 10) acc'
  end.

(** [String(n)] for a natural number. *)
Definition String_of_nat (n : nat) : string := digits_aux (S n) n "".

(** [s.padStart(2, '0')] *)
Definition padStart2 (s : string) : string :=
  match String.length s with
  | 0 => "00"
  | 1 => "0" ++ s
  | _ => s
  end.

(** What a JavaScript [throw] carries in this code: either an [Error]
    object built by the program, or the error object handed back by the
    PostgREST client (whether that object is an instance of [Error]
    depends on the client library version, hence the flag). *)
Record PostgrestError := {
  code : string;
  message : string;
  is_Error_instance : bool
}.

Inductive Exn :=
| Error (msg : string)
| Rejected (e : PostgrestError).

Definition instanceof_Error (x : Exn) : bool :=
  match x with
  | Error _ => true
  | Rejected e => is_Error_instance e
  end.

Definition exn_message (x : Exn) : string :=
  match x with
  | Error m => m
  | Rejected e => message e
  end.

(** Completion of an async function body. *)
Inductive Completion (A : Type) :=
| Return (a : A)
| Throw (x : Exn).
Arguments Return {A} a.
Arguments Throw {A} x.

End Js.

(* ------------------------------------------------------------------------- *)
(** ** The database schema *)

(** [reservation_status] enum of [20251203010000_safe_improvements.sql]. *)
Module Status.
Inductive t := pending | approved | rejected | cancelled.

Definition eqb (a b : t) : bool :=
  match a, b with
  | pending, pending | approved, approved
  | rejected, rejected | cancelled, cancelled => true
  | _, _ => false
  end.
End Status.

(** [TIME WITHOUT TIME ZONE] as whole seconds since midnight, [DATE] in the
    ISO text form [YYYY-MM-DD] in which PostgREST returns it and in which the
    client sends it, [TIMESTAMP WITH TIME ZONE] as milliseconds since the
    epoch, [UUID] as text. *)
Definition Time := Z.
Definition Date := string.
Definition Timestamptz := Z.
Definition Uuid := string.

Module Reservation.
Record t := {
  id : Uuid;
  responsable : string;
  email : string;
  motivo : string;
  fecha : Date;
  inicio : Time;
  fin : Time;
  personas : Z;
  created_at : Timestamptz;
  approved : bool;
  admin_notes : option string;
  affiliation : option string;
  status : Status.t;
  updated_at : Timestamptz;
  updated_by : option Uuid;
  confirmed : bool;
  confirmation_token : option Uuid;
  token_expires_at : option Timestamptz
}.
End Reservation.

Module BlockedDate.
Record t := {
  id : Uuid;
  fecha : Date;
  motivo : option string;
  created_at : Timestamptz;
  created_by : option Uuid;
  start_time : option Time;
  end_time : option Time;
  group_id : option Uuid
}.
End BlockedDate.

(** [public.cancellations] of [20251204000000_add_cancellations_table.sql]. *)
Module Cancellation.
Record t := {
  reservation_id : Uuid;
  cancelled_by : option Uuid;
  reason : option string;
  previous_status : Status.t;
  reservation_snapshot : Reservation.t;
  created_at : Timestamptz
}.
End Cancellation.

Module Pg.
Import Reservation.

Definition table := list Reservation.t.

(** SQLSTATE codes raised by the statements below. *)
Definition check_violation : string := "23514".
Definition unique_violation : string := "23505".
Definition exclusion_violation : string := "23P01".
Definition invalid_datetime_format : string := "22007".

Definition pg_error (c m : string) : Js.PostgrestError :=
  {| Js.code := c; Js.message := m; Js.is_Error_instance := false |}.

(** [status NOT IN ('cancelled', 'rejected')]: the predicate of the partial
    exclusion constraint and of the trigger's query. *)
Definition status_not_in_cancelled_rejected (s : Status.t) : bool :=
  negb (Status.eqb s Status.cancelled || Status.eqb s Status.rejected).

Definition active (r : Reservation.t) : bool :=
  status_not_in_cancelled_rejected (status r).

(** A timestamp [fecha + time]; ISO dates order like their text. *)
Definition timestamp := (Date * Time)%type.

Definition ts_lt (a b : timestamp) : bool :=
  match String.compare (fst a) (fst b) with
  | Lt => true
  | Eq => (snd a <? snd b)%Z
  | Gt => false
  end.

(** [tsrange(lower, upper)], bounds [[lower, upper)]. *)
Record tsrange := { lower : timestamp; upper : timestamp }.

(** [reservation_time_range(fecha, inicio, fin)] *)
Definition reservation_time_range (f : Date) (i e : Time) : tsrange :=
  {| lower := (f, i); upper := (f, e) |}.

Definition range_nonempty (a : tsrange) : bool := ts_lt (lower a) (upper a).

(** The range operator [&&]: two ranges overlap when they share a point;
    an empty range overlaps nothing. *)
Definition range_overlaps (a b : tsrange) : bool :=
  range_nonempty a && range_nonempty b
  && ts_lt (lower a) (upper b) && ts_lt (lower b) (upper a).

(** The pair of operators of [reservations_no_overlap_excl]:
    [fecha WITH =, reservation_time_range(fecha, inicio, fin) WITH &&]. *)
Definition excl_conflict (a b : Reservation.t) : bool :=
  (fecha a =? fecha b)
  && range_overlaps (reservation_time_range (fecha a) (inicio a) (fin a))
                    (reservation_time_range (fecha b) (inicio b) (fin b)).

(** Row-level checks run when a row version is written: the check
    constraints in the order of their names
    ([reservations_personas_positive_check], then
    [reservations_time_order_check]), the primary key, then the exclusion
    constraint (only rows satisfying its WHERE clause are indexed and
    compared). [others] are the live rows other than the one being
    written. *)
Definition check_row (r : Reservation.t) (others : table)
  : option Js.PostgrestError :=
  if negb (0 <? personas r)%Z then
    Some (pg_error check_violation
      "new row for relation reservations violates check constraint reservations_personas_positive_check")
  else if negb (inicio r <? fin r)%Z then
    Some (pg_error check_violation
      "new row for relation reservations violates check constraint reservations_time_order_check")
  else if existsb (fun o => id o =? id r) others then
    Some (pg_error unique_violation
      "duplicate key value violates unique constraint reservations_pkey")
  else if active r && existsb (fun o => active o && excl_conflict r o) others then
    Some (pg_error exclusion_violation
      "conflicting key value violates exclusion constraint reservations_no_overlap_excl")
  else None.

(** [INSERT INTO reservations VALUES (r)] *)
Definition insert_reservation (r : Reservation.t) (tbl : table)
  : Js.PostgrestError + table :=
  match check_row r tbl with
  | Some e => inl e
  | None => inr (tbl ++ [r])%list
  end.

(** Trigger function [set_updated_at], fired BEFORE UPDATE on every row. *)
Definition set_updated_at (now : Timestamptz) (r : Reservation.t)
  : Reservation.t :=
  {| id := id r; responsable := responsable r; email := email r;
     motivo := motivo r; fecha := fecha r; inicio := inicio r;
     fin := fin r; personas := personas r; created_at := created_at r;
     approved := approved r; admin_notes := admin_notes r;
     affiliation := affiliation r; status := status r;
     updated_at := now; updated_by := updated_by r;
     confirmed := confirmed r;
     confirmation_token := confirmation_token r;
     token_expires_at := token_expires_at r |}.

(** [UPDATE reservations SET ... WHERE p]: matching rows are rewritten one
    after the other, each new version checked against the rows alive at
    that moment; an error aborts the statement. *)
Fixpoint update_rows (now : Timestamptz) (p : Reservation.t -> bool)
    (f : Reservation.t -> Reservation.t)
    (done todo : table) : Js.PostgrestError + table :=
  match todo with
  | [] => inr done
  | r :: rest =>
      if p r then
        let r' := set_updated_at now (f r) in
        match check_row r' (done ++ rest)%list with
        | Some e => inl e
        | None => update_rows now p f (done ++ [r'])%list rest
        end
      else update_rows now p f (done ++ [r])%list rest
  end.

Definition update_reservations (now : Timestamptz)
    (p : Reservation.t -> bool)
    (f : Reservation.t -> Reservation.t) (tbl : table)
  : Js.PostgrestError + table :=
  update_rows now p f [] tbl.

(** [DELETE FROM reservations WHERE p] *)
Definition delete_reservations (p : Reservation.t -> bool) (tbl : table)
  : table :=
  filter (fun r => negb (p r)) tbl.

(** One committed statement on the reservations table. *)
Inductive step : table -> table -> Prop :=
| step_insert r tbl tbl' :
    insert_reservation r tbl = inr tbl' -> step tbl tbl'
| step_update now p f tbl tbl' :
    update_reservations now p f tbl = inr tbl' -> step tbl tbl'
| step_delete p tbl :
    step tbl (delete_reservations p tbl).

(** Tables reachable from the empty table. *)
Inductive reachable : table -> Prop :=
| reach_empty : reachable []
| reach_step tbl tbl' : reachable tbl -> step tbl tbl' -> reachable tbl'.

(** The intervals [[inicio, fin)] of two rows intersect. *)
Definition intervals_overlap (a b : Reservation.t) : Prop :=
  (inicio a < fin b /\ inicio b < fin a)%Z.

(** No two distinct active rows of one date overlap. *)
Definition no_overlap (tbl : table) : Prop :=
  forall a b, In a tbl -> In b tbl -> id a <> id b ->
    active a = true -> active b = true -> fecha a = fecha b ->
    ~ intervals_overlap a b.

Definition pk_unique (tbl : table) : Prop := NoDup (map id tbl).

Definition checks_ok (r : Reservation.t) : Prop :=
  (inicio r < fin r /\ 0 < personas r)%Z.

(** What the schema guarantees of every stored table. *)
Definition valid (tbl : table) : Prop :=
  pk_unique tbl /\ Forall checks_ok tbl /\ no_overlap tbl.

(** What a row has to satisfy to be written next to [others]. *)
Record admissible (r : Reservation.t) (others : table) : Prop := {
  adm_checks : checks_ok r;
  adm_fresh : ~ In (id r) (map id others);
  adm_excl : forall o, In o others -> active r = true -> active o = true ->
             excl_conflict r o = false
}.

(** [f] keeps the key and the slot of a row and does not revive it. *)
Definition keeps_slot (f : Reservation.t -> Reservation.t) : Prop :=
  forall r, id (f r) = id r /\ fecha (f r) = fecha r
            /\ inicio (f r) = inicio r /\ fin (f r) = fin r
            /\ personas (f r) = personas r
            /\ (active (f r) = true -> active r = true).

(** The row-wise effect of [UPDATE ... SET f WHERE p]. *)
Definition rewritten now (p : Reservation.t -> bool)
    (f : Reservation.t -> Reservation.t) (r : Reservation.t) : Reservation.t :=
  if p r then set_updated_at now (f r) else r.

End Pg.

(* ------------------------------------------------------------------------- *)
(** ** Values crossing the REST interface *)

Module Rest.

Definition digit_val (c : ascii) : option nat :=
  let n := nat_of_ascii c in
  if (48 <=? n)%nat && (n <=? 57)%nat then Some (n - 48) else None.

Definition two_digits (a b : ascii) : option nat :=
  match digit_val a, digit_val b with
  | Some x, Some y => Some (10 * x + y)
  | _, _ => None
  end.

Definition make_time (h m s : nat) : option Time :=
  if (h <? 24)%nat && (m <? 60)%nat && (s <? 60)%nat
  then Some (Z.of_nat h * 3600 + Z.of_nat m * 60 + Z.of_nat s)%Z
  else None.

(** Input of a [TIME] literal. The application only produces the forms
    [HH:MM] (time picker) and [HH:MM:SS] (values read back from the
    database); any other text is rejected here. *)
Definition time_in (s : string) : option Time :=
  match s with
  | String h1 (String h2 (String ":" (String m1 (String m2 rest)))) =>
      match two_digits h1 h2, two_digits m1 m2 with
      | Some h, Some m =>
          match rest with
          | "" => make_time h m 0
          | String ":" (String s1 (String s2 "")) =>
              match two_digits s1 s2 with
              | Some sec => make_time h m sec
              | None => None
              end
          | _ => None
          end
      | _, _ => None
      end
  | _ => None
  end.

Definition pad2 (n : Z) : string :=
  String (Js.digit (Z.to_nat (n / 10)))
    (String (Js.digit (Z.to_nat (n mod 10))) "").

(** Output of a [TIME] value in JSON: [HH:MM:SS]. *)
Definition time_out (t : Time) : string :=
  pad2 (t / 3600)%Z ++ ":" ++ pad2 (t / 60 mod 60)%Z ++ ":"
  ++ pad2 (t mod 60)%Z.

End Rest.

(* ------------------------------------------------------------------------- *)
(** ** The backend as the client and the triggers see it *)

Record Email := {
  email_type : string;
  recipient : string;
  about : Uuid;
  email_reason : option string
}.

Inductive Toast :=
| toast_error (msg : string)
| toast_success (msg : string).

Record World := {
  reservations : Pg.table;
  cancellations : list Cancellation.t;
  blocked_dates : list BlockedDate.t;
  outbox : list Email;
  toasts : list Toast;
  insert_requests : nat
}.

Definition with_reservations (tbl : Pg.table) (w : World) : World :=
  {| reservations := tbl; cancellations := cancellations w;
     blocked_dates := blocked_dates w; outbox := outbox w;
     toasts := toasts w; insert_requests := insert_requests w |}.

Definition with_cancellation (c : Cancellation.t) (w : World) : World :=
  {| reservations := reservations w;
     cancellations := (cancellations w ++ [c])%list;
     blocked_dates := blocked_dates w; outbox := outbox w;
     toasts := toasts w; insert_requests := insert_requests w |}.

Definition with_blocked_date (b : BlockedDate.t) (w : World) : World :=
  {| reservations := reservations w; cancellations := cancellations w;
     blocked_dates := (blocked_dates w ++ [b])%list; outbox := outbox w;
     toasts := toasts w; insert_requests := insert_requests w |}.

Definition with_email (m : Email) (w : World) : World :=
  {| reservations := reservations w; cancellations := cancellations w;
     blocked_dates := blocked_dates w; outbox := (outbox w ++ [m])%list;
     toasts := toasts w; insert_requests := insert_requests w |}.

Definition with_toast (t : Toast) (w : World) : World :=
  {| reservations := reservations w; cancellations := cancellations w;
     blocked_dates := blocked_dates w; outbox := outbox w;
     toasts := (toasts w ++ [t])%list; insert_requests := insert_requests w |}.

Definition count_insert_request (w : World) : World :=
  {| reservations := reservations w; cancellations := cancellations w;
     blocked_dates := blocked_dates w; outbox := outbox w;
     toasts := toasts w; insert_requests := S (insert_requests w) |}.

(** How one request on the audit table may go wrong: it may come back with
    an error object (the code does not look at it) or throw. *)
Inductive Fault :=
| no_fault
| fault_error (e : Js.PostgrestError)
| fault_throw (x : Js.Exn).

(** [supabase.auth.getUser()]: throws, or yields the signed-in user's id. *)
Inductive AuthUser :=
| getUser_throws
| getUser_data (uid : option Uuid).

(** Everything outside the program's control during one call.
    - [now] is the clock of the client ([Date.now()], [new Date()]),
      [db_now] the clock of the database ([now()]).
    - [db_admin] tells whether the session passes the condition shared by
      the policies "Only admins can update reservations" and
      [cancellations_insert_by_admins]: a profile with [is_admin = true]
      exists for [auth.uid()].
    - [http_post_raises] tells, for the reservation a notification is
      about, whether [http_post] raises.
    - The [_fault] fields and [audit_transport] inject failures of the
      transport; with [None] the request reaches the tables, and the
      policies and the schema decide. *)
Record Env := {
  now : Timestamptz;
  db_now : Timestamptz;
  gen_random_uuid : Uuid;
  gen_random_token : Uuid;
  auth_user : AuthUser;
  db_admin : bool;
  service_role_key : option string;
  http_post_raises : Uuid -> bool;
  send_email_fails : bool;
  select_fault : option Js.PostgrestError;
  single_fault : Uuid -> option Js.PostgrestError;
  audit_transport : Uuid -> Fault;
  update_fault : Uuid -> option Js.PostgrestError;
  insert_fault : option Js.PostgrestError;
  confirm_fault : option Js.PostgrestError
}.

(* ------------------------------------------------------------------------- *)
(** ** Row-level security
       ([20251203020000_add_admin_email_check.sql], parts 1.2 and 1.4) *)

Module Rls.

Definition insufficient_privilege : string := "42501".

(** [UPDATE reservations SET f WHERE p] as a client session runs it. The
    only UPDATE policy, "Only admins can update reservations", has a USING
    condition on the session alone: in a session that fails it no row is
    visible to the statement, which then changes nothing and reports no
    error. *)
Definition update_reservations (env : Env) (p : Reservation.t -> bool)
    (f : Reservation.t -> Reservation.t) (tbl : Pg.table)
  : Js.PostgrestError + Pg.table :=
  if db_admin env then Pg.update_reservations (db_now env) p f tbl
  else inr tbl.

(** The answer to [INSERT INTO cancellations]: the policy
    [cancellations_insert_by_admins] has a WITH CHECK condition, so the
    insert of a session that fails it is refused with an error. *)
Definition insert_cancellation (env : Env) (i : Uuid) : Fault :=
  if db_admin env then audit_transport env i
  else fault_error
         (Pg.pg_error insufficient_privilege
            "new row violates row-level security policy for table cancellations").

End Rls.

(** How the insert of the audit row of reservation [i] goes wrong. *)
Definition audit_fault (env : Env) (i : Uuid) : Fault :=
  Rls.insert_cancellation env i.

(* ------------------------------------------------------------------------- *)
(** ** Trigger [trigger_cancel_reservations_on_block]
       ([20251204170000_handle_edge_cases.sql], parts 3 and 4) *)

Module Trigger.
Import Reservation.

Definition newline : string := String (ascii_of_nat 10) "".

(** [COALESCE('Fechas bloqueadas por administración: ' || NEW.motivo,
              'Fechas bloqueadas por administración')] *)
Definition cancel_reason (NEW : BlockedDate.t) : string :=
  match BlockedDate.motivo NEW with
  | Some m => "Fechas bloqueadas por administración: " ++ m
  | None => "Fechas bloqueadas por administración"
  end.

(** The WHERE clause of the trigger's query. *)
Definition affected (NEW : BlockedDate.t) (r : Reservation.t) : bool :=
  (fecha r =? BlockedDate.fecha NEW)
  && Pg.status_not_in_cancelled_rejected (status r)
  && match BlockedDate.start_time NEW, BlockedDate.end_time NEW with
     | None, None => true
     | Some s, Some e =>
         ((s <=? inicio r)%Z && (inicio r <? e)%Z)
         || ((s <? fin r)%Z && (fin r <=? e)%Z)
         || ((inicio r <=? s)%Z && (e <=? fin r)%Z)
     | _, _ => false
     end.

(** The SET list of the UPDATE in the loop body. *)
Definition cancel_row (NEW : BlockedDate.t) (now : Timestamptz)
    (r : Reservation.t) : Reservation.t :=
  {| id := id r; responsable := responsable r; email := email r;
     motivo := motivo r; fecha := fecha r; inicio := inicio r;
     fin := fin r; personas := personas r; created_at := created_at r;
     approved := approved r;
     admin_notes :=
       Some (match admin_notes r with
             | Some n => n ++ newline ++ newline
             | None => ""
             end ++ cancel_reason NEW);
     affiliation := affiliation r;
     status := Status.cancelled;
     updated_at := now;
     updated_by := BlockedDate.created_by NEW;
     confirmed := confirmed r;
     confirmation_token := confirmation_token r;
     token_expires_at := token_expires_at r |}.

(** The [http_post] block of one iteration: sends when the key was found
    in the Vault; an exception is turned into a warning. *)
Definition notify (env : Env) (NEW : BlockedDate.t) (a : Reservation.t)
    (w : World) : World :=
  match service_role_key env with
  | Some _ =>
      if http_post_raises env (id a) then w
      else with_email {| email_type := "reservation-cancelled";
                         recipient := email a;
                         about := id a;
                         email_reason := Some (cancel_reason NEW) |} w
  | None => w
  end.

(** [FOR affected_reservation IN SELECT ... LOOP ... END LOOP] *)
Fixpoint cancel_loop (env : Env) (NEW : BlockedDate.t)
    (rows : list Reservation.t) (w : World) : Js.PostgrestError + World :=
  match rows with
  | [] => inr w
  | a :: rest =>
      match Pg.update_reservations (db_now env) (fun r => id r =? id a)
              (cancel_row NEW (db_now env)) (reservations w) with
      | inl e => inl e
      | inr tbl =>
          cancel_loop env NEW rest (notify env NEW a (with_reservations tbl w))
      end
  end.

Definition cancel_reservations_in_blocked_range (env : Env)
    (NEW : BlockedDate.t) (w : World) : Js.PostgrestError + World :=
  cancel_loop env NEW (filter (affected NEW) (reservations w)) w.

(** The rows the loop has an iteration for: those whose [id] is the [id] of
    a row returned by the query. *)
Definition selected (rows : list Reservation.t) (r : Reservation.t) : bool :=
  existsb (fun a => id r =? id a) rows.

(** [blocked_dates_time_order_check] *)
Definition blocked_dates_time_order_check (b : BlockedDate.t) : bool :=
  match BlockedDate.start_time b, BlockedDate.end_time b with
  | Some s, Some e => (s <? e)%Z
  | _, _ => true
  end.

(** [INSERT INTO blocked_dates VALUES (NEW)], with the AFTER INSERT
    trigger; an error anywhere rolls the statement back. *)
Definition insert_blocked_date (env : Env) (NEW : BlockedDate.t)
    (w : World) : Js.PostgrestError + World :=
  if negb (blocked_dates_time_order_check NEW) then
    inl (Pg.pg_error Pg.check_violation
      "new row for relation blocked_dates violates check constraint blocked_dates_time_order_check")
  else if existsb (fun b => BlockedDate.id b =? BlockedDate.id NEW)
            (blocked_dates w) then
    inl (Pg.pg_error Pg.unique_violation
      "duplicate key value violates unique constraint blocked_dates_pkey")
  else cancel_reservations_in_blocked_range env NEW (with_blocked_date NEW w).

End Trigger.

(* ------------------------------------------------------------------------- *)
(** ** Client library (lib/supabase) *)

Module Lib.
Import Reservation.

(** *** [sanitizeInput] *)

Definition is_word_char (c : ascii) : bool :=
  let n := nat_of_ascii c in
  ((48 <=? n)%nat && (n <=? 57)%nat)
  || ((65 <=? n)%nat && (n <=? 90)%nat)
  || ((97 <=? n)%nat && (n <=? 122)%nat)
  || (n =? 95)%nat.

Definition is_word_opt (c : option ascii) : bool :=
  match c with
  | Some a => is_word_char a
  | None => false
  end.

Definition to_lower (c : ascii) : ascii :=
  let n := nat_of_ascii c in
  if (65 <=? n)%nat && (n <=? 90)%nat then ascii_of_nat (n + 32) else c.

(** White space removed by [trim] (the ASCII members of the set). *)
Definition is_space (c : ascii) : bool :=
  let n := nat_of_ascii c in
  ((9 <=? n)%nat && (n <=? 13)%nat) || (n =? 32)%nat.

(** [s.replace(/[chars]/g, '')] *)
Fixpoint remove_chars (bad : ascii -> bool) (s : string) : string :=
  match s with
  | EmptyString => EmptyString
  | String c s' =>
      if bad c then remove_chars bad s' else String c (remove_chars bad s')
  end.

(** [s.replace(/pat/g, '')] for a literal, non-empty [pat]: matches are
    found left to right and do not overlap; [skip] counts the characters
    of the current match still to be dropped. *)
Fixpoint remove_all_aux (pat : string) (skip : nat) (s : string) : string :=
  match s with
  | EmptyString => EmptyString
  | String c s' =>
      match skip with
      | S k => remove_all_aux pat k s'
      | O =>
          if String.prefix pat s
          then remove_all_aux pat (String.length pat - 1) s'
          else String c (remove_all_aux pat 0 s')
      end
  end.

Definition remove_all (pat s : string) : string := remove_all_aux pat 0 s.

Fixpoint prefix_ci (word s : string) : bool :=
  match word, s with
  | EmptyString, _ => true
  | String a word', String b s' =>
      Ascii.eqb a (to_lower b) && prefix_ci word' s'
  | String _ _, EmptyString => false
  end.

(** [s.replace(/\bword\b/gi, '')] for a lower-case [word] made of word
    characters: a match needs a non-word character (or an end of the
    text) on both sides; [prev] is the character before the cursor. *)
Fixpoint remove_word_aux (word : string) (prev : option ascii) (skip : nat)
    (s : string) : string :=
  match s with
  | EmptyString => EmptyString
  | String c s' =>
      match skip with
      | S k => remove_word_aux word (Some c) k s'
      | O =>
          if negb (is_word_opt prev) && prefix_ci word s
             && negb (is_word_opt (String.get (String.length word) s))
          then remove_word_aux word (Some c) (String.length word - 1) s'
          else String c (remove_word_aux word (Some c) 0 s')
      end
  end.

Definition remove_word (word s : string) : string :=
  remove_word_aux word None 0 s.

Fixpoint trimStart (s : string) : string :=
  match s with
  | String c s' => if is_space c then trimStart s' else s
  | EmptyString => EmptyString
  end.

Fixpoint trimEnd (s : string) : string :=
  match s with
  | EmptyString => EmptyString
  | String c s' =>
      match trimEnd s' with
      | EmptyString => if is_space c then EmptyString else String c EmptyString
      | t => String c t
      end
  end.

Definition trim (s : string) : string := trimEnd (trimStart s).

Definition is_quote_or_semicolon (c : ascii) : bool :=
  let n := nat_of_ascii c in
  (n =? 39)%nat || (n =? 34)%nat || (n =? 59)%nat.

Definition sanitizeInput (input : option string) : string :=
  match input with
  | None => ""
  | Some input =>
      trim
        (remove_word "select"
        (remove_word "insert"
        (remove_word "update"
        (remove_word "delete"
        (remove_word "drop"
        (remove_all "*/"
        (remove_all "/*"
        (remove_all "--"
        (remove_chars is_quote_or_semicolon input)))))))))
  end.

(** *** [sendEmail] : never throws; a failed invocation is only logged. *)
Definition sendEmail (env : Env) (m : Email) (w : World) : World :=
  if send_email_fails env then w else with_email m w.

(** [.select('*').eq('id', id).single()] *)
Definition single (env : Env) (i : Uuid) (tbl : Pg.table)
  : Js.PostgrestError + Reservation.t :=
  match single_fault env i with
  | Some e => inl e
  | None =>
      match filter (fun r => id r =? i) tbl with
      | [r] => inr r
      | _ => inl (Pg.pg_error "PGRST116"
               "JSON object requested, multiple (or no) rows returned")
      end
  end.

(** [userData?.user?.id || null] after [supabase.auth.getUser()] *)
Definition current_admin (env : Env) : option Uuid :=
  match auth_user env with
  | getUser_throws => None
  | getUser_data uid => if Js.truthy_opt uid then uid else None
  end.

(** [updateObject] of [deleteReservation], applied to a row. *)
Definition soft_cancel (adminId : option Uuid) (reason : option string)
    (r : Reservation.t) : Reservation.t :=
  {| id := id r; responsable := responsable r; email := email r;
     motivo := motivo r; fecha := fecha r; inicio := inicio r;
     fin := fin r; personas := personas r; created_at := created_at r;
     approved := approved r;
     admin_notes :=
       Some (if Js.truthy_opt reason
             then "Motivo: " ++ sanitizeInput reason
             else "Motivo: No especificado");
     affiliation := affiliation r;
     status := Status.cancelled;
     updated_at := updated_at r;
     updated_by := match adminId with
                   | Some a => Some a
                   | None => updated_by r
                   end;
     confirmed := confirmed r;
     confirmation_token := confirmation_token r;
     token_expires_at := token_expires_at r |}.

(** The row written to [cancellations]. *)
Definition audit_row (env : Env) (i : Uuid) (adminId : option Uuid)
    (reason : option string) (reservation : Reservation.t)
  : Cancellation.t :=
  {| Cancellation.reservation_id := i;
     Cancellation.cancelled_by := adminId;
     Cancellation.reason :=
       (let s := sanitizeInput reason in
        if Js.truthy s then Some s else None);
     Cancellation.previous_status := status reservation;
     Cancellation.reservation_snapshot := reservation;
     Cancellation.created_at := now env |}.

(** *** [deleteReservation] *)
Definition deleteReservation (env : Env) (i : Uuid) (reason : option string)
    (w : World) : Js.Completion bool * World :=
  if negb (Js.truthy i) then
    (Js.Throw (Js.Error "No reservation ID provided for deletion"), w)
  else
    match single env i (reservations w) with
    | inl getError => (Js.Throw (Js.Rejected getError), w)
    | inr reservation =>
        let adminId := current_admin env in
        let w1 :=
          match audit_fault env i with
          | no_fault =>
              with_cancellation (audit_row env i adminId reason reservation) w
          | fault_error _ => w
          | fault_throw _ => w
          end in
        let updated :=
          match update_fault env i with
          | Some e => inl e
          | None =>
              Rls.update_reservations env (fun r => id r =? i)
                (soft_cancel adminId reason) (reservations w1)
          end in
        match updated with
        | inl updateError => (Js.Throw (Js.Rejected updateError), w1)
        | inr tbl =>
            let w2 := with_reservations tbl w1 in
            let cancellationReasonForEmail :=
              if Js.truthy_opt reason then sanitizeInput reason
              else "No especificado" in
            (Js.Return true,
             sendEmail env
               {| email_type := "reservation-cancelled";
                  recipient := email reservation;
                  about := id reservation;
                  email_reason := Some cancellationReasonForEmail |} w2)
        end
    end.

(** The audit table after the audit step of a cancellation. *)
Definition audited (env : Env) (i : Uuid) (reason : option string)
    (r : Reservation.t) (w : World) : list Cancellation.t :=
  match audit_fault env i with
  | no_fault =>
      (cancellations w ++ [audit_row env i (current_admin env) reason r])%list
  | _ => cancellations w
  end.

(** *** [blockTimeSlot] *)

(** The first query of [blockTimeSlot]:
    [.not('status','eq','cancelled').eq('fecha', date)
     .or(`inicio.gte.${startTime},fin.lte.${endTime}`)] *)
Definition select_in_slot (env : Env) (date startTime endTime : string)
    (tbl : Pg.table) : Js.PostgrestError + list Reservation.t :=
  match select_fault env with
  | Some e => inl e
  | None =>
      match Rest.time_in startTime, Rest.time_in endTime with
      | Some s, Some e =>
          inr (filter (fun r =>
                 negb (Status.eqb (status r) Status.cancelled)
                 && (fecha r =? date)
                 && ((s <=? inicio r)%Z || (fin r <=? e)%Z)) tbl)
      | _, _ =>
          inl (Pg.pg_error Pg.invalid_datetime_format
                 "invalid input syntax for type time")
      end
  end.

(** The loop over [existingReservations]; a failing cancellation is
    skipped and the loop goes on. *)
Fixpoint cancel_existing (env : Env) (cancellationReason : string)
    (existingReservations : list Reservation.t) (w : World) : World :=
  match existingReservations with
  | [] => w
  | reservation :: rest =>
      let w' :=
        if negb (responsable reservation =? "Admin")
        then snd (deleteReservation env (id reservation)
                    (Some cancellationReason) w)
        else w in
      cancel_existing env cancellationReason rest w'
  end.

(** [blockedReservation] as the database stores it: the columns the client
    does not send take their defaults. *)
Definition blockedReservation (env : Env) (date reason : string)
    (startTime endTime : Time) : Reservation.t :=
  {| id := gen_random_uuid env;
     responsable := "Admin";
     email := "admin@system.com";
     motivo := "BLOQUEADO: " ++ reason;
     fecha := date;
     inicio := startTime;
     fin := endTime;
     personas := 0%Z;
     created_at := now env;
     approved := true;
     admin_notes := None;
     affiliation := None;
     status := Status.pending;
     updated_at := db_now env;
     updated_by := None;
     confirmed := false;
     confirmation_token := Some (gen_random_token env);
     token_expires_at := None |}.

(** [.from('reservations').insert([row]).select()] *)
Definition insert_row (env : Env) (row : option Reservation.t) (w : World)
  : (Js.PostgrestError + Reservation.t) * World :=
  let w := count_insert_request w in
  match insert_fault env with
  | Some e => (inl e, w)
  | None =>
      match row with
      | None =>
          (inl (Pg.pg_error Pg.invalid_datetime_format
                  "invalid input syntax for type time"), w)
      | Some r =>
          match Pg.insert_reservation r (reservations w) with
          | inl e => (inl e, w)
          | inr tbl => (inr r, with_reservations tbl w)
          end
      end
  end.

Definition blockTimeSlot (env : Env) (date startTime endTime reason : string)
    (w : World) : Js.Completion (option Reservation.t) * World :=
  match select_in_slot env date startTime endTime (reservations w) with
  | inl queryError => (Js.Throw (Js.Rejected queryError), w)
  | inr existingReservations =>
      let cancellationReason :=
        "La reserva fue cancelada porque el administrador bloqueó este horario: "
        ++ reason in
      let w1 := cancel_existing env cancellationReason existingReservations w in
      let row :=
        match Rest.time_in startTime, Rest.time_in endTime with
        | Some s, Some e => Some (blockedReservation env date reason s e)
        | _, _ => None
        end in
      match insert_row env row w1 with
      | (inl insertError, w2) => (Js.Throw (Js.Rejected insertError), w2)
      | (inr returned, w2) => (Js.Return (Some returned), w2)
      end
  end.

(** *** [checkAvailability] *)

(** The body of the [some] callback. A row read from the database has
    [inicio] and [fin] and no [horaInicio]/[horaFin]. *)
Definition hasOverlap (startTime endTime : string) (reservation : Reservation.t)
  : bool :=
  let reservationStart := Js.or (Some (Rest.time_out (inicio reservation))) None in
  let reservationEnd := Js.or (Some (Rest.time_out (fin reservation))) None in
  (Js.ge (Some startTime) reservationStart && Js.lt (Some startTime) reservationEnd)
  || (Js.gt (Some endTime) reservationStart && Js.le (Some endTime) reservationEnd)
  || (Js.le (Some startTime) reservationStart && Js.ge (Some endTime) reservationEnd).

(** [.select('*').not('status','eq','cancelled').eq('fecha', date)] *)
Definition select_not_cancelled (date : string) (tbl : Pg.table)
  : list Reservation.t :=
  filter (fun r => negb (Status.eqb (status r) Status.cancelled)
                   && (fecha r =? date)) tbl.

Definition checkAvailability (env : Env) (date startTime endTime : string)
    (excludeId : option string) (w : World) : bool :=
  match select_fault env with
  | Some _ => false
  | None =>
      let reservations := select_not_cancelled date (reservations w) in
      let relevantReservations :=
        match excludeId with
        | Some x =>
            if Js.truthy x
            then filter (fun res => negb (id res =? x)) reservations
            else reservations
        | None => reservations
        end in
      negb (existsb (hasOverlap startTime endTime) relevantReservations)
  end.

End Lib.

(* ------------------------------------------------------------------------- *)
(** ** Hooks *)

Module Hooks.

(** [useDateTimeUtils().doTimeRangesOverlap] *)
Definition doTimeRangesOverlap (start1 end1 start2 end2 : string) : bool :=
  Js.lt (Some start1) (Some end2) && Js.gt (Some end1) (Some start2).

(** The calendar fields read from the [Date] object. *)
Record JsDate := { getFullYear : nat; getMonth : nat; getDate : nat }.

Record NewReservation := {
  responsable : string;
  email : string;
  motivo : string;
  fecha : JsDate;
  inicio : string;
  fin : string;
  personas : Z;
  affiliation : option string
}.

Definition formattedDate (d : JsDate) : string :=
  Js.String_of_nat (getFullYear d) ++ "-"
  ++ Js.padStart2 (Js.String_of_nat (getMonth d + 1)) ++ "-"
  ++ Js.padStart2 (Js.String_of_nat (getDate d)).

(** [insertData] as the database stores it: [created_at] and [updated_at]
    are not sent and take the database's [now()], [token_expires_at] is
    computed from the clock of the browser. *)
Definition insertData (env : Env) (n : NewReservation) : option Reservation.t :=
  match Rest.time_in (inicio n), Rest.time_in (fin n) with
  | Some i, Some f =>
      Some {| Reservation.id := gen_random_uuid env;
              Reservation.responsable := responsable n;
              Reservation.email := email n;
              Reservation.motivo := motivo n;
              Reservation.fecha := formattedDate (fecha n);
              Reservation.inicio := i;
              Reservation.fin := f;
              Reservation.personas := personas n;
              Reservation.created_at := db_now env;
              Reservation.approved := true;
              Reservation.admin_notes := None;
              Reservation.affiliation :=
                (if Js.truthy_opt (affiliation n) then affiliation n else None);
              Reservation.status := Status.pending;
              Reservation.updated_at := db_now env;
              Reservation.updated_by := None;
              Reservation.confirmed := false;
              Reservation.confirmation_token := Some (gen_random_token env);
              Reservation.token_expires_at :=
                Some (now env + 24 * 60 * 60 * 1000)%Z |}
  | _, _ => None
  end.

Definition SLOT_TAKEN : string := "SLOT_TAKEN".

Definition slot_taken_toast : Toast :=
  toast_error
    "Este horario ya fue reservado por otra persona. Por favor, elige otro horario.".

Definition generic_toast : Toast := toast_error "Error al crear la reserva".

(** [error.code === '23P01' ||
     error.message?.includes('reservations_no_overlap_excl')] *)
Definition is_overlap_violation (e : Js.PostgrestError) : bool :=
  (Js.code e =? "23P01")
  || Js.includes (Js.message e) "reservations_no_overlap_excl".

(** The [catch] block of [addReservation]. *)
Definition on_error (x : Js.Exn) (w : World) : World :=
  if Js.instanceof_Error x && (Js.exn_message x =? SLOT_TAKEN)
  then with_toast slot_taken_toast w
  else with_toast generic_toast w.

Definition addReservation (env : Env) (newReservation : NewReservation)
    (w : World) : option Reservation.t * World :=
  match Lib.insert_row env (insertData env newReservation) w with
  | (inl error, w1) =>
      let thrown :=
        if is_overlap_violation error then Js.Error SLOT_TAKEN
        else Js.Rejected error in
      (None, on_error thrown w1)
  | (inr data0, w1) =>
      (Some data0,
       Lib.sendEmail env
         {| email_type := "confirm-reservation";
            recipient := Reservation.email data0;
            about := Reservation.id data0;
            email_reason := None |} w1)
  end.

End Hooks.

(* ------------------------------------------------------------------------- *)
(** ** Confirmation page ([ConfirmReservationPage], effect [confirmReservation]) *)

Module Page.
Import Reservation.

Inductive PageStatus := loading | success | error | expired.

(** [.eq('confirmation_token', token).gt('token_expires_at', now)] *)
Definition token_valid (env : Env) (token : string) (r : Reservation.t) : bool :=
  match confirmation_token r, token_expires_at r with
  | Some t, Some e => (t =? token) && (now env <? e)%Z
  | _, _ => false
  end.

Definition has_token (token : string) (r : Reservation.t) : bool :=
  match confirmation_token r with
  | Some t => t =? token
  | None => false
  end.

(** [.update({ confirmed: true })] *)
Definition set_confirmed (r : Reservation.t) : Reservation.t :=
  {| id := id r; responsable := responsable r; email := email r;
     motivo := motivo r; fecha := fecha r; inicio := inicio r;
     fin := fin r; personas := personas r; created_at := created_at r;
     approved := approved r; admin_notes := admin_notes r;
     affiliation := affiliation r; status := status r;
     updated_at := updated_at r; updated_by := updated_by r;
     confirmed := true;
     confirmation_token := confirmation_token r;
     token_expires_at := token_expires_at r |}.

(** [update(...).eq(...).gt(...).select().maybeSingle()]: no matching row
    gives [data = null] without error; more than one is an error and the
    write is rolled back. In a session that fails the UPDATE policy no row
    matches, whatever the token. *)
Definition update_confirmed (env : Env) (token : string) (tbl : Pg.table)
  : Js.PostgrestError + option Reservation.t * Pg.table :=
  match confirm_fault env with
  | Some e => inl e
  | None =>
      match (if db_admin env then filter (token_valid env token) tbl
             else []) with
      | [] => inr (None, tbl)
      | [r] =>
          match Rls.update_reservations env (token_valid env token)
                  set_confirmed tbl with
          | inl e => inl e
          | inr tbl' =>
              inr (Some (Pg.set_updated_at (db_now env) (set_confirmed r)),
                   tbl')
          end
      | _ => inl (Pg.pg_error "PGRST116"
               "JSON object requested, multiple (or no) rows returned")
      end
  end.

(** [.select('*').eq('confirmation_token', token).maybeSingle()]; only
    [data] is read. *)
Definition select_by_token (env : Env) (token : string) (tbl : Pg.table)
  : option Reservation.t :=
  match select_fault env with
  | Some _ => None
  | None =>
      match filter (has_token token) tbl with
      | [r] => Some r
      | _ => None
      end
  end.

Record PageState := {
  status : PageStatus;
  reservationDetails : option Reservation.t
}.

Definition confirmReservation (env : Env) (token : option string) (w : World)
  : PageState * World :=
  match token with
  | None => ({| status := error; reservationDetails := None |}, w)
  | Some token =>
      if negb (Js.truthy token) then
        ({| status := error; reservationDetails := None |}, w)
      else
        match update_confirmed env token (reservations w) with
        | inr (Some updateData, tbl) =>
            ({| status := success; reservationDetails := Some updateData |},
             with_reservations tbl w)
        | _ =>
            match select_by_token env token (reservations w) with
            | Some _ =>
                ({| status := expired; reservationDetails := None |}, w)
            | None =>
                ({| status := error; reservationDetails := None |}, w)
            end
        end
  end.

End Page.

(* ------------------------------------------------------------------------- *)
(** ** Login helper ([context/auth/utils], [fetchUserProfile]) *)

Module Auth.

(** When and how an awaited promise settles, in milliseconds counted from
    the moment the operation is started; [never] is a promise that stays
    pending. *)
Inductive Settles (A : Type) :=
| fulfils (after : Z) (v : A)
| rejects (after : Z) (x : Js.Exn)
| never.
Arguments fulfils {A} after v.
Arguments rejects {A} after x.
Arguments never {A}.

Record Profile := { is_admin : bool }.

(** What [maybeSingle()] resolves to. *)
Record Response := {
  data : option Profile;
  error : option Js.PostgrestError
}.

Record AuthEnv := {
  setSession : Settles unit;
  profiles_query : Settles Response;
  getUser : Settles (option string);
  profiles_insert : Settles (option Js.PostgrestError)
}.

Definition timeout_ms : Z := 3000.

(** [Promise.race([queryPromise, timeoutPromise])] where the timer was
    started at time 0 and the query at time [started]: the query wins
    only when it settles before the timer fires. *)
Definition race (started : Z) (q : Settles Response)
  : Js.Completion Response :=
  match q with
  | fulfils d v =>
      if (started + d <? timeout_ms)%Z then Js.Return v
      else Js.Throw (Js.Error "Profile fetch timeout")
  | rejects d x =>
      if (started + d <? timeout_ms)%Z then Js.Throw x
      else Js.Throw (Js.Error "Profile fetch timeout")
  | never => Js.Throw (Js.Error "Profile fetch timeout")
  end.

(** The branch taken when no profile row exists. *)
Definition create_profile (env : AuthEnv) : option bool :=
  match getUser env with
  | never => None
  | rejects _ _ => Some false
  | fulfils _ user_email =>
      let isAdmin :=
        match user_email with
        | Some e => Js.endsWith e "@fiuna.edu.py"
        | None => false
        end in
      match profiles_insert env with
      | never => None
      | rejects _ _ => Some false
      | fulfils _ (Some insertError) => Some false
      | fulfils _ None => Some isAdmin
      end
  end.

(** After [await client]: the query, the race and what follows. *)
Definition after_client (env : AuthEnv) (started : Z) : option bool :=
  match race started (profiles_query env) with
  | Js.Throw _ => Some false
  | Js.Return r =>
      match error r with
      | Some profileError => Some false
      | None =>
          match data r with
          | None => create_profile env
          | Some profileData => Some (is_admin profileData)
          end
      end
  end.

(** [fetchUserProfile(userId, accessToken?)]; [None] is a promise that
    never settles. *)
Definition fetchUserProfile (env : AuthEnv) (userId : string)
    (accessToken : option string) : option bool :=
  if Js.truthy_opt accessToken then
    match setSession env with
    | fulfils t _ => after_client env t
    | rejects _ _ => Some false
    | never => None
    end
  else after_client env 0%Z.

(** The moment the profiles query is issued, when it is. *)
Definition query_started (env : AuthEnv) (accessToken : option string)
  : option Z :=
  if Js.truthy_opt accessToken then
    match setSession env with
    | fulfils t _ => Some t
    | _ => None
    end
  else Some 0%Z.

(** The query issued at [started] does not complete before the timer
    fires, or fails: it stays pending, it rejects, it settles too late, or
    it resolves with an error object. *)
Definition lookup_failed (started : Z) (q : Settles Response) : Prop :=
  match q with
  | never => True
  | rejects _ _ => True
  | fulfils d r => (timeout_ms <= started + d)%Z \/ error r <> None
  end.

End Auth.

(* ------------------------------------------------------------------------- *)
(** ** Sample data used by the concrete scenarios below *)

Module Examples.

Definition booking (i : Uuid) (who : string) (day : Date) (from to : Time)
    (st : Status.t) (notes : option string) : Reservation.t :=
  {| Reservation.id := i;
     Reservation.responsable := who;
     Reservation.email := "user@fiuna.edu.py";
     Reservation.motivo := "asado";
     Reservation.fecha := day;
     Reservation.inicio := from;
     Reservation.fin := to;
     Reservation.personas := 8%Z;
     Reservation.created_at := 0%Z;
     Reservation.approved := true;
     Reservation.admin_notes := notes;
     Reservation.affiliation := None;
     Reservation.status := st;
     Reservation.updated_at := 0%Z;
     Reservation.updated_by := None;
     Reservation.confirmed := false;
     Reservation.confirmation_token := Some ("token-" ++ i);
     Reservation.token_expires_at := Some 86400000%Z |}.

Definition t0800 : Time := 28800%Z.
Definition t0900 : Time := 32400%Z.
Definition t1000 : Time := 36000%Z.
Definition t1100 : Time := 39600%Z.
Definition t1200 : Time := 43200%Z.

Definition world (tbl : Pg.table) : World :=
  {| reservations := tbl; cancellations := []; blocked_dates := [];
     outbox := []; toasts := []; insert_requests := 0 |}.

(** A backend without failures, an administrator signed in. *)
Definition env : Env :=
  {| now := 1000%Z;
     db_now := 1000%Z;
     gen_random_uuid := "new-id";
     gen_random_token := "new-token";
     auth_user := getUser_data (Some "admin-1");
     db_admin := true;
     service_role_key := Some "service-key";
     http_post_raises := fun _ => false;
     send_email_fails := false;
     select_fault := None;
     single_fault := fun _ => None;
     audit_transport := fun _ => no_fault;
     update_fault := fun _ => None;
     insert_fault := None;
     confirm_fault := None |}.

Definition block (day : Date) (from to : option Time) (why : option string)
  : BlockedDate.t :=
  {| BlockedDate.id := "block-1";
     BlockedDate.fecha := day;
     BlockedDate.motivo := why;
     BlockedDate.created_at := 1000%Z;
     BlockedDate.created_by := Some "admin-1";
     BlockedDate.start_time := from;
     BlockedDate.end_time := to;
     BlockedDate.group_id := None |}.

(** An approved reservation 09:00-10:00 carrying an earlier admin note. *)
Definition approved_0900 : Reservation.t :=
  booking "r1" "Ana" "2025-08-10" t0900 t1000 Status.approved
    (Some "nota previa").

(** The backend when nobody is signed in: the anonymous session of a
    visitor. *)
Definition env_signed_out : Env :=
  {| now := now env;
     db_now := db_now env;
     gen_random_uuid := gen_random_uuid env;
     gen_random_token := gen_random_token env;
     auth_user := getUser_data None;
     db_admin := false;
     service_role_key := service_role_key env;
     http_post_raises := http_post_raises env;
     send_email_fails := send_email_fails env;
     select_fault := select_fault env;
     single_fault := single_fault env;
     audit_transport := audit_transport env;
     update_fault := update_fault env;
     insert_fault := insert_fault env;
     confirm_fault := confirm_fault env |}.

(** An administrator's session in which [getUser] answers without a user
    (the auth server cannot be reached); the requests to the tables still
    carry the administrator's token. *)
Definition env_getUser_down : Env :=
  {| now := now env;
     db_now := db_now env;
     gen_random_uuid := gen_random_uuid env;
     gen_random_token := gen_random_token env;
     auth_user := getUser_data None;
     db_admin := true;
     service_role_key := service_role_key env;
     http_post_raises := http_post_raises env;
     send_email_fails := send_email_fails env;
     select_fault := select_fault env;
     single_fault := single_fault env;
     audit_transport := audit_transport env;
     update_fault := update_fault env;
     insert_fault := insert_fault env;
     confirm_fault := confirm_fault env |}.

(** An approved reservation last modified by the administrator admin-0. *)
Definition touched_0900 : Reservation.t :=
  {| Reservation.id := "r1";
     Reservation.responsable := "Ana";
     Reservation.email := "user@fiuna.edu.py";
     Reservation.motivo := "asado";
     Reservation.fecha := "2025-08-10";
     Reservation.inicio := t0900;
     Reservation.fin := t1000;
     Reservation.personas := 8%Z;
     Reservation.created_at := 0%Z;
     Reservation.approved := true;
     Reservation.admin_notes := None;
     Reservation.affiliation := None;
     Reservation.status := Status.approved;
     Reservation.updated_at := 500%Z;
     Reservation.updated_by := Some "admin-0";
     Reservation.confirmed := true;
     Reservation.confirmation_token := Some "token-r1";
     Reservation.token_expires_at := Some 86400000%Z |}.


(** An ad-hoc placeholder stored as a reservation owned by "Admin". *)
Definition admin_placeholder : Reservation.t :=
  booking "p1" "Admin" "2025-08-10" t0900 t1000 Status.pending None.

(** The block of the scenario "admin block cascades". *)
Definition maintenance : BlockedDate.t :=
  block "2025-08-10" (Some t0800) (Some t1200) (Some "maintenance").

(** A rejected request for 10:00-11:00 on 2025-06-01. *)
Definition rejected_1000 : Reservation.t :=
  booking "r1" "Ana" "2025-06-01" t1000 t1100 Status.rejected None.

(** A pending, unconfirmed request for 10:00-11:00 on 2025-06-01. *)
Definition pending_1000 : Reservation.t :=
  booking "r1" "Ana" "2025-06-01" t1000 t1100 Status.pending None.

(** A second submission, for 10:30-11:30 on the same day. *)
Definition second_submission : Hooks.NewReservation :=
  {| Hooks.responsable := "Beto";
     Hooks.email := "beto@fiuna.edu.py";
     Hooks.motivo := "cumple";
     Hooks.fecha := {| Hooks.getFullYear := 2025; Hooks.getMonth := 5;
                       Hooks.getDate := 1 |};
     Hooks.inicio := "10:30";
     Hooks.fin := "11:30";
     Hooks.personas := 10%Z;
     Hooks.affiliation := None |}.

(** A login during which the profiles query never answers. *)
Definition stalled_login : Auth.AuthEnv :=
  {| Auth.setSession := Auth.never;
     Auth.profiles_query := Auth.never;
     Auth.getUser := Auth.fulfils 10%Z (Some "admin@fiuna.edu.py");
     Auth.profiles_insert := Auth.fulfils 10%Z None |}.

End Examples.

(* ------------------------------------------------------------------------- *)
(** ** Text predicates used to state what [sanitizeInput] returns *)

Module Text.

(** [subseq t s]: [t] is [s] with some characters deleted. *)
Inductive subseq : string -> string -> Prop :=
| subseq_nil : subseq "" ""
| subseq_drop c t s : subseq t s -> subseq t (String c s)
| subseq_keep c t s : subseq t s -> subseq (String c t) (String c s).

Fixpoint all_chars (p : ascii -> bool) (s : string) : bool :=
  match s with
  | EmptyString => true
  | String c s' => p c && all_chars p s'
  end.

Definition first_char (s : string) : option ascii :=
  match s with
  | EmptyString => None
  | String c _ => Some c
  end.

Fixpoint last_char (s : string) : option ascii :=
  match s with
  | EmptyString => None
  | String c s' =>
      match last_char s' with
      | None => Some c
      | Some l => Some l
      end
  end.

(** The character, when there is one, is not white space. *)
Definition not_space (c : option ascii) : bool :=
  match c with
  | Some a => negb (Lib.is_space a)
  | None => true
  end.

End Text.

(* ------------------------------------------------------------------------- *)
(** ** Client library (lib/supabase): [createReservation], [unblockTimeSlot] *)

Module Booking.

(** The fields [createReservation] reads from its argument. The times and
    the head count may come under either of two names. *)
Record ReservationInput := {
  responsable : string;
  email : string;
  motivo : string;
  fecha : string;
  inicio : option string;
  horaInicio : option string;
  fin : option string;
  horaFin : option string;
  personas : option Z;
  cantidadPersonas : option Z
}.

Definition sanitize_opt (v : option string) : option string :=
  match v with
  | Some s => Some (Lib.sanitizeInput (Some s))
  | None => None
  end.

(** [sanitizeReservation]: every string-valued entry goes through
    [sanitizeInput], the others are copied. *)
Definition sanitizeReservation (r : ReservationInput) : ReservationInput :=
  {| responsable := Lib.sanitizeInput (Some (responsable r));
     email := Lib.sanitizeInput (Some (email r));
     motivo := Lib.sanitizeInput (Some (motivo r));
     fecha := Lib.sanitizeInput (Some (fecha r));
     inicio := sanitize_opt (inicio r);
     horaInicio := sanitize_opt (horaInicio r);
     fin := sanitize_opt (fin r);
     horaFin := sanitize_opt (horaFin r);
     personas := personas r;
     cantidadPersonas := cantidadPersonas r |}.

(** [a || b] on possibly undefined numbers: zero is falsy. *)
Definition or_num (a b : option Z) : option Z :=
  match a with
  | Some n => if (n =? 0)%Z then b else a
  | None => b
  end.

(** The [some] callback of [checkAvailability] when the times handed in
    may be undefined. *)
Definition hasOverlap (startTime endTime : option string)
    (reservation : Reservation.t) : bool :=
  let reservationStart :=
    Js.or (Some (Rest.time_out (Reservation.inicio reservation))) None in
  let reservationEnd :=
    Js.or (Some (Rest.time_out (Reservation.fin reservation))) None in
  (Js.ge startTime reservationStart && Js.lt startTime reservationEnd)
  || (Js.gt endTime reservationStart && Js.le endTime reservationEnd)
  || (Js.le startTime reservationStart && Js.ge endTime reservationEnd).

(** [checkAvailability(date, startTime, endTime)] as [createReservation]
    calls it: no [excludeId]. *)
Definition checkAvailability (env : Env) (date : string)
    (startTime endTime : option string) (w : World) : bool :=
  match select_fault env with
  | Some _ => false
  | None =>
      negb (existsb (hasOverlap startTime endTime)
              (Lib.select_not_cancelled date (reservations w)))
  end.

Definition not_null_violation : string := "23502".

Definition unparsable (t : option string) : bool :=
  match t with
  | Some s => match Rest.time_in s with
              | Some _ => false
              | None => true
              end
  | None => false
  end.

Definition parsed (t : option string) : option Time :=
  match t with
  | Some s => Rest.time_in s
  | None => None
  end.

(** The row of the insert as the database stores it: the columns the
    client does not send ([status], [confirmed], [confirmation_token],
    [token_expires_at], ...) take their defaults. *)
Definition stored_row (env : Env) (s : ReservationInput)
  : Js.PostgrestError + Reservation.t :=
  let i := Js.or (inicio s) (horaInicio s) in
  let f := Js.or (fin s) (horaFin s) in
  if unparsable i || unparsable f then
    inl (Pg.pg_error Pg.invalid_datetime_format
           "invalid input syntax for type time")
  else
    match parsed i, parsed f, or_num (personas s) (cantidadPersonas s) with
    | Some ti, Some tf, Some p =>
        inr {| Reservation.id := gen_random_uuid env;
               Reservation.responsable := responsable s;
               Reservation.email := email s;
               Reservation.motivo := motivo s;
               Reservation.fecha := fecha s;
               Reservation.inicio := ti;
               Reservation.fin := tf;
               Reservation.personas := p;
               Reservation.created_at := now env;
               Reservation.approved := true;
               Reservation.admin_notes := None;
               Reservation.affiliation := None;
               Reservation.status := Status.pending;
               Reservation.updated_at := db_now env;
               Reservation.updated_by := None;
               Reservation.confirmed := false;
               Reservation.confirmation_token := Some (gen_random_token env);
               Reservation.token_expires_at := None |}
    | _, _, _ =>
        inl (Pg.pg_error not_null_violation
               "null value in column violates not-null constraint")
    end.

(** [.from('reservations').insert([row]).select()] *)
Definition insert_stored (env : Env) (row : Js.PostgrestError + Reservation.t)
    (w : World) : (Js.PostgrestError + Reservation.t) * World :=
  match row with
  | inr r => Lib.insert_row env (Some r) w
  | inl e =>
      match insert_fault env with
      | Some e' => (inl e', count_insert_request w)
      | None => (inl e, count_insert_request w)
      end
  end.

(** The renaming of e-mail types inside [sendEmail]. *)
Definition mappedType (t : string) : string :=
  if t =? "confirmation" then "confirm-reservation"
  else if t =? "cancellation" then "reservation-cancelled"
  else t.

Definition unavailable : string := "El horario seleccionado no está disponible.".

Definition createReservation (env : Env) (reservation : ReservationInput)
    (w : World) : Js.Completion Reservation.t * World :=
  let sanitizedReservation := sanitizeReservation reservation in
  let isAvailable :=
    checkAvailability env (fecha sanitizedReservation)
      (Js.or (inicio sanitizedReservation) (horaInicio sanitizedReservation))
      (Js.or (fin sanitizedReservation) (horaFin sanitizedReservation)) w in
  if negb isAvailable then (Js.Throw (Js.Error unavailable), w)
  else
    match insert_stored env (stored_row env sanitizedReservation) w with
    | (inl error, w1) => (Js.Throw (Js.Rejected error), w1)
    | (inr data0, w1) =>
        let w2 :=
          Lib.sendEmail env
            {| email_type := mappedType "confirmation";
               recipient := email sanitizedReservation;
               about := Reservation.id data0;
               email_reason := None |} w1 in
        let w3 :=
          Lib.sendEmail env
            {| email_type := mappedType "new-reservation";
               recipient := "admin@system.com";
               about := Reservation.id data0;
               email_reason := None |} w2 in
        (Js.Return data0, w3)
    end.

Definition unblockTimeSlot (env : Env) (blockId : Uuid) (w : World)
  : Js.Completion bool * World :=
  Lib.deleteReservation env blockId (Some "Time slot unblocked by admin") w.

End Booking.

(* ------------------------------------------------------------------------- *)
(** ** Admin dashboard ([AdminDashboard]): approving and rejecting *)

Module Admin.
Import Reservation.

(** [.update({ status: 'approved' })] *)
Definition approve_row (r : Reservation.t) : Reservation.t :=
  {| id := id r; responsable := responsable r; email := email r;
     motivo := motivo r; fecha := fecha r; inicio := inicio r;
     fin := fin r; personas := personas r; created_at := created_at r;
     approved := approved r; admin_notes := admin_notes r;
     affiliation := affiliation r;
     status := Status.approved;
     updated_at := updated_at r; updated_by := updated_by r;
     confirmed := confirmed r;
     confirmation_token := confirmation_token r;
     token_expires_at := token_expires_at r |}.

(** [.update({ status: 'rejected', admin_notes: adminNotes || null,
               updated_by: adminId })] *)
Definition reject_row (adminNotes : option string) (adminId : option Uuid)
    (r : Reservation.t) : Reservation.t :=
  {| id := id r; responsable := responsable r; email := email r;
     motivo := motivo r; fecha := fecha r; inicio := inicio r;
     fin := fin r; personas := personas r; created_at := created_at r;
     approved := approved r;
     admin_notes := (if Js.truthy_opt adminNotes then adminNotes else None);
     affiliation := affiliation r;
     status := Status.rejected;
     updated_at := updated_at r;
     updated_by := adminId;
     confirmed := confirmed r;
     confirmation_token := confirmation_token r;
     token_expires_at := token_expires_at r |}.

(** [.update(...).eq('id', id)], under the UPDATE policy. *)
Definition update_by_id (env : Env) (i : Uuid)
    (f : Reservation.t -> Reservation.t) (tbl : Pg.table)
  : Js.PostgrestError + Pg.table :=
  match update_fault env i with
  | Some e => inl e
  | None => Rls.update_reservations env (fun r => id r =? i) f tbl
  end.

Definition approve_failed : Toast := toast_error "Error al aprobar la reserva".
Definition approve_done : Toast := toast_success "Reserva aprobada exitosamente".
Definition reject_failed : Toast := toast_error "Error al rechazar la reserva".
Definition reject_done : Toast := toast_success "Reserva rechazada exitosamente".

Definition handleApproveReservation (env : Env) (i : Uuid) (w : World)
  : World :=
  match Lib.single env i (reservations w) with
  | inl fetchError => with_toast approve_failed w
  | inr reservation =>
      match update_by_id env i approve_row (reservations w) with
      | inl error => with_toast approve_failed w
      | inr tbl =>
          with_toast approve_done
            (Lib.sendEmail env
               {| email_type := "reservation-approved";
                  recipient := email reservation;
                  about := id reservation;
                  email_reason := None |}
               (with_reservations tbl w))
      end
  end.

Definition handleRejectReservation (env : Env) (i : Uuid)
    (adminNotes : option string) (w : World) : World :=
  match Lib.single env i (reservations w) with
  | inl fetchError => with_toast reject_failed w
  | inr reservation =>
      let adminId := Lib.current_admin env in
      match update_by_id env i (reject_row adminNotes adminId)
              (reservations w) with
      | inl error => with_toast reject_failed w
      | inr tbl =>
          with_toast reject_done
            (Lib.sendEmail env
               {| email_type := "reservation-rejected";
                  recipient := email reservation;
                  about := id reservation;
                  email_reason :=
                    Some (if Js.truthy_opt adminNotes
                          then match adminNotes with
                               | Some n => n
                               | None => ""
                               end
                          else "No se proporcionó un motivo específico") |}
               (with_reservations tbl w))
      end
  end.

End Admin.

(* ------------------------------------------------------------------------- *)
(** ** What [blockTimeSlot] selects and cancels *)

Module Slot.
Import Reservation.

(** The filter of the first query of [blockTimeSlot]:
    [not status = cancelled], [fecha = date],
    [inicio >= startTime OR fin <= endTime]. *)
Definition queried (date : string) (s e : Time) (r : Reservation.t) : bool :=
  negb (Status.eqb (status r) Status.cancelled)
  && (fecha r =? date)
  && ((s <=? inicio r)%Z || (fin r <=? e)%Z).

(** [reservation.responsable !== 'Admin'] *)
Definition not_admin (r : Reservation.t) : bool :=
  negb (responsable r =? "Admin").

(** The rows the loop of [blockTimeSlot] cancels. *)
Definition cancelled_by_block (date : string) (s e : Time)
    (r : Reservation.t) : bool :=
  queried date s e r && not_admin r.

Definition cancellationReason (reason : string) : string :=
  "La reserva fue cancelada porque el administrador bloqueó este horario: "
  ++ reason.

End Slot.

(* ------------------------------------------------------------------------- *)
(** ** The e-mail of the cascade *)

Module Notice.

(** The body handed to [http_post] for one cancelled reservation. *)
Definition cancelled_mail (NEW : BlockedDate.t) (a : Reservation.t) : Email :=
  {| email_type := "reservation-cancelled";
     recipient := Reservation.email a;
     about := Reservation.id a;
     email_reason := Some (Trigger.cancel_reason NEW) |}.

End Notice.

(* ------------------------------------------------------------------------- *)
(** ** Calendar helpers ([useDateTimeUtils]) *)

Module Calendar.

(** A blocked date as the calendar holds it: the date parsed into a [Date]
    object, the times as the texts read from the table. *)
Record BlockedDate := {
  fecha : Hooks.JsDate;
  start_time : option string;
  end_time : option string
}.

Definition isSameDay (date1 date2 : Hooks.JsDate) : bool :=
  (Hooks.getFullYear date1 =? Hooks.getFullYear date2)%nat
  && (Hooks.getMonth date1 =? Hooks.getMonth date2)%nat
  && (Hooks.getDate date1 =? Hooks.getDate date2)%nat.

Definition isDateWithinBlockedPeriod (date : Hooks.JsDate)
    (blockedDates : list BlockedDate) : bool :=
  existsb (fun blockedDate => isSameDay date (fecha blockedDate)) blockedDates.

Definition isTimeSlotWithinBlockedPeriod (date : Hooks.JsDate)
    (startTime endTime : string) (blockedDates : list BlockedDate) : bool :=
  existsb (fun blockedDate =>
    if negb (isSameDay date (fecha blockedDate)) then false
    else
      match start_time blockedDate, end_time blockedDate with
      | Some s, Some e =>
          if Js.truthy s && Js.truthy e
          then Hooks.doTimeRangesOverlap startTime endTime s e
          else true
      | _, _ => true
      end) blockedDates.

(** The entry [fetchBlockedDates] builds from one row of [blocked_dates],
    [dateObj] being the [Date] built from the row's [fecha]. *)
Definition formatted (item : BlockedDate.t) (dateObj : Hooks.JsDate)
  : BlockedDate :=
  {| fecha := dateObj;
     start_time := option_map Rest.time_out (BlockedDate.start_time item);
     end_time := option_map Rest.time_out (BlockedDate.end_time item) |}.

End Calendar.

(* ------------------------------------------------------------------------- *)
(** ** Hard deletes: the foreign key of [cancellations], the trigger
       function [delete_overlapping_reservations] and the cleanup function *)

Module Store.
Import Reservation.

(** [DELETE FROM reservations WHERE p]: the audit rows of a deleted
    reservation go with it ([reservation_id ... ON DELETE CASCADE]). *)
Definition cascade_delete (p : Reservation.t -> bool) (w : World) : World :=
  {| reservations := Pg.delete_reservations p (reservations w);
     cancellations :=
       filter (fun c =>
                 negb (existsb (fun r => id r =? Cancellation.reservation_id c)
                         (filter p (reservations w))))
              (cancellations w);
     blocked_dates := blocked_dates w; outbox := outbox w;
     toasts := toasts w; insert_requests := insert_requests w |}.

(** Every audit row points to a stored reservation. *)
Definition references_ok (w : World) : Prop :=
  forall c, In c (cancellations w) ->
    exists r, In r (reservations w) /\ id r = Cancellation.reservation_id c.

End Store.

Module Legacy.
Import Reservation.

(** The WHERE clause of [delete_overlapping_reservations]. *)
Definition overlapping (NEW : BlockedDate.t) (r : Reservation.t) : bool :=
  (fecha r =? BlockedDate.fecha NEW)
  && match BlockedDate.start_time NEW, BlockedDate.end_time NEW with
     | Some s, Some e => (inicio r <? e)%Z && (s <? fin r)%Z
     | None, None => true
     | _, _ => false
     end.

Definition delete_overlapping_reservations (NEW : BlockedDate.t) (w : World)
  : World :=
  Store.cascade_delete (overlapping NEW) w.

End Legacy.

Module Sweep.
Import Reservation.

Record SweepEnv := {
  SUPABASE_URL : option string;
  SUPABASE_SERVICE_ROLE_KEY : option string;
  Date_now : Timestamptz;
  delete_fault : option Js.PostgrestError
}.

Record Response := { body : string; status : Z }.

(** [Date.now() - 24 * 60 * 60 * 1000] *)
Definition cutoff (e : SweepEnv) : Timestamptz :=
  (Date_now e - 24 * 60 * 60 * 1000)%Z.

(** [.match({ confirmed: false }).lt('created_at', cutoff)] *)
Definition stale (e : SweepEnv) (r : Reservation.t) : bool :=
  negb (confirmed r) && (created_at r <? cutoff e)%Z.

Definition cleanup (e : SweepEnv) (w : World) : Response * World :=
  if negb (Js.truthy_opt (SUPABASE_URL e))
     || negb (Js.truthy_opt (SUPABASE_SERVICE_ROLE_KEY e))
  then ({| body := "Missing SUPABASE_URL or SUPABASE_SERVICE_ROLE_KEY env vars";
           status := 500 |}, w)
  else
    match delete_fault e with
    | Some error =>
        ({| body := "Cleanup failed: " ++ Js.message error; status := 500 |}, w)
    | None =>
        ({| body := "Cleanup successful"; status := 200 |},
         Store.cascade_delete (stale e) w)
    end.

End Sweep.

(* ------------------------------------------------------------------------- *)
(** ** Form submission ([useReservationSubmit]) *)

Module Submit.

(** [data.fecha]: [undefined], a [Date] object holding no valid time
    ("Invalid Date"), or a date. *)
Inductive DateField :=
| undefined
| invalid_date
| valid_date (d : Hooks.JsDate).

Record ReservationSubmitData := {
  responsable : string;
  email : string;
  motivo : string;
  fecha : DateField;
  inicio : string;
  fin : string;
  personas : Z;
  affiliation : string
}.

Definition incomplete : Toast :=
  toast_error "Por favor, complete todos los campos requeridos correctamente.".
Definition no_date : Toast :=
  toast_error "Por favor, seleccione una fecha válida.".
Definition problem : Toast :=
  toast_error "Hubo un problema al crear la reserva. Por favor, inténtelo de nuevo.".
Definition processing_error : Toast :=
  toast_error "Error al procesar la reserva. Por favor, inténtelo de nuevo.".
Definition check_mail (email : string) : Toast :=
  toast_success
    ("¡Revisa tu correo para confirmar la reserva! " ++ Trigger.newline
     ++ "          Hemos enviado un enlace de confirmación a " ++ email ++ ".").

(** [submitReservation(data, validateForm)]. An invalid [Date] is truthy
    and passes the test on [data.fecha]; formatting it throws, which the
    [catch] block answers before [addReservation] is called. *)
Definition submitReservation (env : Env) (data : ReservationSubmitData)
    (validateForm : bool) (w : World) : bool * World :=
  if negb validateForm then (false, with_toast incomplete w)
  else
    match fecha data with
    | undefined => (false, with_toast no_date w)
    | invalid_date => (false, with_toast processing_error w)
    | valid_date d =>
        match Hooks.addReservation env
                {| Hooks.responsable := responsable data;
                   Hooks.email := email data;
                   Hooks.motivo := motivo data;
                   Hooks.fecha := d;
                   Hooks.inicio := inicio data;
                   Hooks.fin := fin data;
                   Hooks.personas := personas data;
                   Hooks.affiliation := Some (affiliation data) |} w with
        | (Some result, w1) => (true, with_toast (check_mail (email data)) w1)
        | (None, w1) => (false, with_toast problem w1)
        end
    end.

End Submit.

(* ------------------------------------------------------------------------- *)
(** ** [useReservationMutations]: [deleteReservation], [updateReservation] *)

Module Mutations.

Definition cancel_done : Toast := toast_success "Reserva cancelada exitosamente".
Definition cancel_failed : Toast := toast_error "Error al cancelar la reserva".
Definition update_done : Toast := toast_success "Reserva actualizada exitosamente".
Definition update_failed : Toast := toast_error "Error al actualizar la reserva".

(** The hook around the library call; the refresh that follows only
    reads, and its failure is ignored. *)
Definition deleteReservation (env : Env) (i : Uuid) (reason : option string)
    (w : World) : World :=
  match Lib.deleteReservation env i reason w with
  | (Js.Return _, w1) => with_toast cancel_done w1
  | (Js.Throw _, w1) => with_toast cancel_failed w1
  end.

(** [Partial<Omit<Reservation, 'id' | 'createdAt'>>]: the columns an
    update may carry. *)
Record Patch := {
  responsable : option string;
  email : option string;
  motivo : option string;
  fecha : option Hooks.JsDate;
  inicio : option string;
  fin : option string;
  personas : option Z;
  status : option Status.t;
  admin_notes : option string;
  affiliation : option string;
  approved : option bool
}.

Definition or_else {A} (o : option A) (d : A) : A :=
  match o with
  | Some x => x
  | None => d
  end.

Definition or_keep {A} (o : option A) (d : option A) : option A :=
  match o with
  | Some x => Some x
  | None => d
  end.

(** [updateObject] applied to a row; [i] and [f] are the parsed times. *)
Definition patched (p : Patch) (i f : option Time) (r : Reservation.t)
  : Reservation.t :=
  {| Reservation.id := Reservation.id r;
     Reservation.responsable := or_else (responsable p) (Reservation.responsable r);
     Reservation.email := or_else (email p) (Reservation.email r);
     Reservation.motivo := or_else (motivo p) (Reservation.motivo r);
     Reservation.fecha :=
       match fecha p with
       | Some d => Hooks.formattedDate d
       | None => Reservation.fecha r
       end;
     Reservation.inicio := or_else i (Reservation.inicio r);
     Reservation.fin := or_else f (Reservation.fin r);
     Reservation.personas := or_else (personas p) (Reservation.personas r);
     Reservation.created_at := Reservation.created_at r;
     Reservation.approved := or_else (approved p) (Reservation.approved r);
     Reservation.admin_notes := or_keep (admin_notes p) (Reservation.admin_notes r);
     Reservation.affiliation := or_keep (affiliation p) (Reservation.affiliation r);
     Reservation.status := or_else (status p) (Reservation.status r);
     Reservation.updated_at := Reservation.updated_at r;
     Reservation.updated_by := Reservation.updated_by r;
     Reservation.confirmed := Reservation.confirmed r;
     Reservation.confirmation_token := Reservation.confirmation_token r;
     Reservation.token_expires_at := Reservation.token_expires_at r |}.

Definition updateReservation (env : Env) (i : Uuid) (updatedData : Patch)
    (w : World) : World :=
  if Booking.unparsable (inicio updatedData)
     || Booking.unparsable (fin updatedData)
  then with_toast update_failed w
  else
    match Admin.update_by_id env i
            (patched updatedData (Booking.parsed (inicio updatedData))
               (Booking.parsed (fin updatedData)))
            (reservations w) with
    | inl error => with_toast update_failed w
    | inr tbl => with_toast update_done (with_reservations tbl w)
    end.

End Mutations.

(* ------------------------------------------------------------------------- *)
(** ** Sign-in ([context/auth/utils], [handleUserSignIn]) *)

Module SignIn.

Record User := { email : string; isAdmin : bool }.

(** [localStorage.getItem('user')]: absent, not parsable as JSON, or a
    stored user. *)
Inductive LocalStorage :=
| absent
| corrupt
| holds (u : User).

(** The fields read from the session; [user_metadata_is_admin] is [None]
    when the metadata has no [is_admin], otherwise the truthiness of the
    value found. *)
Record Session := {
  user_id : string;
  user_email : option string;
  user_metadata_is_admin : option bool
}.

(** [None] is a promise that never settles. *)
Definition handleUserSignIn (env : Auth.AuthEnv) (storage : LocalStorage)
    (session : option Session) : option (option User) :=
  match session with
  | None => Some None
  | Some s =>
      let userEmail :=
        match user_email s with
        | Some e => e
        | None => ""
        end in
      let fresh :=
        match user_metadata_is_admin s with
        | Some flag => Some (Some {| email := userEmail; isAdmin := flag |})
        | None =>
            match Auth.fetchUserProfile env (user_id s) None with
            | Some isAdmin =>
                Some (Some {| email := userEmail; isAdmin := isAdmin |})
            | None => None
            end
        end in
      match storage with
      | corrupt => Some None
      | holds storedUser =>
          if email storedUser =? userEmail then Some (Some storedUser)
          else fresh
      | absent => fresh
      end
  end.

End SignIn.

(* ------------------------------------------------------------------------- *)
(** ** The [send-email] edge function *)

Module Mailer.

(** One call of the Resend API: answered with a 2xx status (the body
    being JSON or not), answered with another status, or failing with a
    network error. *)
Inductive Attempt :=
| accepted (json_body : bool)
| refused
| unreachable.

Record MailEnv := {
  request_parses : bool;
  template : string -> option string;
  resend : nat -> Attempt
}.

(** The [switch] on the type: an unlisted type leaves the name empty. *)
Definition templateName (type : string) : string :=
  if type =? "confirm-reservation" then "confirm-reservation"
  else if type =? "reservation-approved" then "reservation-approved"
  else if type =? "reservation-cancelled" then "reservation-cancelled"
  else if type =? "reservation-rejected" then "reservation-rejected"
  else if type =? "reservation-reminder" then "reservation-reminder"
  else "".

Definition maxRetries : nat := 3.

Definition is_accepted (a : Attempt) : bool :=
  match a with
  | accepted _ => true
  | _ => false
  end.

Record Run := {
  status : Z;
  attempts : nat;
  waited : list Z
}.

(** [Math.pow(2, attempt) * 300] *)
Definition backoffMs (attempt : nat) : Z := (2 ^ Z.of_nat attempt * 300)%Z.

(** The [while (attempt < maxRetries)] loop and the response built after
    it; [fuel] is [maxRetries - attempt]. *)
Fixpoint retry (env : MailEnv) (fuel attempt : nat) (waited : list Z) : Run :=
  match fuel with
  | O => {| status := 500; attempts := attempt; waited := waited |}
  | S fuel' =>
      let attempt := S attempt in
      match resend env attempt with
      | accepted json_body =>
          {| status := if json_body then 200 else 500;
             attempts := attempt; waited := waited |}
      | _ =>
          if (attempt <? maxRetries)%nat
          then retry env fuel' attempt (waited ++ [backoffMs attempt])%list
          else {| status := 500; attempts := attempt; waited := waited |}
      end
  end.

Definition serve (env : MailEnv) (method type : string) : Run :=
  if method =? "OPTIONS" then {| status := 200; attempts := 0; waited := [] |}
  else if negb (request_parses env) then
    {| status := 500; attempts := 0; waited := [] |}
  else
    match template env (templateName type) with
    | None => {| status := 500; attempts := 0; waited := [] |}
    | Some _ => retry env maxRetries 0 []
    end.

End Mailer.

(* ------------------------------------------------------------------------- *)
(** ** The logger ([utils/logger]) *)

Module Logger.

Inductive LogLevel := debug | info | warn | error.

Definition LOG_LEVEL (PROD : bool) : LogLevel := if PROD then error else warn.

Definition LOG_LEVELS (level : LogLevel) : nat :=
  match level with
  | debug => 0
  | info => 1
  | warn => 2
  | error => 3
  end.

Definition shouldLog (PROD : bool) (level : LogLevel) : bool :=
  (LOG_LEVELS (LOG_LEVEL PROD) <=? LOG_LEVELS level)%nat.

(** Whether [logger.<level>(...)] writes to the console. *)
Definition writes (PROD : bool) (level : LogLevel) : bool :=
  match level with
  | debug => shouldLog PROD debug && negb PROD
  | info => shouldLog PROD info && negb PROD
  | warn => shouldLog PROD warn
  | error => shouldLog PROD error
  end.

End Logger.

(* ------------------------------------------------------------------------- *)
(** ** Profiles: the table and the trigger function [handle_new_user] *)

Module Profiles.

Record Row := {
  id : Uuid;
  full_name : option string;
  is_admin : bool;
  created_at : Timestamptz
}.

Definition table := list Row.

(** The columns of the new [auth.users] row the function reads. *)
Record NewUser := {
  new_id : Uuid;
  raw_full_name : option string
}.

Definition set_admin (r : Row) : Row :=
  {| id := id r; full_name := full_name r; is_admin := true;
     created_at := created_at r |}.

(** [INSERT INTO profiles (id, full_name, is_admin)
     VALUES (new.id, COALESCE(new.raw_user_meta_data->>'full_name',
             'Admin User'), true)
     ON CONFLICT (id) DO UPDATE SET is_admin = true] *)
Definition handle_new_user (now : Timestamptz) (new : NewUser) (tbl : table)
  : table :=
  if existsb (fun r => id r =? new_id new) tbl
  then map (fun r => if id r =? new_id new then set_admin r else r) tbl
  else (tbl ++ [{| id := new_id new;
                   full_name := Some (match raw_full_name new with
                                      | Some n => n
                                      | None => "Admin User"
                                      end);
                   is_admin := true;
                   created_at := now |}])%list.

(** [.from('profiles').select('is_admin').eq('id', userId).maybeSingle()] *)
Definition select_is_admin (tbl : table) (userId : Uuid) : Auth.Response :=
  match filter (fun r => id r =? userId) tbl with
  | [] => {| Auth.data := None; Auth.error := None |}
  | [r] => {| Auth.data := Some {| Auth.is_admin := is_admin r |};
              Auth.error := None |}
  | _ => {| Auth.data := None;
            Auth.error := Some (Pg.pg_error "PGRST116"
              "JSON object requested, multiple (or no) rows returned") |}
  end.

End Profiles.

(* ------------------------------------------------------------------------- *)
(** ** Administrator login (lib/supabase, [loginAdmin]) *)

Module Login.

(** What [signInWithPassword] resolves to. *)
Record SignInResult := {
  user : option Uuid;
  session : option string;
  error : bool
}.

(** What [.single()] on the admins table resolves to. *)
Inductive Single :=
| single_error
| single_row
| single_null.

(** A row of the admins table as read back. *)
Record AdminRow := { user_id : option Uuid }.

(** What [rpc('is_admin', ...)] resolves to: an error, or the truthiness
    of the data. *)
Inductive Rpc :=
| rpc_error
| rpc_data (truthy : bool).

(** The backend as [loginAdmin] sees it; the first argument of
    [signInWithPassword] tells the first call from the retry. *)
Record LoginEnv := {
  signInWithPassword : nat -> string -> string -> SignInResult;
  admins_single_by_email : string -> Single;
  signUp : string -> string -> option string;
  rpc_is_admin : Uuid -> Rpc;
  admins_by_user_id : Uuid -> option AdminRow;
  admins_by_email : string -> option AdminRow
}.

Inductive Session :=
| supabase_session (s : option string)
| default_admin_token
| manual_admin_token.

Inductive LoggedUser :=
| auth_user (id : option Uuid)
| email_only (email : string).

Record Login := {
  logged_user : LoggedUser;
  logged_session : Session
}.

(** The result and the upserts sent to [admins] on the way. *)
Definition Outcome := (Js.Completion Login * list (string * Uuid))%type.

Definition known_admin (email : string) : bool :=
  (email =? "test@email.com") || (email =? "david.gimenezs@fiuna.edu.py").

Definition through (r : SignInResult) (writes : list (string * Uuid))
  : Outcome :=
  (Js.Return {| logged_user := auth_user (user r);
                logged_session := supabase_session (session r) |}, writes).

(** [emailCheck && (!emailCheck.user_id || emailCheck.user_id !== id)] *)
Definition needs_link (emailCheck : option AdminRow) (id : Uuid) : bool :=
  match emailCheck with
  | Some row =>
      match user_id row with
      | Some u => negb (Js.truthy u) || negb (u =? id)
      | None => true
      end
  | None => false
  end.

Definition is_some {A} (o : option A) : bool :=
  match o with
  | Some _ => true
  | None => false
  end.

Definition loginAdmin (env : LoginEnv) (email password : string) : Outcome :=
  if negb (Js.truthy email) || negb (Js.truthy password) then
    (Js.Throw (Js.Error "Email and password are required"), [])
  else
    let authData := signInWithPassword env 1 email password in
    if error authData then
      match admins_single_by_email env email with
      | single_error =>
          if (email =? "test@email.com") && (password =? "test123")
          then (Js.Return {| logged_user := email_only email;
                             logged_session := default_admin_token |}, [])
          else (Js.Throw (Js.Error "Invalid credentials"), [])
      | single_row =>
          let refused :=
            match signUp env email password with
            | Some message => negb (message =? "User already registered")
            | None => false
            end in
          if refused then
            (Js.Throw (Js.Error "Error creating admin account"), [])
          else
            let retryAuthData := signInWithPassword env 2 email password in
            if error retryAuthData then
              (Js.Return {| logged_user := email_only email;
                            logged_session := manual_admin_token |}, [])
            else
              through retryAuthData
                match user retryAuthData with
                | Some id => [(email, id)]
                | None => []
                end
      | single_null => (Js.Throw (Js.Error "Invalid credentials"), [])
      end
    else
      match user authData with
      | None => (Js.Throw (Js.Error "Unable to authenticate"), [])
      | Some id =>
          match rpc_is_admin env id with
          | rpc_error =>
              let adminCheck := admins_by_user_id env id in
              let emailCheck := admins_by_email env email in
              if is_some adminCheck || is_some emailCheck then
                through authData
                  (if needs_link emailCheck id then [(email, id)] else [])
              else if known_admin email then through authData [(email, id)]
              else (Js.Throw (Js.Error "Unauthorized"), [])
          | rpc_data false =>
              if known_admin email then through authData [(email, id)]
              else (Js.Throw (Js.Error "Unauthorized"), [])
          | rpc_data true => through authData []
          end
      end.

End Login.

(* ------------------------------------------------------------------------- *)
(** ** Further sample data *)

Module Samples.

(** A request for 10:00-11:00 on 2025-06-01 made through the library;
    the name carries a quote. *)
Definition walk_in : Booking.ReservationInput :=
  {| Booking.responsable := "Sean O'Neil";
     Booking.email := "sean@fiuna.edu.py";
     Booking.motivo := "parrillada";
     Booking.fecha := "2025-06-01";
     Booking.inicio := Some "10:00";
     Booking.horaInicio := None;
     Booking.fin := Some "11:00";
     Booking.horaFin := None;
     Booking.personas := Some 12%Z;
     Booking.cantidadPersonas := None |}.

End Samples.


(* ========================================================================= *)
(** * Verification *)


(** ** The exclusion constraint keeps active reservations disjoint *)

Section NoOverlap.
Import Reservation Pg.
Local Open Scope Z_scope.
Local Open Scope list_scope.

Lemma string_compare_refl (s : string) : String.compare s s = Eq.
Proof.
  pose proof (String.compare_antisym s s) as H.
  destruct (String.compare s s); simpl in H; congruence.
Qed.

Lemma ts_lt_same_date (d : Date) (a b : Time) :
  ts_lt (d, a) (d, b) = (a <? b).
Proof. unfold ts_lt; simpl. rewrite string_compare_refl. reflexivity. Qed.

(** On rows of one date the range operator is the usual test on
    half-open intervals. *)
Lemma excl_conflict_spec (a b : Reservation.t) :
  excl_conflict a b = true <->
  fecha a = fecha b /\ inicio a < fin a /\ inicio b < fin b
  /\ intervals_overlap a b.
Proof.
  unfold excl_conflict, range_overlaps, range_nonempty,
    reservation_time_range, intervals_overlap; simpl.
  split.
  - intros H. apply andb_true_iff in H as [Hd H].
    apply String.eqb_eq in Hd. rewrite <- Hd in H.
    rewrite !ts_lt_same_date in H.
    repeat (apply andb_true_iff in H as [H ?]).
    repeat match goal with
           | X : (_ <? _) = true |- _ => apply Z.ltb_lt in X
           end.
    auto.
  - intros (Hd & Ha & Hb & Hab & Hba).
    rewrite <- Hd, !ts_lt_same_date, String.eqb_refl.
    repeat (apply andb_true_iff; split); try reflexivity;
      apply Z.ltb_lt; assumption.
Qed.

Lemma existsb_false_In {A} (f : A -> bool) (l : list A) (x : A) :
  existsb f l = false -> In x l -> f x = false.
Proof.
  intros H Hin. destruct (f x) eqn:E; [|reflexivity].
  assert (existsb f l = true) by (apply existsb_exists; eauto).
  congruence.
Qed.

Lemma check_row_None (r : Reservation.t) (others : table) :
  check_row r others = None <-> admissible r others.
Proof.
  unfold check_row. split.
  - intros H.
    destruct (0 <? personas r) eqn:Hp; simpl in H; [|discriminate].
    destruct (inicio r <? fin r) eqn:Ht; simpl in H; [|discriminate].
    destruct (existsb (fun o => id o =? id r)%string others) eqn:Hk;
      [discriminate|].
    destruct (active r && existsb (fun o => active o && excl_conflict r o) others)
      eqn:Hx; [discriminate|].
    constructor.
    + split; [apply Z.ltb_lt|apply Z.ltb_lt]; assumption.
    + intros Hin. apply in_map_iff in Hin as (o & Hid & Ho).
      pose proof (existsb_false_In _ _ _ Hk Ho) as Hf. simpl in Hf.
      apply String.eqb_neq in Hf. congruence.
    + intros o Ho Har Hao. rewrite Har in Hx. simpl in Hx.
      pose proof (existsb_false_In _ _ _ Hx Ho) as Hf. simpl in Hf.
      rewrite Hao in Hf. exact Hf.
  - intros [[Ht Hp] Hfresh Hexcl].
    apply Z.ltb_lt in Ht. apply Z.ltb_lt in Hp. rewrite Ht, Hp. simpl.
    destruct (existsb (fun o => id o =? id r)%string others) eqn:Hk.
    { apply existsb_exists in Hk as (o & Ho & Hid).
      apply String.eqb_eq in Hid. exfalso. apply Hfresh.
      rewrite <- Hid. apply in_map. assumption. }
    destruct (active r) eqn:Har; simpl; [|reflexivity].
    destruct (existsb (fun o => active o && excl_conflict r o) others) eqn:Hx;
      [|reflexivity].
    apply existsb_exists in Hx as (o & Ho & Hc).
    apply andb_true_iff in Hc as [Hao Hc].
    rewrite (Hexcl o Ho eq_refl Hao) in Hc. discriminate.
Qed.

Lemma intervals_overlap_sym (a b : Reservation.t) :
  intervals_overlap a b -> intervals_overlap b a.
Proof. unfold intervals_overlap. tauto. Qed.

Lemma valid_perm (l l' : table) : Permutation l l' -> valid l -> valid l'.
Proof.
  intros HP (Hk & Hc & Ho). repeat split.
  - unfold pk_unique in *.
    eapply Permutation_NoDup; [apply Permutation_map; exact HP|exact Hk].
  - eapply Permutation_Forall; eassumption.
  - intros a b Ha Hb. apply Ho; eapply Permutation_in;
      try (apply Permutation_sym; exact HP); assumption.
Qed.

Lemma valid_tail (r : Reservation.t) (l : table) : valid (r :: l) -> valid l.
Proof.
  intros (Hk & Hc & Ho). repeat split.
  - unfold pk_unique in *. simpl in Hk. inversion Hk; assumption.
  - inversion Hc; assumption.
  - intros a b Ha Hb. apply Ho; right; assumption.
Qed.

Lemma valid_cons (r : Reservation.t) (l : table) :
  valid l -> admissible r l -> valid (r :: l).
Proof.
  intros (Hk & Hc & Ho) [Hchk Hfresh Hexcl]. repeat split.
  - unfold pk_unique in *. simpl. constructor; assumption.
  - constructor; assumption.
  - intros a b [Ha|Ha] [Hb|Hb] Hne Haa Hab Hd Hov; subst.
    + congruence.
    + pose proof (Hexcl b Hb Haa Hab) as Hf.
      assert (excl_conflict a b = true) as Ht.
      { apply excl_conflict_spec. repeat split; try apply Hov; try assumption.
        - apply Hchk.
        - rewrite Forall_forall in Hc. apply (Hc b Hb). }
      congruence.
    + pose proof (Hexcl a Ha Hab Haa) as Hf.
      assert (excl_conflict b a = true) as Ht.
      { apply excl_conflict_spec. repeat split; try apply Hov; auto.
        - apply Hchk.
        - rewrite Forall_forall in Hc. apply (Hc a Ha). }
      congruence.
    + exact (Ho a b Ha Hb Hne Haa Hab Hd Hov).
Qed.

Lemma valid_remove (l1 l2 : table) (r : Reservation.t) :
  valid (l1 ++ r :: l2) -> valid (l1 ++ l2).
Proof.
  intros H. apply (valid_tail r).
  eapply valid_perm; [|exact H].
  apply Permutation_sym, Permutation_middle.
Qed.

Lemma valid_put (l1 l2 : table) (r : Reservation.t) :
  valid (l1 ++ l2) -> admissible r (l1 ++ l2) -> valid (l1 ++ r :: l2).
Proof.
  intros H Ha. eapply valid_perm; [apply Permutation_middle|].
  apply valid_cons; assumption.
Qed.

Lemma insert_reservation_valid (r : Reservation.t) (tbl tbl' : table) :
  valid tbl -> insert_reservation r tbl = inr tbl' -> valid tbl'.
Proof.
  unfold insert_reservation. intros Hv H.
  destruct (check_row r tbl) eqn:Hc; [discriminate|].
  inversion H; subst. apply check_row_None in Hc.
  rewrite <- (app_nil_r tbl) in Hv, Hc.
  apply valid_put; assumption.
Qed.

Lemma update_rows_valid now p f (todo done tbl' : table) :
  valid (done ++ todo) ->
  update_rows now p f done todo = inr tbl' -> valid tbl'.
Proof.
  revert done. induction todo as [|r rest IH]; intros done Hv H; simpl in H.
  - inversion H; subst. rewrite app_nil_r in Hv. exact Hv.
  - destruct (p r).
    + destruct (check_row (set_updated_at now (f r)) (done ++ rest)) eqn:Hc;
        [discriminate|].
      apply IH in H; [exact H|]. rewrite <- app_assoc. simpl.
      apply valid_put; [eapply valid_remove; exact Hv|].
      apply check_row_None. exact Hc.
    + apply IH in H; [exact H|]. rewrite <- app_assoc. exact Hv.
Qed.

Lemma update_reservations_valid now p f (tbl tbl' : table) :
  valid tbl -> update_reservations now p f tbl = inr tbl' -> valid tbl'.
Proof. intros Hv H. eapply update_rows_valid; [|exact H]. exact Hv. Qed.

Lemma delete_reservations_valid p (tbl : table) :
  valid tbl -> valid (delete_reservations p tbl).
Proof.
  unfold delete_reservations.
  induction tbl as [|r rest IH]; intros Hv; simpl; [exact Hv|].
  pose proof (IH (valid_tail _ _ Hv)) as Hrest.
  destruct (negb (p r)); [|exact Hrest].
  destruct Hv as (Hk & Hc & Ho). repeat split.
  - unfold pk_unique in *. simpl in *. inversion Hk; subst.
    constructor; [|apply Hrest].
    intros Hin. apply in_map_iff in Hin as (o & Hid & Hin).
    apply filter_In in Hin as [Hin _].
    match goal with X : ~ In _ _ |- _ => apply X end.
    rewrite <- Hid. apply in_map. exact Hin.
  - inversion Hc; subst. constructor; [assumption|apply Hrest].
  - intros a b Ha Hb. apply Ho.
    + destruct Ha as [Ha|Ha]; [left; exact Ha|right].
      apply filter_In in Ha. apply Ha.
    + destruct Hb as [Hb|Hb]; [left; exact Hb|right].
      apply filter_In in Hb. apply Hb.
Qed.

Lemma valid_nil : valid [].
Proof.
  repeat split.
  - constructor.
  - constructor.
  - intros a b [].
Qed.

Lemma step_valid (tbl tbl' : table) : valid tbl -> step tbl tbl' -> valid tbl'.
Proof.
  intros Hv Hs. destruct Hs.
  - eapply insert_reservation_valid; eassumption.
  - eapply update_reservations_valid; eassumption.
  - apply delete_reservations_valid; assumption.
Qed.

Lemma reachable_valid (tbl : table) : reachable tbl -> valid tbl.
Proof.
  induction 1 as [|tbl tbl' _ IH Hs]; [apply valid_nil|].
  eapply step_valid; eassumption.
Qed.

Lemma conflicting_insert_rejected (tbl : table) (r o : Reservation.t) :
  valid tbl -> In o tbl -> active r = true -> active o = true ->
  fecha r = fecha o -> intervals_overlap r o ->
  admissible r tbl -> False.
Proof.
  intros (_ & Hc & _) Ho Har Hao Hd Hov [Hchk _ Hexcl].
  pose proof (Hexcl o Ho Har Hao) as Hf.
  assert (excl_conflict r o = true) as Ht.
  { apply excl_conflict_spec. repeat split; try apply Hov; auto.
    - apply Hchk.
    - rewrite Forall_forall in Hc. apply (Hc o Ho). }
  congruence.
Qed.

(** A well-formed active row overlapping an active row of its date is
    refused with the exclusion violation. *)
Lemma exclusion_violation_raised (tbl : table) (r o : Reservation.t) :
  valid tbl -> In o tbl -> active r = true -> active o = true ->
  fecha r = fecha o -> intervals_overlap r o ->
  checks_ok r -> ~ In (id r) (map id tbl) ->
  exists e, insert_reservation r tbl = inl e
            /\ Js.code e = exclusion_violation.
Proof.
  intros Hv Ho Har Hao Hd Hov [Ht Hp] Hfresh.
  unfold insert_reservation, check_row.
  apply Z.ltb_lt in Ht. apply Z.ltb_lt in Hp. rewrite Ht, Hp. simpl.
  destruct (existsb (fun o0 => id o0 =? id r)%string tbl) eqn:Hk.
  { apply existsb_exists in Hk as (x & Hx & Hid).
    apply String.eqb_eq in Hid. exfalso. apply Hfresh.
    rewrite <- Hid. apply in_map. assumption. }
  rewrite Har. simpl.
  assert (existsb (fun o0 => active o0 && excl_conflict r o0) tbl = true)
    as Hex.
  { apply existsb_exists. exists o. split; [assumption|].
    rewrite Hao. simpl. apply excl_conflict_spec.
    destruct Hv as (_ & Hc & _). rewrite Forall_forall in Hc.
    repeat split; try apply Hov; auto.
    - apply Z.ltb_lt; assumption.
    - apply (Hc o Ho). }
  rewrite Hex. eexists. split; reflexivity.
Qed.

(** Rows the WHERE clause does not match are copied. *)
Lemma update_rows_skip now p f (l1 rest : table) :
  forall done,
  (forall x, In x l1 -> p x = false) ->
  update_rows now p f done (l1 ++ rest)
  = update_rows now p f (done ++ l1) rest.
Proof.
  induction l1 as [|a l1 IH]; intros done Hp; simpl.
  - rewrite app_nil_r. reflexivity.
  - rewrite (Hp a (or_introl eq_refl)).
    rewrite IH; [|intros x Hx; apply Hp; right; exact Hx].
    rewrite <- app_assoc. reflexivity.
Qed.

(** An UPDATE fails as soon as the new version of one matching row cannot
    be written next to a row the statement leaves alone. *)
Lemma update_rows_refused now p f (todo : table) :
  forall done r o,
  In r todo -> p r = true -> In o (done ++ todo) -> p o = false ->
  (forall others, In o others ->
     check_row (set_updated_at now (f r)) others <> None) ->
  exists e, update_rows now p f done todo = inl e.
Proof.
  induction todo as [|a rest IH]; intros done r o Hr Hp Ho Hpo Hbad;
    [destruct Hr|].
  assert (Ho' : a <> o -> In o (done ++ rest)).
  { intros Hne. apply in_app_or in Ho. apply in_or_app.
    destruct Ho as [Ho|[Ho|Ho]]; [left; exact Ho|contradiction|right; exact Ho]. }
  simpl. destruct (p a) eqn:Hpa.
  - assert (Hao : a <> o) by (intros E; subst a; congruence).
    destruct (check_row (set_updated_at now (f a)) (done ++ rest)) as [e|] eqn:Hc.
    + exists e. reflexivity.
    + destruct Hr as [Hr|Hr].
      * subst a. exfalso.
        apply (Hbad (done ++ rest)); [apply Ho'; exact Hao|exact Hc].
      * apply (IH _ r o Hr Hp); [|exact Hpo|exact Hbad].
        rewrite <- app_assoc. apply in_or_app.
        destruct (in_app_or _ _ _ (Ho' Hao)) as [H|H];
          [left; exact H|right; right; exact H].
  - destruct Hr as [Hr|Hr]; [subst a; congruence|].
    apply (IH _ r o Hr Hp); [|exact Hpo|exact Hbad].
    rewrite <- app_assoc. exact Ho.
Qed.

Lemma colliding_version_refused now f (r o : Reservation.t) :
  checks_ok o -> active (f r) = true -> active o = true ->
  fecha (f r) = fecha o -> intervals_overlap (f r) o ->
  forall others, In o others ->
    check_row (set_updated_at now (f r)) others <> None.
Proof.
  intros Hck Har Hao Hd Hov others Hin Hc.
  apply check_row_None in Hc. destruct Hc as [Hchk _ Hexcl].
  specialize (Hexcl o Hin Har Hao).
  assert (excl_conflict (set_updated_at now (f r)) o = true) as Ht.
  { apply excl_conflict_spec. repeat split; try apply Hov; auto.
    - apply Hchk.
    - apply Hck. }
  congruence.
Qed.

(** An update by key whose new version is well formed and collides with
    another active row is refused with the exclusion violation. *)
Lemma update_by_id_collision now f (tbl : table) (r o : Reservation.t) :
  valid tbl -> In r tbl -> In o tbl -> id o <> id r ->
  active (f r) = true -> active o = true ->
  fecha (f r) = fecha o -> intervals_overlap (f r) o ->
  checks_ok (f r) -> id (f r) = id r ->
  exists e,
    update_reservations now (fun x => (id x =? id r)%string) f tbl = inl e
    /\ Js.code e = exclusion_violation.
Proof.
  intros Hv Hr Ho Hne Har Hao Hd Hov Hck Hid.
  destruct (in_split r tbl Hr) as [l1 [l2 Htbl]]. subst tbl.
  assert (Hpk := proj1 Hv). unfold pk_unique in Hpk.
  rewrite map_app in Hpk. simpl in Hpk.
  assert (Hnot : ~ In (id r) (map id (l1 ++ l2))).
  { rewrite map_app. apply NoDup_remove_2 in Hpk. exact Hpk. }
  assert (Hl1 : forall x, In x l1 -> (id x =? id r)%string = false).
  { intros x Hx. apply String.eqb_neq. intros E. apply Hnot.
    rewrite <- E. apply in_map. apply in_or_app. left. exact Hx. }
  unfold update_reservations.
  rewrite (update_rows_skip now _ f l1 (r :: l2) [] Hl1).
  simpl. rewrite String.eqb_refl.
  set (r' := set_updated_at now (f r)).
  assert (Ho' : In o (l1 ++ l2)).
  { apply in_app_or in Ho. apply in_or_app.
    destruct Ho as [Ho|[Ho|Ho]]; [left; exact Ho| |right; exact Ho].
    subst o. exfalso. apply Hne. reflexivity. }
  destruct (exclusion_violation_raised (l1 ++ l2) r' o) as [e [He Hcode]].
  - apply (valid_remove l1 l2 r). exact Hv.
  - exact Ho'.
  - exact Har.
  - exact Hao.
  - exact Hd.
  - exact Hov.
  - exact Hck.
  - simpl. rewrite Hid. exact Hnot.
  - exists e. split; [|exact Hcode].
    unfold insert_reservation in He.
    destruct (check_row r' (l1 ++ l2)) as [e'|] eqn:Hc; [|discriminate].
    injection He as He. subst e'. reflexivity.
Qed.

(** C1. In every state of the reservations table reachable through
    INSERT, UPDATE and DELETE statements, two distinct rows of one date
    whose status is neither cancelled nor rejected have disjoint
    [inicio, fin) intervals. An insert of an active row overlapping an
    active row of its date is refused, with SQLSTATE 23P01 when the row
    is otherwise well formed. An update is refused as well when the new
    version of a row it matches is active and overlaps an active row of
    its date that the update leaves alone, with SQLSTATE 23P01 when the
    update selects the row by its key and the new version is otherwise
    well formed. Every committed statement (updates included) leads to a
    table with the same property. *)
Theorem reservations_no_overlap_excl_holds (tbl : table) :
  reachable tbl ->
  no_overlap tbl
  /\ (forall r o, In o tbl -> active r = true -> active o = true ->
        fecha r = fecha o -> intervals_overlap r o ->
        (exists e, insert_reservation r tbl = inl e)
        /\ (checks_ok r -> ~ In (id r) (map id tbl) ->
            exists e, insert_reservation r tbl = inl e
                      /\ Js.code e = exclusion_violation))
  /\ (forall now p f r o, In r tbl -> In o tbl ->
        p r = true -> p o = false ->
        active (f r) = true -> active o = true ->
        fecha (f r) = fecha o -> intervals_overlap (f r) o ->
        exists e, update_reservations now p f tbl = inl e)
  /\ (forall now f r o, In r tbl -> In o tbl -> id o <> id r ->
        active (f r) = true -> active o = true ->
        fecha (f r) = fecha o -> intervals_overlap (f r) o ->
        checks_ok (f r) -> id (f r) = id r ->
        exists e,
          update_reservations now (fun x => (id x =? id r)%string) f tbl
          = inl e
          /\ Js.code e = exclusion_violation)
  /\ (forall tbl', step tbl tbl' -> no_overlap tbl').
Proof.
  intros Hr. pose proof (reachable_valid tbl Hr) as Hv.
  split; [apply Hv|]. split; [|split; [|split]].
  - intros r o Ho Har Hao Hd Hov. split.
    + unfold insert_reservation.
      destruct (check_row r tbl) eqn:Hc; [eexists; reflexivity|].
      exfalso. apply check_row_None in Hc.
      exact (conflicting_insert_rejected tbl r o Hv Ho Har Hao Hd Hov Hc).
    + intros Hchk Hfresh.
      exact (exclusion_violation_raised tbl r o Hv Ho Har Hao Hd Hov Hchk Hfresh).
  - intros now p f r o Hin Ho Hp Hpo Har Hao Hd Hov.
    unfold update_reservations.
    apply (update_rows_refused now p f tbl [] r o Hin Hp Ho Hpo).
    apply colliding_version_refused; try assumption.
    destruct Hv as (_ & Hc & _). rewrite Forall_forall in Hc. apply (Hc o Ho).
  - intros now f r o Hin Ho Hne Har Hao Hd Hov Hck Hid.
    exact (update_by_id_collision now f tbl r o Hv Hin Ho Hne Har Hao Hd Hov
             Hck Hid).
  - intros tbl' Hs. apply (step_valid tbl tbl' Hv Hs).
Qed.

(** The invariant on a table built by three inserts: two active bookings
    that touch at 11:00 and a cancelled one in the slot of the first. A
    new booking for the slot of the first is refused, and so is the
    approval that would revive the cancelled one. *)
Lemma reservations_no_overlap_excl_witness :
  let r1 := Examples.booking "r1" "Ana" "2025-06-01" Examples.t1000
              Examples.t1100 Status.pending None in
  let r2 := Examples.booking "r2" "Beto" "2025-06-01" Examples.t1100
              Examples.t1200 Status.approved None in
  let r3 := Examples.booking "r3" "Caro" "2025-06-01" Examples.t1000
              Examples.t1100 Status.cancelled None in
  let n := Examples.booking "r4" "Dani" "2025-06-01" Examples.t1000
             Examples.t1100 Status.pending None in
  let tbl := [r1; r2; r3] in
  reachable tbl /\ no_overlap tbl
  /\ (exists e, insert_reservation n tbl = inl e
                /\ Js.code e = exclusion_violation)
  /\ (exists e,
        update_reservations 2000 (fun x => (id x =? "r3")%string)
          Admin.approve_row tbl = inl e
        /\ Js.code e = exclusion_violation).
Proof.
  intros r1 r2 r3 n tbl.
  assert (reachable tbl) as Hr.
  { apply (reach_step [r1; r2] tbl).
    - apply (reach_step [r1] [r1; r2]).
      + apply (reach_step [] [r1]); [apply reach_empty|].
        apply (step_insert r1). reflexivity.
      + apply (step_insert r2). reflexivity.
    - apply (step_insert r3). reflexivity. }
  split; [exact Hr|].
  destruct (reservations_no_overlap_excl_holds tbl Hr)
    as [Hno [Hins [_ [Hupd _]]]].
  split; [exact Hno|]. split.
  - apply (proj2 (Hins n r1 (or_introl eq_refl) eq_refl eq_refl eq_refl
                    ltac:(unfold intervals_overlap; simpl;
                          unfold Examples.t1000, Examples.t1100; lia))).
    + unfold checks_ok. simpl. unfold Examples.t1000, Examples.t1100. lia.
    + simpl. intros [H|[H|[H|[]]]]; discriminate.
  - apply (Hupd 2000 Admin.approve_row r3 r1).
    + right. right. left. reflexivity.
    + left. reflexivity.
    + discriminate.
    + reflexivity.
    + reflexivity.
    + reflexivity.
    + unfold intervals_overlap. simpl.
      unfold Examples.t1000, Examples.t1100. lia.
    + unfold checks_ok. simpl. unfold Examples.t1000, Examples.t1100. lia.
    + reflexivity.
Defined.

End NoOverlap.

(** ** Updates that leave the slot of a row alone always go through *)

Section SlotPreservingUpdates.
Import Reservation Pg.
Local Open Scope Z_scope.
Local Open Scope list_scope.

Lemma keeps_slot_admissible f now (l1 l2 : table) (r : Reservation.t) :
  keeps_slot f -> valid (l1 ++ r :: l2) ->
  admissible (set_updated_at now (f r)) (l1 ++ l2).
Proof.
  intros Hf Hv. destruct (Hf r) as (Hid & Hd & Hi & He & Hp & Hact).
  assert (valid (r :: l1 ++ l2)) as Hv'.
  { eapply valid_perm; [|exact Hv]. apply Permutation_sym, Permutation_middle. }
  destruct Hv' as (Hk & Hc & Ho).
  unfold pk_unique in Hk. simpl in Hk. inversion Hk; subst.
  inversion Hc; subst.
  constructor.
  - unfold checks_ok in *. simpl. rewrite Hi, He, Hp. assumption.
  - simpl. rewrite Hid. assumption.
  - intros o Hin Har Hao. simpl in Har.
    destruct (excl_conflict (set_updated_at now (f r)) o) eqn:E; [|reflexivity].
    exfalso. apply excl_conflict_spec in E. simpl in E.
    rewrite Hd, Hi, He in E. destruct E as (Hfd & _ & _ & Hov).
    unfold intervals_overlap in Hov. simpl in Hov. rewrite Hi, He in Hov.
    apply (Ho r o); simpl; auto.
    intros Heq.
    match goal with X : ~ In (id r) _ |- _ => apply X end.
    rewrite Heq. apply in_map. assumption.
Qed.

Lemma update_rows_keeps_slot f now p (todo done : table) :
  keeps_slot f -> valid (done ++ todo) ->
  update_rows now p f done todo = inr (done ++ map (rewritten now p f) todo).
Proof.
  intros Hf. revert done.
  induction todo as [|r rest IH]; intros done Hv; simpl.
  - rewrite app_nil_r. reflexivity.
  - unfold rewritten at 1. destruct (p r) eqn:Hp.
    + pose proof (keeps_slot_admissible f now done rest r Hf Hv) as Ha.
      pose proof Ha as Hc. apply check_row_None in Hc. rewrite Hc.
      rewrite IH.
      * rewrite <- app_assoc. reflexivity.
      * rewrite <- app_assoc. simpl. apply valid_put; [|exact Ha].
        eapply valid_remove; exact Hv.
    + rewrite IH.
      * rewrite <- app_assoc. reflexivity.
      * rewrite <- app_assoc. exact Hv.
Qed.

Lemma update_reservations_keeps_slot f now p (tbl : table) :
  keeps_slot f -> valid tbl ->
  update_reservations now p f tbl = inr (map (rewritten now p f) tbl).
Proof.
  intros Hf Hv. unfold update_reservations.
  rewrite (update_rows_keeps_slot f now p tbl [] Hf Hv). reflexivity.
Qed.

Lemma keeps_slot_cancel_row NEW now : keeps_slot (Trigger.cancel_row NEW now).
Proof. intros r. simpl. repeat split; auto. discriminate. Qed.

Lemma keeps_slot_soft_cancel adminId reason :
  keeps_slot (Lib.soft_cancel adminId reason).
Proof. intros r. simpl. repeat split; auto. discriminate. Qed.

Lemma keeps_slot_set_confirmed : keeps_slot Page.set_confirmed.
Proof. intros r. simpl. repeat split; auto. Qed.

(** Two rows of a table with a primary key and the same [id] are equal. *)
Lemma pk_unique_same_id (tbl : table) (a b : Reservation.t) :
  pk_unique tbl -> In a tbl -> In b tbl -> id a = id b -> a = b.
Proof.
  unfold pk_unique. induction tbl as [|x rest IH]; simpl; intros Hk Ha Hb Hid.
  - contradiction.
  - inversion Hk; subst.
    destruct Ha as [Ha|Ha], Hb as [Hb|Hb]; subst; auto.
    + exfalso. match goal with X : ~ In _ _ |- _ => apply X end.
      rewrite Hid. apply in_map. assumption.
    + exfalso. match goal with X : ~ In _ _ |- _ => apply X end.
      rewrite <- Hid. apply in_map. assumption.
Qed.

Lemma pk_unique_filter (q : Reservation.t -> bool) (tbl : table) :
  pk_unique tbl -> NoDup (map id (filter q tbl)).
Proof.
  unfold pk_unique. induction tbl as [|x rest IH]; simpl; intros Hk.
  - constructor.
  - inversion Hk; subst. destruct (q x); simpl; [|auto].
    constructor; [|auto].
    intros Hin. apply in_map_iff in Hin as (o & Hid & Hin).
    apply filter_In in Hin as [Hin _].
    match goal with X : ~ In _ _ |- _ => apply X end.
    rewrite <- Hid. apply in_map. assumption.
Qed.

Lemma filter_none {A} (q : A -> bool) (l : list A) :
  (forall y, In y l -> q y = false) -> filter q l = [].
Proof.
  induction l as [|x rest IH]; simpl; intros H; [reflexivity|].
  rewrite (H x (or_introl eq_refl)). apply IH. intros y Hy. apply H. auto.
Qed.

(** Selecting by [id] in a table with a primary key. *)
Lemma filter_by_id (tbl : table) (r : Reservation.t) :
  pk_unique tbl -> In r tbl ->
  filter (fun x => (id x =? id r)%string) tbl = [r].
Proof.
  unfold pk_unique. induction tbl as [|x rest IH]; simpl; intros Hk Hin.
  - contradiction.
  - inversion Hk; subst. destruct Hin as [Hx|Hin].
    + subst. rewrite String.eqb_refl. f_equal.
      apply filter_none. intros y Hy.
      apply String.eqb_neq. intros Heq.
      match goal with X : ~ In _ _ |- _ => apply X end.
      rewrite <- Heq. apply in_map. assumption.
    + destruct (id x =? id r)%string eqn:E.
      * apply String.eqb_eq in E. exfalso.
        match goal with X : ~ In _ _ |- _ => apply X end.
        rewrite E. apply in_map. assumption.
      * auto.
Qed.

End SlotPreservingUpdates.

(** ** The cascade of the [blocked_dates] trigger *)

Section Cascade.
Import Reservation Pg.
Local Open Scope Z_scope.
Local Open Scope list_scope.

Variable env : Env.
Variable NEW : BlockedDate.t.

Lemma notify_reservations a (w : World) :
  reservations (Trigger.notify env NEW a w) = reservations w
  /\ cancellations (Trigger.notify env NEW a w) = cancellations w
  /\ blocked_dates (Trigger.notify env NEW a w) = blocked_dates w.
Proof.
  unfold Trigger.notify.
  destruct (service_role_key env); [destruct (http_post_raises env (id a))|];
    simpl; auto.
Qed.

Lemma cancel_loop_spec (rows : list Reservation.t) :
  forall w, valid (reservations w) -> NoDup (map id rows) ->
  exists w', Trigger.cancel_loop env NEW rows w = inr w'
    /\ reservations w' =
         map (rewritten (db_now env) (Trigger.selected rows) (Trigger.cancel_row NEW (db_now env)))
             (reservations w)
    /\ cancellations w' = cancellations w
    /\ blocked_dates w' = blocked_dates w.
Proof.
  induction rows as [|a rest IH]; intros w Hv Hnd; simpl.
  - exists w. repeat split; auto.
    unfold rewritten, Trigger.selected. simpl. symmetry. apply map_id.
  - inversion Hnd as [|? ? Hfresh Hnd']; subst.
    rewrite (update_reservations_keeps_slot _ (db_now env) _ (reservations w)
               (keeps_slot_cancel_row NEW (db_now env)) Hv).
    set (tbl1 := map (rewritten (db_now env) (fun r => (id r =? id a)%string)
                        (Trigger.cancel_row NEW (db_now env))) (reservations w)).
    set (w1 := Trigger.notify env NEW a (with_reservations tbl1 w)).
    destruct (notify_reservations a (with_reservations tbl1 w))
      as (Hr1 & Hc1 & Hb1). fold w1 in Hr1, Hc1, Hb1. simpl in Hr1, Hc1, Hb1.
    assert (valid (reservations w1)) as Hv1.
    { rewrite Hr1. unfold tbl1.
      eapply update_reservations_valid; [exact Hv|].
      apply update_reservations_keeps_slot;
        [apply keeps_slot_cancel_row|exact Hv]. }
    destruct (IH w1 Hv1 Hnd') as (w' & Hrun & Hres & Hcan & Hblk).
    exists w'. split; [exact Hrun|]. split; [|split; congruence].
    rewrite Hres, Hr1. unfold tbl1. rewrite map_map.
    apply map_ext. intros r. unfold rewritten, Trigger.selected. simpl.
    destruct (id r =? id a)%string eqn:E; simpl.
    + replace (existsb (fun a0 => (id r =? id a0)%string) rest) with false;
        [reflexivity|].
      symmetry. apply not_true_is_false. intros Hex.
      apply existsb_exists in Hex as (x & Hx & Hid).
      apply String.eqb_eq in E. apply String.eqb_eq in Hid.
      apply Hfresh. rewrite <- E, Hid. apply in_map. assumption.
    + reflexivity.
Qed.

Lemma selected_filter (q : Reservation.t -> bool) (tbl : table) (r : Reservation.t) :
  pk_unique tbl -> In r tbl -> Trigger.selected (filter q tbl) r = q r.
Proof.
  intros Hk Hin. unfold Trigger.selected. destruct (q r) eqn:Hq.
  - apply existsb_exists. exists r. split.
    + apply filter_In. auto.
    + apply String.eqb_refl.
  - apply not_true_is_false. intros Hex.
    apply existsb_exists in Hex as (x & Hx & Hid).
    apply filter_In in Hx as [Hx Hqx]. apply String.eqb_eq in Hid.
    rewrite (pk_unique_same_id tbl r x Hk Hin Hx Hid) in Hq. congruence.
Qed.

(** The trigger function in closed form: on a table satisfying the schema
    it cannot fail, it rewrites exactly the selected rows, and it writes
    nothing to [cancellations]. *)
Lemma cancel_reservations_in_blocked_range_spec (w : World) :
  valid (reservations w) ->
  exists w', Trigger.cancel_reservations_in_blocked_range env NEW w = inr w'
    /\ reservations w' =
         map (rewritten (db_now env) (Trigger.affected NEW)
                (Trigger.cancel_row NEW (db_now env))) (reservations w)
    /\ cancellations w' = cancellations w
    /\ blocked_dates w' = blocked_dates w.
Proof.
  intros Hv. unfold Trigger.cancel_reservations_in_blocked_range.
  destruct (cancel_loop_spec (filter (Trigger.affected NEW) (reservations w)) w Hv)
    as (w' & Hrun & Hres & Hcan & Hblk).
  { apply pk_unique_filter. apply Hv. }
  exists w'. split; [exact Hrun|]. split; [|split; assumption].
  rewrite Hres. apply map_ext_in. intros r Hin. unfold rewritten.
  rewrite (selected_filter _ _ _ (proj1 Hv) Hin). reflexivity.
Qed.

End Cascade.

(** ** Soft cancellation *)

Section SoftCancel.
Import Reservation Pg.
Local Open Scope Z_scope.
Local Open Scope list_scope.

Lemma update_rows_ids now p f (todo done tbl' : table) :
  (forall r, id (f r) = id r) ->
  update_rows now p f done todo = inr tbl' ->
  map id tbl' = map id (done ++ todo).
Proof.
  intros Hf. revert done.
  induction todo as [|r rest IH]; intros done H; simpl in H.
  - inversion H. rewrite app_nil_r. reflexivity.
  - destruct (p r).
    + destruct (check_row _ _); [discriminate|].
      rewrite (IH _ H). rewrite <- app_assoc, !map_app. simpl.
      rewrite Hf. reflexivity.
    + rewrite (IH _ H). rewrite <- app_assoc. reflexivity.
Qed.


Lemma sendEmail_tables env m (w : World) :
  reservations (Lib.sendEmail env m w) = reservations w
  /\ cancellations (Lib.sendEmail env m w) = cancellations w.
Proof. unfold Lib.sendEmail. destruct (send_email_fails env); auto. Qed.

Lemma rls_update_admin env p f (tbl : table) :
  db_admin env = true ->
  Rls.update_reservations env p f tbl
  = update_reservations (db_now env) p f tbl.
Proof. intros H. unfold Rls.update_reservations. rewrite H. reflexivity. Qed.

Lemma rls_update_filtered env p f (tbl : table) :
  db_admin env = false -> Rls.update_reservations env p f tbl = inr tbl.
Proof. intros H. unfold Rls.update_reservations. rewrite H. reflexivity. Qed.

Lemma rls_update_ids env p f (tbl tbl' : table) :
  (forall r, id (f r) = id r) ->
  Rls.update_reservations env p f tbl = inr tbl' ->
  map id tbl' = map id tbl.
Proof.
  intros Hf. unfold Rls.update_reservations.
  destruct (db_admin env).
  - unfold update_reservations. intros H.
    apply (update_rows_ids _ _ _ _ _ _ Hf H).
  - intros H. injection H as H. subst tbl'. reflexivity.
Qed.


Lemma rls_update_valid env p f (tbl tbl' : table) :
  valid tbl -> Rls.update_reservations env p f tbl = inr tbl' -> valid tbl'.
Proof.
  unfold Rls.update_reservations. destruct (db_admin env).
  - apply update_reservations_valid.
  - intros Hv H. injection H as H. subst tbl'. exact Hv.
Qed.

(** [deleteReservation] never removes a row nor adds one, whatever
    happens on the way. *)
Lemma deleteReservation_ids env i reason (w : World) :
  map id (reservations (snd (Lib.deleteReservation env i reason w)))
  = map id (reservations w).
Proof.
  unfold Lib.deleteReservation.
  destruct (negb (Js.truthy i)); [reflexivity|].
  destruct (Lib.single env i (reservations w)); [reflexivity|].
  set (w1 := match audit_fault env i with
             | no_fault => _ | fault_error _ => _ | fault_throw _ => _ end).
  assert (reservations w1 = reservations w) as Hw1.
  { unfold w1. destruct (audit_fault env i); reflexivity. }
  destruct (update_fault env i); simpl; [congruence|].
  destruct (Rls.update_reservations env _ _ (reservations w1)) eqn:Hu; simpl.
  - congruence.
  - rewrite (proj1 (sendEmail_tables _ _ _)). simpl.
    rewrite (rls_update_ids env _
               (Lib.soft_cancel (Lib.current_admin env) reason)
               _ _ (fun r => eq_refl) Hu).
    congruence.
Qed.


(** [deleteReservation] on a stored reservation in an administrator's
    session, when the lookup and the update go through: whatever becomes
    of the audit insert. *)
Lemma deleteReservation_spec env (reason : option string) (w : World)
    (r : Reservation.t) :
  valid (reservations w) -> In r (reservations w) ->
  Js.truthy (id r) = true -> db_admin env = true ->
  single_fault env (id r) = None -> update_fault env (id r) = None ->
  let out := Lib.deleteReservation env (id r) reason w in
  fst out = Js.Return true
  /\ reservations (snd out) =
       map (rewritten (db_now env) (fun x => (id x =? id r)%string)
              (Lib.soft_cancel (Lib.current_admin env) reason))
           (reservations w)
  /\ cancellations (snd out) = Lib.audited env (id r) reason r w.
Proof.
  intros Hv Hin Hid Hadm Hs Hu. unfold Lib.deleteReservation, Lib.single.
  rewrite Hid, Hs. simpl negb. cbv iota.
  rewrite (filter_by_id _ _ (proj1 Hv) Hin). rewrite Hu.
  set (w1 := match audit_fault env (id r) with
             | no_fault => _ | fault_error _ => _ | fault_throw _ => _ end).
  assert (reservations w1 = reservations w) as Hw1.
  { unfold w1. destruct (audit_fault env (id r)); reflexivity. }
  assert (cancellations w1 = Lib.audited env (id r) reason r w) as Hc1.
  { unfold w1, Lib.audited. destruct (audit_fault env (id r)); reflexivity. }
  rewrite Hw1. rewrite (rls_update_admin env _ _ _ Hadm).
  rewrite (update_reservations_keeps_slot _ (db_now env) _ (reservations w)
             (keeps_slot_soft_cancel _ _) Hv).
  cbv zeta. simpl fst. simpl snd.
  destruct (sendEmail_tables env
    {| email_type := "reservation-cancelled"; recipient := email r;
       about := id r;
       email_reason := Some (if Js.truthy_opt reason
                             then Lib.sanitizeInput reason
                             else "No especificado"%string) |}
    (with_reservations
       (map (rewritten (db_now env) (fun x => (id x =? id r)%string)
               (Lib.soft_cancel (Lib.current_admin env) reason))
            (reservations w)) w1)) as [Hr Hc].
  rewrite Hr, Hc. simpl. auto.
Qed.

Lemma valid_singleton (r : Reservation.t) :
  checks_ok r -> valid [r].
Proof.
  intros Hc. rewrite <- (app_nil_l [r]).
  apply valid_put; [apply valid_nil|].
  constructor; [exact Hc|intros []|intros o []].
Qed.

Lemma approved_0900_valid : valid [Examples.approved_0900].
Proof. apply valid_singleton. split; reflexivity. Qed.

Lemma audit_fault_admin env (i : Uuid) :
  audit_fault env i = no_fault -> db_admin env = true.
Proof.
  unfold audit_fault, Rls.insert_cancellation.
  destruct (db_admin env); [reflexivity|discriminate].
Qed.

Lemma audit_fault_filtered env (i : Uuid) :
  db_admin env = false -> audit_fault env i <> no_fault.
Proof.
  intros H. unfold audit_fault, Rls.insert_cancellation. rewrite H.
  discriminate.
Qed.





End SoftCancel.

(** ** Cancelling twice *)

Section CancelTwice.
Import Reservation Pg.
Local Open Scope Z_scope.
Local Open Scope list_scope.

(** [deleteReservation] has no guard on the current status: called for a
    reservation that is already cancelled (lookup, audit insert and update
    going through, which takes an administrator's session) it returns
    true, leaves every row with that id cancelled, and appends one more row
    to [cancellations], whose previous status is cancelled. The two block
    cascades, on the other hand, never select a cancelled reservation. *)
Lemma deleteReservation_audits_again env (reason : option string)
    (w : World) (r : Reservation.t) :
  valid (reservations w) -> In r (reservations w) ->
  status r = Status.cancelled ->
  Js.truthy (id r) = true ->
  single_fault env (id r) = None -> update_fault env (id r) = None ->
  audit_fault env (id r) = no_fault ->
  let out := Lib.deleteReservation env (id r) reason w in
  fst out = Js.Return true
  /\ (exists c, cancellations (snd out) = cancellations w ++ [c]
                /\ Cancellation.reservation_id c = id r
                /\ Cancellation.previous_status c = Status.cancelled)
  /\ (forall x, In x (reservations (snd out)) -> id x = id r ->
                status x = Status.cancelled)
  /\ (forall NEW, Trigger.affected NEW r = false)
  /\ (forall date startTime endTime rows,
        Lib.select_in_slot env date startTime endTime (reservations w)
          = inr rows -> ~ In r rows).
Proof.
  intros Hv Hin Hst Hid Hs Hu Ha out.
  destruct (deleteReservation_spec env reason w r Hv Hin Hid
              (audit_fault_admin env _ Ha) Hs Hu)
    as (Hret & Hres & Hcan).
  fold out in Hret, Hres, Hcan.
  split; [exact Hret|]. split; [|split; [|split]].
  - rewrite Hcan. unfold Lib.audited. rewrite Ha.
    eexists. split; [reflexivity|]. simpl. auto.
  - intros x Hx Hxid. rewrite Hres in Hx.
    apply in_map_iff in Hx as (y & Hy & Hyin). subst x.
    unfold rewritten in *. destruct (id y =? id r)%string eqn:E.
    + reflexivity.
    + apply String.eqb_neq in E. contradiction.
  - intros NEW. unfold Trigger.affected. rewrite Hst.
    destruct (fecha r =? BlockedDate.fecha NEW)%string; reflexivity.
  - intros date s e rows Hsel Hrows. unfold Lib.select_in_slot in Hsel.
    destruct (select_fault env); [discriminate|].
    destruct (Rest.time_in s); [|discriminate].
    destruct (Rest.time_in e); [|discriminate].
    inversion Hsel; subst. apply filter_In in Hrows as [_ Hq].
    rewrite Hst in Hq. discriminate Hq.
Qed.

Lemma cancelled_0900_valid :
  valid [Examples.booking "r1" "Ana" "2025-08-10" Examples.t0900
           Examples.t1000 Status.cancelled (Some "Motivo: clima"%string)].
Proof. apply valid_singleton. split; reflexivity. Qed.

Lemma deleteReservation_audits_again_witness :
  let r := Examples.booking "r1" "Ana" "2025-08-10" Examples.t0900
             Examples.t1000 Status.cancelled (Some "Motivo: clima"%string) in
  let out := Lib.deleteReservation Examples.env "r1" (Some "otra vez"%string)
               (Examples.world [r]) in
  status r = Status.cancelled
  /\ fst out = Js.Return true
  /\ List.length (cancellations (snd out)) = 1%nat.
Proof.
  intros r out.
  pose proof (deleteReservation_audits_again Examples.env
                (Some "otra vez"%string) (Examples.world [r]) r
                cancelled_0900_valid (or_introl eq_refl)
                eq_refl eq_refl eq_refl eq_refl eq_refl) as H.
  cbv zeta in H. destruct H as (Hret & (c & Hc & _) & _).
  split; [reflexivity|]. split; [exact Hret|].
  change (cancellations (snd out))
    with (cancellations
            (snd (Lib.deleteReservation Examples.env (id r)
                    (Some "otra vez"%string) (Examples.world [r])))).
  rewrite Hc. reflexivity.
Defined.

(** C7. Cancelling is double-audited: an administrator who calls
    [deleteReservation] twice for the same reservation is answered true
    both times and leaves two audit rows, the second one recording
    cancelled as the previous status; the second call is neither a no-op
    nor rejected. *)
Theorem cancelling_twice_audits_twice :
  let w0 := Examples.world [Examples.approved_0900] in
  let w1 := snd (Lib.deleteReservation Examples.env "r1" (Some "clima"%string) w0) in
  let again := Lib.deleteReservation Examples.env "r1" (Some "clima"%string) w1 in
  db_admin Examples.env = true
  /\ map status (reservations w1) = [Status.cancelled]
  /\ map Cancellation.previous_status (cancellations w1) = [Status.approved]
  /\ fst again = Js.Return true
  /\ map Cancellation.reservation_id (cancellations (snd again))
     = ["r1"%string; "r1"%string]
  /\ map Cancellation.previous_status (cancellations (snd again))
     = [Status.approved; Status.cancelled].
Proof. repeat split. Qed.

End CancelTwice.

(** ** Blocking: the trigger and [blockTimeSlot] *)

Section Blocking.
Import Reservation Pg.
Local Open Scope Z_scope.
Local Open Scope list_scope.

(** On well-formed intervals the three-way test of the trigger is the
    overlap of half-open intervals. *)
Lemma affected_iff_overlap (NEW : BlockedDate.t) (r : Reservation.t) (s e : Time) :
  BlockedDate.start_time NEW = Some s -> BlockedDate.end_time NEW = Some e ->
  s < e -> inicio r < fin r ->
  (Trigger.affected NEW r = true <->
   fecha r = BlockedDate.fecha NEW /\ active r = true
   /\ inicio r < e /\ s < fin r).
Proof.
  intros Hs He Hse Hr. unfold Trigger.affected, active. rewrite Hs, He.
  rewrite !andb_true_iff, !orb_true_iff, !andb_true_iff, String.eqb_eq.
  rewrite !Z.leb_le, !Z.ltb_lt. intuition lia.
Qed.

(** The whole statement [INSERT INTO blocked_dates] in closed form. *)
Lemma insert_blocked_date_spec env (NEW : BlockedDate.t) (w w' : World) :
  valid (reservations w) ->
  Trigger.insert_blocked_date env NEW w = inr w' ->
  reservations w' =
    map (rewritten (db_now env) (Trigger.affected NEW)
           (Trigger.cancel_row NEW (db_now env))) (reservations w)
  /\ cancellations w' = cancellations w
  /\ blocked_dates w' = blocked_dates w ++ [NEW].
Proof.
  intros Hv. unfold Trigger.insert_blocked_date.
  destruct (negb (Trigger.blocked_dates_time_order_check NEW)); [discriminate|].
  destruct (existsb _ (blocked_dates w)); [discriminate|].
  destruct (cancel_reservations_in_blocked_range_spec env NEW
              (with_blocked_date NEW w) Hv) as (w2 & Hrun & Hres & Hcan & Hblk).
  rewrite Hrun. intros H. inversion H; subst. auto.
Qed.

(** C2 (the code at the scenario "admin block cascades"). An approved
    reservation 09:00-10:00 on 2025-08-10; the administrator blocks
    08:00-12:00 with reason "maintenance". The cascade cancels the
    reservation and appends the reason to its notes, and leaves the
    [cancellations] table empty: no audit row is written. *)
Theorem block_cascade_writes_no_audit_row :
  exists w',
    Trigger.insert_blocked_date Examples.env Examples.maintenance
      (Examples.world [Examples.approved_0900]) = inr w'
    /\ map status (reservations w') = [Status.cancelled]
    /\ map admin_notes (reservations w') =
         [Some ("nota previa" ++ Trigger.newline ++ Trigger.newline
                ++ "Fechas bloqueadas por administración: maintenance")%string]
    /\ cancellations w' = [].
Proof. eexists. split; [reflexivity|]. repeat split. Qed.


Lemma cancel_existing_ids env reason (rows : list Reservation.t) :
  forall w, map id (reservations (Lib.cancel_existing env reason rows w))
            = map id (reservations w).
Proof.
  induction rows as [|a rest IH]; intros w; simpl; [reflexivity|].
  rewrite IH. destruct (negb (responsable a =? "Admin")%string);
    [apply deleteReservation_ids|reflexivity].
Qed.




Lemma admin_placeholder_valid : valid [Examples.admin_placeholder].
Proof. apply valid_singleton. split; reflexivity. Qed.



(** C10. The placeholder row of [blockTimeSlot] has [personas = 0], which
    no table accepts: the insert is refused with a check violation
    (23514) of [reservations_personas_positive_check]. Hence every call of [blockTimeSlot] ends in a throw, and the
    reservations table holds exactly the rows it held before: no
    placeholder is ever created. *)
Theorem blockTimeSlot_always_throws env (date startTime endTime reason : string)
    (w : World) :
  (forall s e,
     personas (Lib.blockedReservation env date reason s e) = 0
     /\ forall tbl, exists err,
          insert_reservation (Lib.blockedReservation env date reason s e) tbl
            = inl err
          /\ Js.code err = check_violation
          /\ Js.includes (Js.message err)
               "reservations_personas_positive_check" = true)
  /\ (exists x,
        fst (Lib.blockTimeSlot env date startTime endTime reason w) = Js.Throw x)
  /\ map id (reservations (snd (Lib.blockTimeSlot env date startTime endTime
                                  reason w)))
     = map id (reservations w).
Proof.
  assert (forall s e tbl, exists err,
            insert_reservation (Lib.blockedReservation env date reason s e) tbl
              = inl err /\ Js.code err = check_violation
            /\ Js.includes (Js.message err)
                 "reservations_personas_positive_check" = true) as Hins.
  { intros s e tbl. eexists. repeat split. }
  split; [intros s e; split; [reflexivity|apply Hins]|].
  unfold Lib.blockTimeSlot.
  destruct (Lib.select_in_slot env date startTime endTime (reservations w))
    as [err|rows] eqn:Hsel.
  { split; [eexists; reflexivity|reflexivity]. }
  set (w1 := Lib.cancel_existing env _ rows w).
  assert (map id (reservations w1) = map id (reservations w)) as Hids
    by apply cancel_existing_ids.
  unfold Lib.insert_row.
  destruct (insert_fault env).
  { split; [eexists; reflexivity|exact Hids]. }
  destruct (Rest.time_in startTime) as [s|];
    [|split; [eexists; reflexivity|exact Hids]].
  destruct (Rest.time_in endTime) as [e|];
    [|split; [eexists; reflexivity|exact Hids]].
  destruct (Hins s e (reservations (count_insert_request w1))) as (err & He & _).
  rewrite He. split; [eexists; reflexivity|exact Hids].
Qed.

End Blocking.

(** ** The client-side availability check *)

Section Availability.
Import Reservation Pg.
Local Open Scope list_scope.

Lemma ltb_before (a b : string) : String.ltb a b = true <-> Js.before a b.
Proof.
  unfold String.ltb, Js.before.
  destruct (String.compare a b); split; congruence.
Qed.

Lemma leb_not_before (a b : string) : String.leb a b = true <-> ~ Js.before b a.
Proof.
  unfold String.leb, Js.before. rewrite (String.compare_antisym b a).
  destruct (String.compare a b); simpl; split; congruence.
Qed.

Lemma before_trans (a b c : string) :
  Js.before a b -> Js.before b c -> Js.before a c.
Proof.
  unfold Js.before. intros H1 H2.
  apply String_as_OT.cmp_lt. apply String_as_OT.cmp_lt in H1, H2.
  eapply String_as_OT.lt_trans; eassumption.
Qed.

Lemma before_asym (a b : string) : Js.before a b -> ~ Js.before b a.
Proof.
  unfold Js.before. intros H1 H2.
  rewrite String.compare_antisym, H2 in H1. discriminate.
Qed.

Lemma before_irrefl (a : string) : ~ Js.before a a.
Proof. intros H. exact (before_asym a a H H). Qed.

Lemma before_total (a b : string) : Js.before a b \/ a = b \/ Js.before b a.
Proof.
  unfold Js.before. destruct (String.compare a b) eqn:E.
  - right. left. apply String.compare_eq_iff. exact E.
  - left. reflexivity.
  - right. right. rewrite String.compare_antisym, E. reflexivity.
Qed.

Lemma not_before_trans_l (a b c : string) :
  ~ Js.before b a -> Js.before b c -> Js.before a c.
Proof.
  intros Hn Hbc. destruct (before_total a b) as [H|[H|H]].
  - eapply before_trans; eassumption.
  - subst. exact Hbc.
  - contradiction.
Qed.

Lemma not_before_trans_r (a b c : string) :
  Js.before a b -> ~ Js.before c b -> Js.before a c.
Proof.
  intros Hab Hn. destruct (before_total b c) as [H|[H|H]].
  - eapply before_trans; eassumption.
  - subst. exact Hab.
  - contradiction.
Qed.

(** On proper intervals the three-way test of [checkAvailability] and
    [doTimeRangesOverlap] agree. *)
Lemma three_way_is_overlap (s e rs re : string) :
  Js.before s e -> Js.before rs re ->
  (String.leb rs s && String.ltb s re)
  || (String.ltb rs e && String.leb e re)
  || (String.leb s rs && String.leb re e)
  = String.ltb s re && String.ltb rs e.
Proof.
  intros Hse Hr. apply Bool.eq_iff_eq_true.
  rewrite !orb_true_iff, !andb_true_iff, !ltb_before, !leb_not_before.
  split.
  - intros [[[H1 H2]|[H1 H2]]|[H1 H2]].
    + split; [exact H2|]. exact (not_before_trans_l rs s e H1 Hse).
    + split; [|exact H1]. exact (not_before_trans_r s e re Hse H2).
    + split.
      * exact (not_before_trans_l s rs re H1 Hr).
      * exact (not_before_trans_r rs re e Hr H2).
  - intros [H1 H2]. destruct (before_total s rs) as [H|[H|H]].
    + destruct (before_total e re) as [G|[G|G]].
      * left. right. split; [exact H2|]. apply before_asym. exact G.
      * left. right. split; [exact H2|]. subst. apply before_irrefl.
      * right. split; apply before_asym; assumption.
    + left. left. split; [|exact H1]. subst. apply before_irrefl.
    + left. left. split; [|exact H1]. apply before_asym. exact H.
Qed.

Lemma hasOverlap_is_doTimeRangesOverlap (startTime endTime : string)
    (r : Reservation.t) :
  Js.before startTime endTime ->
  Js.before (Rest.time_out (inicio r)) (Rest.time_out (fin r)) ->
  Lib.hasOverlap startTime endTime r
  = Hooks.doTimeRangesOverlap startTime endTime
      (Rest.time_out (inicio r)) (Rest.time_out (fin r)).
Proof.
  intros Hse Hr. unfold Lib.hasOverlap, Hooks.doTimeRangesOverlap.
  unfold Js.or, Js.ge, Js.gt, Js.le, Js.lt. simpl Js.truthy_opt. cbv iota.
  apply three_way_is_overlap; assumption.
Qed.

(** What [checkAvailability] computes: the slot is reported free exactly
    when no row of that date whose status is not cancelled (rejected rows
    included) overlaps the proposal. *)
Lemma checkAvailability_spec env (date startTime endTime : string) (w : World) :
  select_fault env = None ->
  Js.before startTime endTime ->
  (forall r, In r (reservations w) ->
             Js.before (Rest.time_out (inicio r)) (Rest.time_out (fin r))) ->
  (Lib.checkAvailability env date startTime endTime None w = true <->
   forall r, In r (reservations w) -> status r <> Status.cancelled ->
             fecha r = date ->
             Hooks.doTimeRangesOverlap startTime endTime
               (Rest.time_out (inicio r)) (Rest.time_out (fin r)) = false).
Proof.
  intros Hf Hse Hrows. unfold Lib.checkAvailability. rewrite Hf.
  rewrite negb_true_iff. unfold Lib.select_not_cancelled. split.
  - intros Hex r Hin Hst Hd.
    rewrite <- (hasOverlap_is_doTimeRangesOverlap _ _ r Hse (Hrows r Hin)).
    apply (existsb_false_In _ _ r Hex).
    apply filter_In. split; [exact Hin|].
    apply andb_true_iff. split.
    + destruct (status r); try reflexivity. congruence.
    + apply String.eqb_eq. exact Hd.
  - intros H. apply not_true_is_false. intros Hex.
    apply existsb_exists in Hex as (r & Hr & Hov).
    apply filter_In in Hr as [Hin Hq]. apply andb_true_iff in Hq as [Hst Hd].
    apply String.eqb_eq in Hd.
    rewrite (hasOverlap_is_doTimeRangesOverlap _ _ r Hse (Hrows r Hin)) in Hov.
    rewrite H in Hov; [discriminate|exact Hin| |exact Hd].
    intros Hc. rewrite Hc in Hst. discriminate.
Qed.

(** The comparison is made on text: a value read back from the database
    has seconds ([HH:MM:SS]), so a proposal written [HH:MM] that starts
    exactly when a reservation ends is reported as overlapping it, while
    the same proposal written with seconds is not. *)
Lemma checkAvailability_compares_text :
  let w := Examples.world [Examples.approved_0900] in
  Lib.checkAvailability Examples.env "2025-08-10" "10:00:00" "11:00:00" None w
  = true
  /\ Lib.checkAvailability Examples.env "2025-08-10" "10:00" "11:00" None w
     = false.
Proof. split; reflexivity. Qed.

(** C4 (the code at a day holding only a rejected request). The table
    holds a single, rejected request for 10:00-11:00 on 2025-06-01, so no
    active reservation exists on that day at all; [checkAvailability]
    nevertheless reports the slot 10:00-11:00 as not available. *)
Theorem checkAvailability_blocked_by_rejected :
  let w := Examples.world [Examples.rejected_1000] in
  Forall (fun r => active r = false) (reservations w)
  /\ select_fault Examples.env = None
  /\ Lib.checkAvailability Examples.env "2025-06-01" "10:00" "11:00" None w
     = false
  /\ Lib.checkAvailability Examples.env "2025-06-01" "10:00:00" "11:00:00" None w
     = false.
Proof.
  split; [repeat constructor|]. repeat split.
Qed.

End Availability.

(** ** Submitting a reservation *)

Section Submission.
Import Reservation Pg.
Local Open Scope Z_scope.
Local Open Scope list_scope.

Lemma slot_taken_toast_distinct : Hooks.slot_taken_toast <> Hooks.generic_toast.
Proof. discriminate. Qed.

Lemma insert_row_failed env row (w w1 : World) (e : Js.PostgrestError) :
  Lib.insert_row env row w = (inl e, w1) -> w1 = count_insert_request w.
Proof.
  unfold Lib.insert_row. destruct (insert_fault env); [congruence|].
  destruct row as [r|]; [|congruence].
  destruct (insert_reservation r _); congruence.
Qed.


(** The exclusion violation raised by the schema is recognised: a
    submission overlapping an active reservation gets the "slot taken"
    toast. *)
Lemma double_booking_is_slot_taken env (n : Hooks.NewReservation) (w : World)
    (r o : Reservation.t) :
  insert_fault env = None -> Hooks.insertData env n = Some r ->
  valid (reservations w) -> In o (reservations w) ->
  active o = true -> fecha r = fecha o -> intervals_overlap r o ->
  checks_ok r -> ~ In (id r) (map id (reservations w)) ->
  Hooks.addReservation env n w
  = (None, with_toast Hooks.slot_taken_toast (count_insert_request w)).
Proof.
  intros Hf Hrow Hv Ho Hao Hd Hov Hchk Hfresh.
  assert (active r = true) as Har.
  { unfold Hooks.insertData in Hrow.
    destruct (Rest.time_in (Hooks.inicio n)); [|discriminate].
    destruct (Rest.time_in (Hooks.fin n)); [|discriminate].
    inversion Hrow. reflexivity. }
  destruct (exclusion_violation_raised (reservations w) r o Hv Ho Har Hao Hd
              Hov Hchk Hfresh) as (e & He & Hcode).
  unfold Hooks.addReservation, Lib.insert_row. rewrite Hf, Hrow.
  simpl reservations. rewrite He.
  unfold Hooks.is_overlap_violation. rewrite Hcode. reflexivity.
Qed.


End Submission.

(** ** The confirmation link *)

Section Confirmation.
Import Reservation Pg.
Local Open Scope Z_scope.
Local Open Scope list_scope.

Lemma filter_implied {A} (p q : A -> bool) (l : list A) :
  (forall x, p x = true -> q x = true) ->
  filter p l = filter p (filter q l).
Proof.
  intros Hpq. induction l as [|x rest IH]; simpl; [reflexivity|].
  destruct (q x) eqn:Hq; simpl.
  - destruct (p x); rewrite IH; reflexivity.
  - destruct (p x) eqn:Hp; [|exact IH].
    rewrite (Hpq x Hp) in Hq. discriminate.
Qed.

Lemma filter_map_same {A} (q : A -> bool) (g : A -> A) (l : list A) :
  (forall x, q (g x) = q x) -> filter q (map g l) = map g (filter q l).
Proof.
  intros Hq. induction l as [|x rest IH]; simpl; [reflexivity|].
  rewrite Hq. destruct (q x); simpl; rewrite IH; reflexivity.
Qed.

Lemma token_valid_has_token env token (r : Reservation.t) :
  Page.token_valid env token r = true -> Page.has_token token r = true.
Proof.
  unfold Page.token_valid, Page.has_token.
  destruct (confirmation_token r); [|discriminate].
  destruct (token_expires_at r); [|discriminate].
  intros H. apply andb_true_iff in H. apply H.
Qed.

Lemma filter_token_valid env token (tbl : table) (r : Reservation.t) :
  filter (Page.has_token token) tbl = [r] ->
  filter (Page.token_valid env token) tbl
  = if Page.token_valid env token r then [r] else [].
Proof.
  intros H.
  rewrite (filter_implied _ (Page.has_token token) tbl
             (token_valid_has_token env token)), H.
  simpl. destruct (Page.token_valid env token r); reflexivity.
Qed.

(** The row-wise effect of a confirmation. *)
Lemma rewritten_confirm_token env token now (r : Reservation.t) :
  Page.has_token token
    (rewritten now (Page.token_valid env token) Page.set_confirmed r)
  = Page.has_token token r
  /\ Page.token_valid env token
       (rewritten now (Page.token_valid env token) Page.set_confirmed r)
     = Page.token_valid env token r.
Proof.
  unfold rewritten. destruct (Page.token_valid env token r) eqn:E.
  - split; [reflexivity|exact E].
  - split; [reflexivity|exact E].
Qed.

(** A token that designates one row whose expiry lies ahead, presented in
    a session that may update reservations. *)
Lemma confirm_in_time env token (w : World) (r : Reservation.t) :
  valid (reservations w) -> confirm_fault env = None ->
  db_admin env = true ->
  Js.truthy token = true ->
  filter (Page.has_token token) (reservations w) = [r] ->
  Page.token_valid env token r = true ->
  let g := rewritten (db_now env) (Page.token_valid env token) Page.set_confirmed in
  Page.confirmReservation env (Some token) w
  = ({| Page.status := Page.success;
        Page.reservationDetails :=
          Some (set_updated_at (db_now env) (Page.set_confirmed r)) |},
     with_reservations (map g (reservations w)) w).
Proof.
  intros Hv Hcf Hadm Htok Hone Hval g.
  unfold Page.confirmReservation, Page.update_confirmed.
  rewrite Htok, Hcf, Hadm. simpl negb. cbv iota.
  rewrite (filter_token_valid env token _ r Hone), Hval.
  rewrite (rls_update_admin env _ _ _ Hadm).
  rewrite (update_reservations_keeps_slot _ (db_now env) _ (reservations w)
             keeps_slot_set_confirmed Hv).
  reflexivity.
Qed.

(** The same token presented in a session that fails the UPDATE policy,
    the visitor's anonymous session for one: the update matches no row and
    the page, finding the token in its second query, answers expired. *)
Lemma confirm_filtered env token (w : World) (r : Reservation.t) :
  db_admin env = false -> select_fault env = None ->
  Js.truthy token = true ->
  filter (Page.has_token token) (reservations w) = [r] ->
  Page.confirmReservation env (Some token) w
  = ({| Page.status := Page.expired; Page.reservationDetails := None |}, w).
Proof.
  intros Hadm Hsel Htok Hone.
  unfold Page.confirmReservation, Page.update_confirmed, Page.select_by_token.
  rewrite Htok, Hadm, Hsel, Hone. simpl negb. cbv iota.
  destruct (confirm_fault env); reflexivity.
Qed.

(** The outcomes of the page in a session that may update reservations,
    with a working backend: a token that designates one reservation whose
    [token_expires_at] lies ahead sets its [confirmed] flag, leaves its
    [status] alone and reports success, and it keeps doing so when the
    link is opened again (the token is not consumed); a token whose expiry
    has passed (or is missing) reports expired and changes nothing; a
    token that no reservation carries, an empty token and a missing token
    report error and change nothing. A reservation created by
    [addReservation] starts pending, unconfirmed, with [token_expires_at]
    24 hours after the moment of submission on the browser's clock. *)
Lemma confirmReservation_outcomes env (token : string) (w : World) :
  valid (reservations w) ->
  confirm_fault env = None -> select_fault env = None ->
  db_admin env = true ->
  Js.truthy token = true ->
  (forall r, filter (Page.has_token token) (reservations w) = [r] ->
     Page.token_valid env token r = true ->
     let out := Page.confirmReservation env (Some token) w in
     let r' := set_updated_at (db_now env) (Page.set_confirmed r) in
     Page.status (fst out) = Page.success
     /\ In r' (reservations (snd out))
     /\ confirmed r' = true /\ status r' = status r
     /\ map id (reservations (snd out)) = map id (reservations w)
     /\ (let again := Page.confirmReservation env (Some token) (snd out) in
         Page.status (fst again) = Page.success
         /\ In (set_updated_at (db_now env) (Page.set_confirmed r'))
              (reservations (snd again))))
  /\ (forall r, filter (Page.has_token token) (reservations w) = [r] ->
        Page.token_valid env token r = false ->
        Page.confirmReservation env (Some token) w
        = ({| Page.status := Page.expired; Page.reservationDetails := None |}, w))
  /\ (filter (Page.has_token token) (reservations w) = [] ->
      Page.confirmReservation env (Some token) w
      = ({| Page.status := Page.error; Page.reservationDetails := None |}, w))
  /\ Page.confirmReservation env None w
     = ({| Page.status := Page.error; Page.reservationDetails := None |}, w)
  /\ Page.confirmReservation env (Some ""%string) w
     = ({| Page.status := Page.error; Page.reservationDetails := None |}, w)
  /\ (forall n row, Hooks.insertData env n = Some row ->
        token_expires_at row = Some (now env + 24 * 60 * 60 * 1000)
        /\ confirmed row = false /\ status row = Status.pending).
Proof.
  intros Hv Hcf Hsf Hadm Htok.
  split; [|split; [|split; [|split; [|split]]]].
  - intros r Hone Hval out r'.
    pose proof (confirm_in_time env token w r Hv Hcf Hadm Htok Hone Hval) as Hrun.
    cbv zeta in Hrun. unfold out. rewrite Hrun. cbn [fst snd].
    set (g := rewritten (db_now env) (Page.token_valid env token) Page.set_confirmed).
    assert (g r = r') as Hg by (unfold g, rewritten; rewrite Hval; reflexivity).
    assert (In r (reservations w)) as Hin.
    { apply (filter_In (Page.has_token token)). rewrite Hone. left. reflexivity. }
    split; [reflexivity|]. split.
    { cbn [reservations with_reservations]. rewrite <- Hg. apply in_map. exact Hin. }
    split; [reflexivity|]. split; [reflexivity|]. split.
    { cbn [reservations with_reservations]. rewrite map_map. apply map_ext.
      intros x. unfold g, rewritten.
      destruct (Page.token_valid env token x); reflexivity. }
    assert (valid (map g (reservations w))) as Hv'.
    { eapply update_reservations_valid; [exact Hv|].
      apply (update_reservations_keeps_slot _ (db_now env) _ (reservations w)
               keeps_slot_set_confirmed Hv). }
    assert (filter (Page.has_token token) (map g (reservations w)) = [r'])
      as Hone'.
    { rewrite filter_map_same.
      - rewrite Hone. simpl. rewrite Hg. reflexivity.
      - intros x. apply (rewritten_confirm_token env token (db_now env) x). }
    assert (Page.token_valid env token r' = true) as Hval'.
    { rewrite <- Hg. unfold g.
      rewrite (proj2 (rewritten_confirm_token env token (db_now env) r)).
      exact Hval. }
    pose proof (confirm_in_time env token
                  (with_reservations (map g (reservations w)) w) r'
                  Hv' Hcf Hadm Htok Hone' Hval') as Hagain.
    cbv zeta in Hagain. rewrite Hagain. cbn [fst snd].
    split; [reflexivity|].
    cbn [reservations with_reservations]. fold g.
    assert (g r' = set_updated_at (db_now env) (Page.set_confirmed r')) as Hg'
      by (unfold g, rewritten; rewrite Hval'; reflexivity).
    rewrite <- Hg'. apply in_map. rewrite <- Hg. apply in_map. exact Hin.
  - intros r Hone Hval.
    unfold Page.confirmReservation, Page.update_confirmed, Page.select_by_token.
    rewrite Htok, Hcf, Hsf, Hadm. simpl negb. cbv iota.
    rewrite (filter_token_valid env token _ r Hone), Hval, Hone. reflexivity.
  - intros Hnone.
    unfold Page.confirmReservation, Page.update_confirmed, Page.select_by_token.
    rewrite Htok, Hcf, Hsf, Hadm. simpl negb. cbv iota.
    rewrite (filter_implied _ (Page.has_token token) (reservations w)
               (token_valid_has_token env token)), Hnone.
    reflexivity.
  - reflexivity.
  - reflexivity.
  - intros n row Hrow. unfold Hooks.insertData in Hrow.
    destruct (Rest.time_in (Hooks.inicio n)); [|discriminate].
    destruct (Rest.time_in (Hooks.fin n)); [|discriminate].
    inversion Hrow. auto.
Qed.

Lemma pending_1000_valid : valid [Examples.pending_1000].
Proof. apply valid_singleton. split; reflexivity. Qed.

Lemma confirmReservation_outcomes_witness :
  let w := Examples.world [Examples.pending_1000] in
  let out := Page.confirmReservation Examples.env (Some "token-r1"%string) w in
  Page.status (fst out) = Page.success
  /\ map confirmed (reservations (snd out)) = [true]
  /\ map status (reservations (snd out)) = [Status.pending].
Proof.
  intros w out.
  destruct (confirmReservation_outcomes Examples.env "token-r1" w
              pending_1000_valid eq_refl eq_refl eq_refl eq_refl) as (Hok & _).
  destruct (Hok Examples.pending_1000 eq_refl eq_refl) as (Hs & _).
  split; [exact Hs|]. split; reflexivity.
Defined.

(** C8. The confirmation link does not do what it is for. Opened by the
    visitor it was sent to (an anonymous session) inside its 24 hours, it
    is answered with "expired" and the [confirmed] flag stays false: the
    update is filtered by the policy that lets only administrators update
    reservations. Opened in a session that may update, it sets the flag,
    but the token is not consumed: a second visit inside the window
    reports success once more instead of an invalid link. *)
Theorem confirmReservation_link_diverges :
  let w := Examples.world [Examples.pending_1000] in
  let visitor := Page.confirmReservation Examples.env_signed_out
                   (Some "token-r1"%string) w in
  let first := Page.confirmReservation Examples.env (Some "token-r1"%string) w in
  let second := Page.confirmReservation Examples.env (Some "token-r1"%string)
                  (snd first) in
  Page.token_valid Examples.env_signed_out "token-r1" Examples.pending_1000
  = true
  /\ db_admin Examples.env_signed_out = false
  /\ Page.status (fst visitor) = Page.expired
  /\ map confirmed (reservations (snd visitor)) = [false]
  /\ db_admin Examples.env = true
  /\ Page.status (fst first) = Page.success
  /\ map confirmed (reservations (snd first)) = [true]
  /\ Page.status (fst second) = Page.success
  /\ Page.status (fst second) <> Page.error.
Proof. repeat split. discriminate. Qed.

End Confirmation.

(** ** The profile lookup during login *)

Section Login.
Local Open Scope Z_scope.

Lemma race_lookup_failed (started : Z) (q : Auth.Settles Auth.Response) :
  Auth.lookup_failed started q ->
  (exists x, Auth.race started q = Js.Throw x)
  \/ (exists r e, Auth.race started q = Js.Return r /\ Auth.error r = Some e).
Proof.
  unfold Auth.lookup_failed, Auth.race. destruct q as [d r|d x|].
  - intros [Hlate|Herr].
    + left. destruct (Z.ltb_spec (started + d) Auth.timeout_ms); [lia|].
      eexists. reflexivity.
    + destruct (started + d <? Auth.timeout_ms).
      * right. destruct (Auth.error r) as [e|] eqn:E; [|congruence].
        exists r, e. auto.
      * left. eexists. reflexivity.
  - intros _. left. destruct (started + d <? Auth.timeout_ms);
      eexists; reflexivity.
  - intros _. left. eexists. reflexivity.
Qed.

(** C9. Whenever the profiles query is issued and then stays pending,
    settles only after the 3000 ms timer, rejects, or resolves with an
    error object, [fetchUserProfile] resolves to false: nothing is
    thrown to the caller and the call does not wait for the query. The
    same holds when installing the session for an explicit access token
    is rejected. *)
Theorem fetchUserProfile_fails_open (env : Auth.AuthEnv) (userId : string)
    (accessToken : option string) :
  (forall started, Auth.query_started env accessToken = Some started ->
     Auth.lookup_failed started (Auth.profiles_query env) ->
     Auth.fetchUserProfile env userId accessToken = Some false)
  /\ (forall t x, Js.truthy_opt accessToken = true ->
        Auth.setSession env = Auth.rejects t x ->
        Auth.fetchUserProfile env userId accessToken = Some false)
  /\ Auth.timeout_ms = 3000.
Proof.
  split; [|split; [|reflexivity]].
  - intros started Hstart Hfail.
    assert (Auth.after_client env started = Some false) as Hafter.
    { unfold Auth.after_client.
      destruct (race_lookup_failed started _ Hfail) as [[x Hx]|(r & e & Hr & He)].
      - rewrite Hx. reflexivity.
      - rewrite Hr, He. reflexivity. }
    unfold Auth.fetchUserProfile, Auth.query_started in *.
    destruct (Js.truthy_opt accessToken).
    + destruct (Auth.setSession env); try discriminate.
      inversion Hstart; subst. exact Hafter.
    + inversion Hstart; subst. exact Hafter.
  - intros t x Htok Hrej. unfold Auth.fetchUserProfile.
    rewrite Htok, Hrej. reflexivity.
Qed.

(** The timer only guards the query: with an explicit access token the
    function first awaits [setSession], and stays pending with it. Neither
    caller of the login flow passes a token. *)
Lemma fetchUserProfile_awaits_setSession (env : Auth.AuthEnv) (userId : string)
    (accessToken : option string) :
  Js.truthy_opt accessToken = true -> Auth.setSession env = Auth.never ->
  Auth.query_started env accessToken = None
  /\ Auth.fetchUserProfile env userId accessToken = None.
Proof.
  intros Htok Hnever. unfold Auth.query_started, Auth.fetchUserProfile.
  rewrite Htok, Hnever. split; reflexivity.
Qed.

Lemma fetchUserProfile_fails_open_witness :
  Auth.lookup_failed 0 (Auth.profiles_query Examples.stalled_login)
  /\ Auth.fetchUserProfile Examples.stalled_login "user-1" None = Some false.
Proof.
  split; [exact I|].
  exact (proj1 (fetchUserProfile_fails_open Examples.stalled_login "user-1" None)
           0 eq_refl I).
Defined.

End Login.

(* ------------------------------------------------------------------------- *)
(** ** [sanitizeInput] only deletes *)

Section Sanitizing.
Local Open Scope list_scope.

Lemma subseq_empty (s : string) : Text.subseq "" s.
Proof. induction s; constructor; assumption. Qed.

Lemma subseq_refl (s : string) : Text.subseq s s.
Proof. induction s; constructor; assumption. Qed.

Lemma subseq_trans (u t s : string) :
  Text.subseq u t -> Text.subseq t s -> Text.subseq u s.
Proof.
  intros Hut Hts. revert u Hut.
  induction Hts as [|c t s Hts IH|c t s Hts IH]; intros u Hut.
  - exact Hut.
  - constructor. apply IH. exact Hut.
  - inversion Hut; subst.
    + apply Text.subseq_drop. apply IH. assumption.
    + apply Text.subseq_keep. apply IH. assumption.
Qed.

Lemma subseq_length (t s : string) :
  Text.subseq t s -> (String.length t <= String.length s)%nat.
Proof. induction 1; simpl; lia. Qed.

Lemma subseq_all_chars (p : ascii -> bool) (t s : string) :
  Text.subseq t s -> Text.all_chars p s = true -> Text.all_chars p t = true.
Proof.
  induction 1 as [|c t s H IH|c t s H IH]; simpl; intros Hs.
  - reflexivity.
  - apply andb_true_iff in Hs. apply IH, Hs.
  - apply andb_true_iff in Hs. destruct Hs as [Hc Hs].
    rewrite Hc, (IH Hs). reflexivity.
Qed.

Lemma remove_chars_subseq (bad : ascii -> bool) (s : string) :
  Text.subseq (Lib.remove_chars bad s) s.
Proof.
  induction s as [|c s IH]; simpl.
  - constructor.
  - destruct (bad c); constructor; exact IH.
Qed.

Lemma remove_chars_all (bad : ascii -> bool) (s : string) :
  Text.all_chars (fun c => negb (bad c)) (Lib.remove_chars bad s) = true.
Proof.
  induction s as [|c s IH]; simpl.
  - reflexivity.
  - destruct (bad c) eqn:Hc; simpl.
    + exact IH.
    + rewrite Hc, IH. reflexivity.
Qed.

Lemma remove_all_aux_subseq (pat : string) (s : string) :
  forall k, Text.subseq (Lib.remove_all_aux pat k s) s.
Proof.
  induction s as [|c s IH]; intros k.
  - simpl. constructor.
  - cbn [Lib.remove_all_aux]. destruct k as [|k].
    + destruct (String.prefix pat (String c s)); constructor; apply IH.
    + constructor. apply IH.
Qed.

Lemma remove_word_aux_subseq (word : string) (s : string) :
  forall prev k, Text.subseq (Lib.remove_word_aux word prev k s) s.
Proof.
  induction s as [|c s IH]; intros prev k.
  - simpl. constructor.
  - cbn [Lib.remove_word_aux]. destruct k as [|k].
    + destruct (negb (Lib.is_word_opt prev) && Lib.prefix_ci word (String c s)
                && negb (Lib.is_word_opt
                           (String.get (String.length word) (String c s))));
        constructor; apply IH.
    + constructor. apply IH.
Qed.

Lemma trimStart_subseq (s : string) : Text.subseq (Lib.trimStart s) s.
Proof.
  induction s as [|c s IH]; simpl.
  - constructor.
  - destruct (Lib.is_space c).
    + constructor; exact IH.
    + apply subseq_refl.
Qed.

Lemma trimEnd_subseq (s : string) : Text.subseq (Lib.trimEnd s) s.
Proof.
  induction s as [|c s IH]; simpl.
  - constructor.
  - destruct (Lib.trimEnd s) as [|a t] eqn:Ht.
    + destruct (Lib.is_space c); constructor; exact IH.
    + constructor; exact IH.
Qed.

Lemma trimEnd_last (s : string) :
  Text.not_space (Text.last_char (Lib.trimEnd s)) = true.
Proof.
  induction s as [|c s IH]; simpl.
  - reflexivity.
  - destruct (Lib.trimEnd s) as [|a t] eqn:Ht.
    + destruct (Lib.is_space c) eqn:Hc; simpl.
      * reflexivity.
      * rewrite Hc. reflexivity.
    + change (Text.last_char (String c (String a t)))
        with (match Text.last_char (String a t) with
              | None => Some c
              | Some l => Some l
              end).
      destruct (Text.last_char (String a t)) as [l|] eqn:Hl.
      * exact IH.
      * simpl in Hl. destruct (Text.last_char t); discriminate.
Qed.

Lemma trimStart_first (s : string) :
  Text.not_space (Text.first_char (Lib.trimStart s)) = true.
Proof.
  induction s as [|c s IH]; simpl.
  - reflexivity.
  - destruct (Lib.is_space c) eqn:Hc.
    + exact IH.
    + simpl. rewrite Hc. reflexivity.
Qed.

Lemma trimEnd_first (s : string) :
  Text.not_space (Text.first_char s) = true ->
  Text.not_space (Text.first_char (Lib.trimEnd s)) = true.
Proof.
  destruct s as [|c s]; simpl.
  - reflexivity.
  - intros Hc. destruct (Lib.trimEnd s).
    + destruct (Lib.is_space c) eqn:E; [discriminate|]. simpl.
      rewrite E. reflexivity.
    + simpl. exact Hc.
Qed.

(** X1. [sanitizeInput] never adds or reorders characters: its result is
    the input with some characters deleted (so it is never longer), it
    contains no single quote, double quote or semicolon, and it neither
    starts nor ends with white space; [null]/[undefined] give the empty
    string. *)
Theorem sanitizeInput_only_deletes (input : string) :
  let out := Lib.sanitizeInput (Some input) in
  Text.subseq out input
  /\ (String.length out <= String.length input)%nat
  /\ Text.all_chars (fun c => negb (Lib.is_quote_or_semicolon c)) out = true
  /\ Text.not_space (Text.first_char out) = true
  /\ Text.not_space (Text.last_char out) = true
  /\ Lib.sanitizeInput None = "".
Proof.
  intros out.
  assert (Hstep : Text.subseq out
            (Lib.remove_chars Lib.is_quote_or_semicolon input)).
  { unfold out, Lib.sanitizeInput, Lib.trim, Lib.remove_word, Lib.remove_all.
    eapply subseq_trans; [apply trimEnd_subseq|].
    eapply subseq_trans; [apply trimStart_subseq|].
    repeat (eapply subseq_trans; [apply remove_word_aux_subseq|]).
    repeat (eapply subseq_trans; [apply remove_all_aux_subseq|]).
    apply subseq_refl. }
  assert (Hsub : Text.subseq out input).
  { eapply subseq_trans; [exact Hstep|apply remove_chars_subseq]. }
  split; [exact Hsub|].
  split; [apply subseq_length; exact Hsub|].
  split; [eapply subseq_all_chars; [exact Hstep|apply remove_chars_all]|].
  split; [|split].
  - unfold out, Lib.sanitizeInput, Lib.trim.
    apply trimEnd_first, trimStart_first.
  - unfold out, Lib.sanitizeInput, Lib.trim. apply trimEnd_last.
  - reflexivity.
Qed.

End Sanitizing.

(* ------------------------------------------------------------------------- *)
(** ** Cancelling or rejecting a reservation frees its slot *)

Section Reopening.
Import Reservation Pg.
Local Open Scope Z_scope.
Local Open Scope list_scope.

Lemma rewritten_id now p f (r : Reservation.t) :
  (forall x, id (f x) = id x) -> id (rewritten now p f r) = id r.
Proof.
  intros Hf. unfold rewritten. destruct (p r); [|reflexivity].
  simpl. apply Hf.
Qed.

Lemma map_rewritten_ids now p f (tbl : table) :
  (forall x, id (f x) = id x) ->
  map id (map (rewritten now p f) tbl) = map id tbl.
Proof.
  intros Hf. rewrite map_map. apply map_ext. intros a.
  apply rewritten_id. exact Hf.
Qed.

(** A new row is accepted next to a table in which the row [r] has been
    rewritten into an inactive one, as soon as it collides with no other
    active row. *)
Lemma retired_slot_reopens now f (tbl : table) (r n : Reservation.t) :
  keeps_slot f -> active (f r) = false ->
  pk_unique tbl -> In r tbl ->
  checks_ok n -> ~ In (id n) (map id tbl) ->
  (forall o, In o tbl -> id o <> id r -> active o = true ->
             excl_conflict n o = false) ->
  let tbl' := map (rewritten now (fun x => (id x =? id r)%string) f) tbl in
  insert_reservation n tbl' = inr (tbl' ++ [n]).
Proof.
  intros Hk Hoff Hpk Hr Hn Hfresh Hfree tbl'.
  unfold insert_reservation.
  assert (Hadm : admissible n tbl').
  { constructor.
    - exact Hn.
    - unfold tbl'. rewrite map_rewritten_ids; [exact Hfresh|].
      intros x. apply (Hk x).
    - intros o Ho _ Hact. unfold tbl' in Ho. apply in_map_iff in Ho.
      destruct Ho as [o0 [Ho0 Hin]]. subst o. unfold rewritten in *.
      destruct (id o0 =? id r)%string eqn:He.
      + apply String.eqb_eq in He.
        assert (o0 = r) by (apply (pk_unique_same_id tbl); assumption).
        subst o0. unfold active in *. simpl in Hact.
        rewrite Hoff in Hact. discriminate.
      + apply String.eqb_neq in He. apply Hfree; assumption. }
  apply check_row_None in Hadm. rewrite Hadm. reflexivity.
Qed.

Lemma keeps_slot_reject_row notes adminId :
  keeps_slot (Admin.reject_row notes adminId).
Proof. intros r. simpl. repeat split; try reflexivity. discriminate. Qed.

(** X2. Cancelling frees the slot: after [deleteReservation] (and so
    after [unblockTimeSlot], which is the same call with a fixed reason)
    has cancelled reservation [r] in an administrator's session, the
    database accepts a new reservation that collides with no active
    reservation other than [r], even one for exactly the slot of [r]. *)
Theorem deleteReservation_reopens_slot env (reason : option string)
    (w : World) (r n : Reservation.t) :
  valid (reservations w) -> In r (reservations w) ->
  Js.truthy (id r) = true -> db_admin env = true ->
  single_fault env (id r) = None -> update_fault env (id r) = None ->
  checks_ok n -> ~ In (id n) (map id (reservations w)) ->
  (forall o, In o (reservations w) -> id o <> id r -> active o = true ->
             excl_conflict n o = false) ->
  let cancelled := reservations (snd (Lib.deleteReservation env (id r) reason w)) in
  let unblocked := reservations (snd (Booking.unblockTimeSlot env (id r) w)) in
  insert_reservation n cancelled = inr (cancelled ++ [n])
  /\ insert_reservation n unblocked = inr (unblocked ++ [n]).
Proof.
  intros Hv Hr Ht Hadm Hs Hu Hn Hfresh Hfree cancelled unblocked.
  unfold cancelled, unblocked, Booking.unblockTimeSlot.
  split.
  - destruct (deleteReservation_spec env reason w r Hv Hr Ht Hadm Hs Hu)
      as [_ [Htbl _]].
    rewrite Htbl.
    apply retired_slot_reopens; try assumption.
    + apply keeps_slot_soft_cancel.
    + reflexivity.
    + apply Hv.
  - destruct (deleteReservation_spec env (Some "Time slot unblocked by admin"%string)
                w r Hv Hr Ht Hadm Hs Hu) as [_ [Htbl _]].
    rewrite Htbl.
    apply retired_slot_reopens; try assumption.
    + apply keeps_slot_soft_cancel.
    + reflexivity.
    + apply Hv.
Qed.

Lemma deleteReservation_reopens_slot_witness :
  let n := Examples.booking "r2" "Beto" "2025-08-10" Examples.t0900
             Examples.t1000 Status.pending None in
  let cancelled :=
    reservations (snd (Lib.deleteReservation Examples.env "r1" None
                         (Examples.world [Examples.approved_0900]))) in
  excl_conflict n Examples.approved_0900 = true
  /\ insert_reservation n cancelled = inr (cancelled ++ [n]).
Proof.
  split; [reflexivity|].
  refine (proj1 (deleteReservation_reopens_slot Examples.env None
            (Examples.world [Examples.approved_0900]) Examples.approved_0900
            (Examples.booking "r2" "Beto" "2025-08-10" Examples.t0900
               Examples.t1000 Status.pending None) _ _ _ _ _ _ _ _ _)).
  - apply valid_singleton. unfold checks_ok. simpl.
    unfold Examples.t0900, Examples.t1000. lia.
  - left. reflexivity.
  - reflexivity.
  - reflexivity.
  - reflexivity.
  - reflexivity.
  - unfold checks_ok. simpl. unfold Examples.t0900, Examples.t1000. lia.
  - simpl. intros [H|[]]. discriminate.
  - intros o [Ho|[]] Hneq. subst o. exfalso. apply Hneq. reflexivity.
Defined.

End Reopening.

(* ------------------------------------------------------------------------- *)
(** ** Failures of [deleteReservation] *)

Section CancelFailures.
Import Reservation Pg.
Local Open Scope Z_scope.
Local Open Scope list_scope.

(** X3. Cancelling a reservation that does not exist (or passing an empty
    id) throws and leaves the whole backend as it was: no row is changed,
    no audit row is written, no e-mail is sent. *)
Theorem deleteReservation_unknown_id env (i : Uuid) (reason : option string)
    (w : World) :
  (forall r, In r (reservations w) -> id r <> i) ->
  exists x, Lib.deleteReservation env i reason w = (Js.Throw x, w).
Proof.
  intros Hnone. unfold Lib.deleteReservation.
  destruct (Js.truthy i); simpl; [|eexists; reflexivity].
  unfold Lib.single. destruct (single_fault env i); [eexists; reflexivity|].
  rewrite filter_none; [eexists; reflexivity|].
  intros y Hy. apply String.eqb_neq. apply Hnone. exact Hy.
Qed.

Lemma deleteReservation_unknown_id_witness :
  exists x,
    Lib.deleteReservation Examples.env "r9" (Some "clima"%string)
      (Examples.world [Examples.approved_0900])
    = (Js.Throw x, Examples.world [Examples.approved_0900]).
Proof.
  apply (deleteReservation_unknown_id Examples.env "r9" (Some "clima"%string)
           (Examples.world [Examples.approved_0900])).
  intros r [Hr|[]]. subst r. discriminate.
Defined.

(** X4. The audit row is written before the update and is not taken back:
    when the update of the reservation is refused, [deleteReservation]
    throws that error, the reservation keeps its status and no e-mail is
    sent, but the audit table already holds a row recording the
    cancellation (unless the audit insert failed as well). *)
Theorem deleteReservation_refused_update_keeps_audit env
    (reason : option string) (w : World) (r : Reservation.t)
    (e : Js.PostgrestError) :
  pk_unique (reservations w) -> In r (reservations w) ->
  Js.truthy (id r) = true ->
  single_fault env (id r) = None -> update_fault env (id r) = Some e ->
  let out := Lib.deleteReservation env (id r) reason w in
  fst out = Js.Throw (Js.Rejected e)
  /\ reservations (snd out) = reservations w
  /\ outbox (snd out) = outbox w
  /\ cancellations (snd out) = Lib.audited env (id r) reason r w
  /\ (audit_fault env (id r) = no_fault ->
      exists c, cancellations (snd out) = cancellations w ++ [c]
                /\ Cancellation.reservation_id c = id r
                /\ Cancellation.previous_status c = status r).
Proof.
  intros Hpk Hr Ht Hs Hu out.
  assert (Hout : out =
    (Js.Throw (Js.Rejected e),
     match audit_fault env (id r) with
     | no_fault =>
         with_cancellation
           (Lib.audit_row env (id r) (Lib.current_admin env) reason r) w
     | _ => w
     end)).
  { unfold out, Lib.deleteReservation. rewrite Ht. simpl.
    unfold Lib.single. rewrite Hs.
    rewrite (filter_by_id (reservations w) r Hpk Hr).
    rewrite Hu. destruct (audit_fault env (id r)); reflexivity. }
  rewrite Hout. unfold Lib.audited. cbn [fst snd].
  destruct (audit_fault env (id r)) eqn:Ha; cbn [reservations outbox
    cancellations with_cancellation];
    repeat split; try reflexivity; try discriminate.
  intros _. eexists. split; [reflexivity|]. split; reflexivity.
Qed.

Lemma deleteReservation_refused_update_keeps_audit_witness :
  let env :=
    {| now := 1000; db_now := 1000;
       gen_random_uuid := "new-id"; gen_random_token := "new-token";
       auth_user := getUser_data (Some "admin-1"%string); db_admin := true;
       service_role_key := None; http_post_raises := fun _ => false;
       send_email_fails := false; select_fault := None;
       single_fault := fun _ => None; audit_transport := fun _ => no_fault;
       update_fault := fun _ =>
         Some (pg_error "42501" "permission denied for table reservations");
       insert_fault := None; confirm_fault := None |} in
  let out := Lib.deleteReservation env "r1" (Some "clima"%string)
               (Examples.world [Examples.approved_0900]) in
  map status (reservations (snd out)) = [Status.approved]
  /\ map Cancellation.reservation_id (cancellations (snd out)) = ["r1"%string].
Proof.
  intros env out.
  destruct (deleteReservation_refused_update_keeps_audit env
              (Some "clima"%string) (Examples.world [Examples.approved_0900])
              Examples.approved_0900
              (pg_error "42501" "permission denied for table reservations"))
    as [_ [Htbl [_ [Hc _]]]].
  - repeat constructor. simpl. intros [].
  - left. reflexivity.
  - reflexivity.
  - reflexivity.
  - reflexivity.
  - split.
    + unfold out. change "r1"%string with (id Examples.approved_0900).
      rewrite Htbl. reflexivity.
    + unfold out. change "r1"%string with (id Examples.approved_0900) at 1.
      rewrite Hc. reflexivity.
Defined.

End CancelFailures.

(* ------------------------------------------------------------------------- *)
(** ** Approving and rejecting from the dashboard *)

Section Dashboard.
Import Reservation Pg.
Local Open Scope Z_scope.
Local Open Scope list_scope.

Lemma single_found env (tbl : table) (r : Reservation.t) :
  pk_unique tbl -> In r tbl -> single_fault env (id r) = None ->
  Lib.single env (id r) tbl = inr r.
Proof.
  intros Hpk Hr Hs. unfold Lib.single. rewrite Hs.
  rewrite (filter_by_id tbl r Hpk Hr). reflexivity.
Qed.

Lemma update_rows_ext now p f g (todo : table) :
  forall done,
  (forall x, In x todo -> p x = true -> f x = g x) ->
  update_rows now p f done todo = update_rows now p g done todo.
Proof.
  induction todo as [|a rest IH]; intros done Hfg; simpl.
  - reflexivity.
  - destruct (p a) eqn:Hp.
    + rewrite (Hfg a (or_introl eq_refl) Hp).
      destruct (check_row _ _); [reflexivity|].
      apply IH. intros x Hx. apply Hfg. right. exact Hx.
    + apply IH. intros x Hx. apply Hfg. right. exact Hx.
Qed.

Lemma valid_rewritten now p f (tbl : table) :
  keeps_slot f -> valid tbl -> valid (map (rewritten now p f) tbl).
Proof.
  intros Hk Hv.
  eapply update_reservations_valid; [exact Hv|].
  apply update_reservations_keeps_slot; assumption.
Qed.

(** The update of [handleApproveReservation], restricted to rows that
    are active already, changes neither key, slot nor activity. *)
Lemma keeps_slot_approve_active :
  keeps_slot (fun x => if active x then Admin.approve_row x else x).
Proof.
  intros r. destruct (active r) eqn:Ha.
  - simpl. repeat split; reflexivity.
  - repeat split; try reflexivity. intros H. congruence.
Qed.

Lemma approve_active_update now (tbl : table) (r : Reservation.t) :
  valid tbl -> In r tbl -> active r = true ->
  update_reservations now (fun x => (id x =? id r)%string) Admin.approve_row tbl
  = inr (map (rewritten now (fun x => (id x =? id r)%string) Admin.approve_row)
           tbl).
Proof.
  intros Hv Hr Ha. unfold update_reservations.
  rewrite (update_rows_ext now _ Admin.approve_row
             (fun x => if active x then Admin.approve_row x else x)).
  - fold (update_reservations now (fun x => (id x =? id r)%string)
            (fun x => if active x then Admin.approve_row x else x) tbl).
    rewrite (update_reservations_keeps_slot _ now _ tbl
               keeps_slot_approve_active Hv).
    f_equal. apply map_ext_in. intros x Hx. unfold rewritten.
    destruct (id x =? id r)%string eqn:E; [|reflexivity].
    apply String.eqb_eq in E.
    rewrite (pk_unique_same_id tbl x r (proj1 Hv) Hx Hr E), Ha. reflexivity.
  - intros x Hx E. apply String.eqb_eq in E.
    rewrite (pk_unique_same_id tbl x r (proj1 Hv) Hx Hr E), Ha. reflexivity.
Qed.

(** An update by id in a session that fails the UPDATE policy changes no
    row and reports no error. *)
Lemma update_by_id_filtered env (i : Uuid) f (tbl : table) :
  db_admin env = false -> update_fault env i = None ->
  Admin.update_by_id env i f tbl = inr tbl.
Proof.
  intros Hadm Hu. unfold Admin.update_by_id. rewrite Hu.
  apply rls_update_filtered. exact Hadm.
Qed.

(** X5. Approving a pending (or already approved) reservation cannot
    fail on the database side. The success toast is shown and nothing is
    written to the audit table in every session; in an administrator's
    session the row, and only that row, gets status [approved]; in a
    session that fails the UPDATE policy of the table no row changes, and
    the approval e-mail is sent all the same. *)
Theorem handleApproveReservation_approves env (w : World) (r : Reservation.t) :
  valid (reservations w) -> In r (reservations w) -> active r = true ->
  single_fault env (id r) = None -> update_fault env (id r) = None ->
  let w' := Admin.handleApproveReservation env (id r) w in
  cancellations w' = cancellations w
  /\ toasts w' = toasts w ++ [Admin.approve_done]
  /\ valid (reservations w')
  /\ (db_admin env = true ->
      reservations w' =
        map (rewritten (db_now env) (fun x => (id x =? id r)%string)
               Admin.approve_row)
            (reservations w)
      /\ In (set_updated_at (db_now env) (Admin.approve_row r)) (reservations w')
      /\ (forall x, In x (reservations w) -> id x <> id r ->
                    In x (reservations w')))
  /\ (db_admin env = false ->
      reservations w' = reservations w
      /\ (send_email_fails env = false ->
          exists m, outbox w' = outbox w ++ [m]
                    /\ email_type m = "reservation-approved"%string
                    /\ recipient m = email r)).
Proof.
  intros Hv Hr Ha Hs Hu w'.
  destruct (db_admin env) eqn:Hadm.
  - assert (Hw' : reservations w' =
      map (rewritten (db_now env) (fun x => (id x =? id r)%string)
             Admin.approve_row)
          (reservations w)
      /\ cancellations w' = cancellations w
      /\ toasts w' = toasts w ++ [Admin.approve_done]).
    { unfold w', Admin.handleApproveReservation.
      rewrite (single_found env _ r (proj1 Hv) Hr Hs).
      unfold Admin.update_by_id. rewrite Hu.
      rewrite (rls_update_admin env _ _ _ Hadm).
      rewrite (approve_active_update (db_now env) _ r Hv Hr Ha).
      unfold Lib.sendEmail. destruct (send_email_fails env); auto. }
    destruct Hw' as [Htbl [Hc Ht]].
    split; [exact Hc|]. split; [exact Ht|]. split; [|split].
    + rewrite Htbl.
      eapply update_reservations_valid; [exact Hv|].
      apply approve_active_update; assumption.
    + intros _. split; [exact Htbl|]. split.
      * rewrite Htbl. apply in_map_iff. exists r. split; [|exact Hr].
        unfold rewritten. rewrite String.eqb_refl. reflexivity.
      * intros x Hx Hne. rewrite Htbl. apply in_map_iff. exists x.
        split; [|exact Hx]. unfold rewritten.
        apply String.eqb_neq in Hne. rewrite Hne. reflexivity.
    + discriminate.
  - assert (Hw' : w' = with_toast Admin.approve_done
                         (Lib.sendEmail env
                            {| email_type := "reservation-approved";
                               recipient := email r; about := id r;
                               email_reason := None |}
                            (with_reservations (reservations w) w))).
    { unfold w', Admin.handleApproveReservation.
      rewrite (single_found env _ r (proj1 Hv) Hr Hs).
      rewrite (update_by_id_filtered env _ _ _ Hadm Hu). reflexivity. }
    rewrite Hw'. unfold Lib.sendEmail.
    destruct (send_email_fails env) eqn:Hse; cbn;
      (split; [reflexivity|]); (split; [reflexivity|]);
      (split; [exact Hv|]); (split; [discriminate|]);
      intros _; (split; [reflexivity|]); intros Hf; try discriminate.
    eexists. split; [reflexivity|]. split; reflexivity.
Qed.

Lemma handleApproveReservation_approves_witness :
  map status
    (reservations (Admin.handleApproveReservation Examples.env "r1"
                     (Examples.world [Examples.pending_1000])))
  = [Status.approved].
Proof.
  destruct (handleApproveReservation_approves Examples.env
              (Examples.world [Examples.pending_1000]) Examples.pending_1000)
    as [_ [_ [_ [Hyes _]]]].
  - exact pending_1000_valid.
  - left. reflexivity.
  - reflexivity.
  - reflexivity.
  - reflexivity.
  - destruct (Hyes eq_refl) as [Htbl _].
    change "r1"%string with (id Examples.pending_1000). rewrite Htbl.
    reflexivity.
Defined.

Lemma revive_refused now (tbl : table) (r o : Reservation.t) :
  valid tbl -> In r tbl -> In o tbl -> id o <> id r ->
  active o = true -> fecha r = fecha o -> intervals_overlap r o ->
  exists e,
    update_reservations now (fun x => (id x =? id r)%string)
      Admin.approve_row tbl = inl e
    /\ Js.code e = exclusion_violation.
Proof.
  intros Hv Hr Ho Hne Hao Hd Hov.
  destruct (in_split r tbl Hr) as [l1 [l2 Htbl]]. subst tbl.
  assert (Hpk := proj1 Hv). unfold pk_unique in Hpk.
  rewrite map_app in Hpk. simpl in Hpk.
  assert (Hnot : ~ In (id r) (map id (l1 ++ l2))).
  { rewrite map_app. apply NoDup_remove_2 in Hpk. exact Hpk. }
  assert (Hl1 : forall x, In x l1 -> (id x =? id r)%string = false).
  { intros x Hx. apply String.eqb_neq. intros E. apply Hnot.
    rewrite <- E. apply in_map. apply in_or_app. left. exact Hx. }
  unfold update_reservations.
  rewrite (update_rows_skip now _ Admin.approve_row l1 (r :: l2) [] Hl1).
  simpl. rewrite String.eqb_refl.
  set (r' := set_updated_at now (Admin.approve_row r)).
  assert (Ho' : In o (l1 ++ l2)).
  { apply in_app_or in Ho. apply in_or_app.
    destruct Ho as [Ho|[Ho|Ho]]; [left; exact Ho| |right; exact Ho].
    subst o. exfalso. apply Hne. reflexivity. }
  assert (Hck : checks_ok r).
  { destruct Hv as [_ [Hall _]]. rewrite Forall_forall in Hall.
    apply Hall. exact Hr. }
  destruct (exclusion_violation_raised (l1 ++ l2) r' o) as [e [He Hcode]].
  - apply (valid_remove l1 l2 r). exact Hv.
  - exact Ho'.
  - reflexivity.
  - exact Hao.
  - exact Hd.
  - exact Hov.
  - exact Hck.
  - exact Hnot.
  - exists e. split; [|exact Hcode].
    unfold insert_reservation in He.
    destruct (check_row r' (l1 ++ l2)) as [e'|] eqn:Hc; [|discriminate].
    injection He as He. subst e'. reflexivity.
Qed.

(** X6. Approval cannot revive a reservation onto an occupied slot: when
    another active reservation of the same date overlaps the cancelled or
    rejected reservation being approved in an administrator's session, the
    exclusion constraint refuses the update, no row changes, no e-mail is
    sent and the error toast is shown. *)
Theorem handleApproveReservation_refuses_collision env (w : World)
    (r o : Reservation.t) :
  valid (reservations w) -> In r (reservations w) -> In o (reservations w) ->
  id o <> id r -> active o = true ->
  fecha r = fecha o -> intervals_overlap r o ->
  db_admin env = true ->
  single_fault env (id r) = None -> update_fault env (id r) = None ->
  active r = false
  /\ Admin.handleApproveReservation env (id r) w
     = with_toast Admin.approve_failed w.
Proof.
  intros Hv Hr Ho Hne Hao Hd Hov Hadm Hs Hu.
  split.
  - destruct (active r) eqn:Ha; [|reflexivity]. exfalso.
    destruct Hv as [_ [_ Hno]].
    apply (Hno r o Hr Ho); auto.
  - unfold Admin.handleApproveReservation.
    rewrite (single_found env _ r (proj1 Hv) Hr Hs).
    unfold Admin.update_by_id. rewrite Hu.
    rewrite (rls_update_admin env _ _ _ Hadm).
    destruct (revive_refused (db_now env) _ r o Hv Hr Ho Hne Hao Hd Hov)
      as [e [He _]].
    rewrite He. reflexivity.
Qed.

Lemma handleApproveReservation_refuses_collision_witness :
  let old := Examples.booking "r1" "Ana" "2025-06-01" Examples.t1000
               Examples.t1100 Status.cancelled None in
  let newer := Examples.booking "r2" "Beto" "2025-06-01" Examples.t1000
                 Examples.t1100 Status.approved None in
  let w := Examples.world [old; newer] in
  Admin.handleApproveReservation Examples.env "r1" w
  = with_toast Admin.approve_failed w.
Proof.
  intros old newer w.
  refine (proj2 (handleApproveReservation_refuses_collision Examples.env w
                   old newer _ _ _ _ _ _ _ _ _ _)).
  - apply valid_cons.
    + apply valid_singleton. unfold checks_ok. simpl.
      unfold Examples.t1000, Examples.t1100. lia.
    + constructor.
      * unfold checks_ok. simpl. unfold Examples.t1000, Examples.t1100. lia.
      * simpl. intros [H|[]]. discriminate.
      * intros x _ H. discriminate.
  - left. reflexivity.
  - right. left. reflexivity.
  - discriminate.
  - reflexivity.
  - reflexivity.
  - unfold intervals_overlap. simpl. unfold Examples.t1000, Examples.t1100. lia.
  - reflexivity.
  - reflexivity.
  - reflexivity.
Defined.

(** X7. Rejecting from the dashboard writes no audit row and shows the
    success toast in every session. In an administrator's session it marks
    the row [rejected], replaces its admin notes by the notes given (or by
    NULL), overwrites [updated_by] with the user [getUser] reports, with
    NULL when it reports none, and frees the slot: a new reservation
    colliding with no other active reservation is accepted afterwards. In
    a session that fails the UPDATE policy of the table no row changes,
    and the rejection e-mail is sent all the same. *)
Theorem handleRejectReservation_rejects env (adminNotes : option string)
    (w : World) (r : Reservation.t) :
  valid (reservations w) -> In r (reservations w) ->
  single_fault env (id r) = None -> update_fault env (id r) = None ->
  let w' := Admin.handleRejectReservation env (id r) adminNotes w in
  let r' := set_updated_at (db_now env)
              (Admin.reject_row adminNotes (Lib.current_admin env) r) in
  cancellations w' = cancellations w
  /\ toasts w' = toasts w ++ [Admin.reject_done]
  /\ (db_admin env = true ->
      reservations w' =
        map (rewritten (db_now env) (fun x => (id x =? id r)%string)
               (Admin.reject_row adminNotes (Lib.current_admin env)))
            (reservations w)
      /\ In r' (reservations w')
      /\ status r' = Status.rejected
      /\ admin_notes r' = (if Js.truthy_opt adminNotes then adminNotes else None)
      /\ updated_by r' = Lib.current_admin env
      /\ (forall n, checks_ok n -> ~ In (id n) (map id (reservations w)) ->
            (forall o, In o (reservations w) -> id o <> id r ->
                       active o = true -> excl_conflict n o = false) ->
            insert_reservation n (reservations w')
            = inr (reservations w' ++ [n])))
  /\ (db_admin env = false ->
      reservations w' = reservations w
      /\ (send_email_fails env = false ->
          exists m, outbox w' = outbox w ++ [m]
                    /\ email_type m = "reservation-rejected"%string
                    /\ recipient m = email r)).
Proof.
  intros Hv Hr Hs Hu w' r'.
  destruct (db_admin env) eqn:Hadm.
  - assert (Hw' : reservations w' =
      map (rewritten (db_now env) (fun x => (id x =? id r)%string)
             (Admin.reject_row adminNotes (Lib.current_admin env)))
          (reservations w)
      /\ cancellations w' = cancellations w
      /\ toasts w' = toasts w ++ [Admin.reject_done]).
    { unfold w', Admin.handleRejectReservation.
      rewrite (single_found env _ r (proj1 Hv) Hr Hs).
      unfold Admin.update_by_id. rewrite Hu.
      rewrite (rls_update_admin env _ _ _ Hadm).
      rewrite (update_reservations_keeps_slot _ (db_now env) _ (reservations w)
                 (keeps_slot_reject_row adminNotes (Lib.current_admin env)) Hv).
      unfold Lib.sendEmail. destruct (send_email_fails env); auto. }
    destruct Hw' as [Htbl [Hc Ht]].
    split; [exact Hc|]. split; [exact Ht|]. split; [|discriminate].
    intros _. split; [exact Htbl|].
    split.
    { rewrite Htbl. apply in_map_iff. exists r. split; [|exact Hr].
      unfold rewritten. rewrite String.eqb_refl. reflexivity. }
    do 3 (split; [reflexivity|]).
    intros n Hn Hfresh Hfree. rewrite Htbl.
    apply retired_slot_reopens; try assumption.
    + apply keeps_slot_reject_row.
    + reflexivity.
    + apply Hv.
  - assert (Hw' : exists m,
        w' = with_toast Admin.reject_done
               (Lib.sendEmail env m (with_reservations (reservations w) w))
        /\ email_type m = "reservation-rejected"%string
        /\ recipient m = email r).
    { unfold w', Admin.handleRejectReservation.
      rewrite (single_found env _ r (proj1 Hv) Hr Hs).
      rewrite (update_by_id_filtered env _ _ _ Hadm Hu).
      eexists. split; [reflexivity|]. split; reflexivity. }
    destruct Hw' as [m [Hw' [Hty Hrc]]].
    rewrite Hw'. unfold Lib.sendEmail.
    destruct (send_email_fails env) eqn:Hse; cbn;
      (split; [reflexivity|]); (split; [reflexivity|]);
      (split; [discriminate|]);
      intros _; (split; [reflexivity|]); intros Hf; try discriminate.
    exists m. split; [reflexivity|]. split; assumption.
Qed.

Lemma handleRejectReservation_rejects_witness :
  let w' := Admin.handleRejectReservation Examples.env_getUser_down "r1" None
              (Examples.world [Examples.touched_0900]) in
  db_admin Examples.env_getUser_down = true
  /\ map status (reservations w') = [Status.rejected]
  /\ map updated_by (reservations w') = [None]
  /\ cancellations w' = [].
Proof.
  intros w'. split; [reflexivity|].
  destruct (handleRejectReservation_rejects Examples.env_getUser_down None
              (Examples.world [Examples.touched_0900]) Examples.touched_0900)
    as [Hc [_ [Hyes _]]].
  - apply valid_singleton. unfold checks_ok. simpl.
    unfold Examples.t0900, Examples.t1000. lia.
  - left. reflexivity.
  - reflexivity.
  - reflexivity.
  - destruct (Hyes eq_refl) as [Htbl _].
    unfold w'. change "r1"%string with (id Examples.touched_0900).
    rewrite Htbl, Hc. repeat split; reflexivity.
Defined.

End Dashboard.

(* ------------------------------------------------------------------------- *)
(** ** What [blockTimeSlot] does before it fails *)

Section BlockingNetEffect.
Import Reservation Pg.
Local Open Scope Z_scope.
Local Open Scope list_scope.

Variable env : Env.
Hypothesis single_ok : forall i, single_fault env i = None.
Hypothesis update_ok : forall i, update_fault env i = None.
Hypothesis admin_session : db_admin env = true.

Lemma filter_both {A} (p q : A -> bool) (l : list A) :
  filter p (filter q l) = filter (fun x => q x && p x) l.
Proof.
  induction l as [|a l IH]; simpl; [reflexivity|].
  destruct (q a); simpl; [destruct (p a)|]; rewrite IH; reflexivity.
Qed.

Lemma insert_placeholder_fails (date reason : string) (s e : Time) (w : World) :
  exists err,
    Lib.insert_row env (Some (Lib.blockedReservation env date reason s e)) w
    = (inl err, count_insert_request w).
Proof.
  unfold Lib.insert_row. destruct (insert_fault env) as [e0|].
  - exists e0. reflexivity.
  - unfold insert_reservation, check_row. simpl. eexists. reflexivity.
Qed.

Lemma cancel_existing_spec (reason : string) (rows : list Reservation.t) :
  forall w, valid (reservations w) -> NoDup (map id rows) ->
  (forall a, In a rows -> In a (reservations w)) ->
  (forall a, In a rows -> Js.truthy (id a) = true) ->
  reservations (Lib.cancel_existing env reason rows w)
  = map (rewritten (db_now env)
           (Trigger.selected (filter Slot.not_admin rows))
           (Lib.soft_cancel (Lib.current_admin env) (Some reason)))
        (reservations w).
Proof.
  induction rows as [|a rest IH]; intros w Hv Hnd Hin Hid.
  - simpl. unfold rewritten, Trigger.selected. simpl. symmetry. apply map_id.
  - inversion Hnd as [|? ? Hfresh Hnd']; subst.
    cbn [Lib.cancel_existing filter]. unfold Slot.not_admin at 1.
    destruct (negb (responsable a =? "Admin")%string) eqn:Hadm.
    + destruct (deleteReservation_spec env (Some reason) w a Hv
                  (Hin a (or_introl eq_refl)) (Hid a (or_introl eq_refl))
                  admin_session
                  (single_ok (id a)) (update_ok (id a))) as [_ [Htbl _]].
      set (w1 := snd (Lib.deleteReservation env (id a) (Some reason) w)) in *.
      assert (Hv1 : valid (reservations w1)).
      { rewrite Htbl. apply valid_rewritten; [|exact Hv].
        apply keeps_slot_soft_cancel. }
      rewrite (IH w1 Hv1 Hnd').
      * rewrite Htbl, map_map. apply map_ext. intros r.
        unfold rewritten, Trigger.selected. simpl.
        destruct (id r =? id a)%string eqn:E; simpl.
        -- replace (existsb (fun a0 => (id r =? id a0)%string)
                      (filter Slot.not_admin rest)) with false; [reflexivity|].
           symmetry. apply not_true_is_false. intros Hex.
           apply existsb_exists in Hex as (x & Hx & Hidx).
           apply filter_In in Hx as [Hx _].
           apply String.eqb_eq in E. apply String.eqb_eq in Hidx.
           apply Hfresh. rewrite <- E, Hidx. apply in_map. assumption.
        -- reflexivity.
      * intros b Hb. rewrite Htbl. apply in_map_iff. exists b.
        split; [|apply Hin; right; exact Hb].
        unfold rewritten.
        replace (id b =? id a)%string with false; [reflexivity|].
        symmetry. apply String.eqb_neq. intros E. apply Hfresh.
        rewrite <- E. apply in_map. exact Hb.
      * intros b Hb. apply Hid. right. exact Hb.
    + apply IH; try assumption.
      * intros b Hb. apply Hin. right. exact Hb.
      * intros b Hb. apply Hid. right. exact Hb.
Qed.

(** X8. Before its insert fails, [blockTimeSlot] has already cancelled
    reservations, and not the ones overlapping the slot: with a working
    backend and in an administrator's session it cancels every reservation of the date that is not yet
    cancelled, is not owned by "Admin", and starts at or after the slot's
    start or ends at or before the slot's end; every other row is left
    as it was. So a reservation entirely after the slot is cancelled,
    while one that strictly contains the slot is kept. The call then
    throws and no placeholder is stored. *)
Theorem blockTimeSlot_cancels_then_throws (date startTime endTime reason : string)
    (s e : Time) (w : World) :
  valid (reservations w) ->
  select_fault env = None ->
  Rest.time_in startTime = Some s -> Rest.time_in endTime = Some e ->
  (forall r, In r (reservations w) -> Js.truthy (id r) = true) ->
  let out := Lib.blockTimeSlot env date startTime endTime reason w in
  (exists x, fst out = Js.Throw x)
  /\ reservations (snd out)
     = map (rewritten (db_now env) (Slot.cancelled_by_block date s e)
              (Lib.soft_cancel (Lib.current_admin env)
                 (Some (Slot.cancellationReason reason))))
           (reservations w)
  /\ (forall r, In r (reservations w) -> active r = true ->
        fecha r = date -> responsable r <> "Admin"%string ->
        s <= inicio r \/ fin r <= e ->
        exists r', In r' (reservations (snd out)) /\ id r' = id r
                   /\ status r' = Status.cancelled)
  /\ (forall r, In r (reservations w) ->
        inicio r < s -> e < fin r -> In r (reservations (snd out))).
Proof.
  intros Hv Hsel Hs He Hid out.
  assert (Htbl : (exists x, fst out = Js.Throw x)
     /\ reservations (snd out)
     = map (rewritten (db_now env) (Slot.cancelled_by_block date s e)
              (Lib.soft_cancel (Lib.current_admin env)
                 (Some (Slot.cancellationReason reason))))
           (reservations w)).
  { unfold out, Lib.blockTimeSlot, Lib.select_in_slot.
    rewrite Hsel, Hs, He.
    fold (Slot.queried date s e).
    fold (Slot.cancellationReason reason).
    set (rows := filter (Slot.queried date s e) (reservations w)).
    set (w1 := Lib.cancel_existing env (Slot.cancellationReason reason) rows w).
    assert (Hw1 : reservations w1
      = map (rewritten (db_now env) (Slot.cancelled_by_block date s e)
               (Lib.soft_cancel (Lib.current_admin env)
                  (Some (Slot.cancellationReason reason))))
            (reservations w)).
    { unfold w1. rewrite cancel_existing_spec.
      - apply map_ext_in. intros r Hr. unfold rewritten.
        unfold rows. rewrite filter_both.
        rewrite (selected_filter _ _ _ (proj1 Hv) Hr).
        reflexivity.
      - exact Hv.
      - apply pk_unique_filter. apply Hv.
      - intros a Ha. apply filter_In in Ha. apply Ha.
      - intros a Ha. apply filter_In in Ha. apply Hid, Ha. }
    destruct (insert_placeholder_fails date reason s e w1) as [err Herr].
    rewrite Herr. cbn [fst snd]. split; [eexists; reflexivity|].
    exact Hw1. }
  destruct Htbl as [Hthrow Htbl].
  split; [exact Hthrow|].
  split; [exact Htbl|]. split.
  - intros r Hr Hact Hd Hna Hafter.
    exists (set_updated_at (db_now env)
              (Lib.soft_cancel (Lib.current_admin env)
                 (Some (Slot.cancellationReason reason)) r)).
    split; [|split; reflexivity].
    rewrite Htbl. apply in_map_iff. exists r. split; [|exact Hr].
    unfold rewritten, Slot.cancelled_by_block, Slot.queried, Slot.not_admin.
    assert (Hst : Status.eqb (status r) Status.cancelled = false).
    { unfold active, status_not_in_cancelled_rejected in Hact.
      destruct (status r); simpl in *; congruence. }
    rewrite Hst, Hd, String.eqb_refl.
    assert (Hcond : ((s <=? inicio r) || (fin r <=? e)) = true).
    { apply orb_true_iff.
      destruct Hafter as [H|H]; [left|right]; apply Z.leb_le; exact H. }
    rewrite Hcond.
    apply String.eqb_neq in Hna. rewrite Hna. reflexivity.
  - intros r Hr Hi Hf. rewrite Htbl. apply in_map_iff. exists r.
    split; [|exact Hr].
    unfold rewritten, Slot.cancelled_by_block, Slot.queried.
    replace (s <=? inicio r) with false by (symmetry; apply Z.leb_gt; lia).
    replace (fin r <=? e) with false by (symmetry; apply Z.leb_gt; lia).
    rewrite andb_false_r. reflexivity.
Qed.

End BlockingNetEffect.

Lemma blockTimeSlot_cancels_then_throws_witness :
  let out := Lib.blockTimeSlot Examples.env "2025-08-10" "08:00" "09:00"
               "limpieza" (Examples.world [Examples.approved_0900]) in
  ~ (Reservation.inicio Examples.approved_0900 < Examples.t0900
     /\ Examples.t0800 < Reservation.fin Examples.approved_0900)%Z
  /\ map Reservation.status (reservations (snd out)) = [Status.cancelled]%list.
Proof.
  intros out. split.
  - simpl. unfold Examples.t0900. lia.
  - destruct (blockTimeSlot_cancels_then_throws Examples.env
                (fun _ => eq_refl) (fun _ => eq_refl) eq_refl
                "2025-08-10" "08:00" "09:00" "limpieza"
                Examples.t0800 Examples.t0900
                (Examples.world [Examples.approved_0900]%list))
      as [_ [Htbl _]].
    + exact approved_0900_valid.
    + reflexivity.
    + reflexivity.
    + reflexivity.
    + intros r [Hr|[]]. subst r. reflexivity.
    + unfold out. rewrite Htbl. reflexivity.
Defined.

(* ------------------------------------------------------------------------- *)
(** ** From a stored reservation to its confirmation *)

Section ConfirmationRoundTrip.
Import Reservation Pg.
Local Open Scope Z_scope.
Local Open Scope list_scope.

Lemma insert_row_ok env (r d : Reservation.t) (w w1 : World) :
  Lib.insert_row env (Some r) w = (inr d, w1) ->
  d = r
  /\ w1 = with_reservations (reservations w ++ [r]) (count_insert_request w)
  /\ check_row r (reservations w) = None.
Proof.
  unfold Lib.insert_row. destruct (insert_fault env); [discriminate|].
  unfold insert_reservation. cbn [reservations count_insert_request].
  destruct (check_row r (reservations w)) eqn:Hc; [discriminate|].
  intros H. injection H as Hd Hw. subst d w1. auto.
Qed.

Lemma sendEmail_rest env m (w : World) :
  toasts (Lib.sendEmail env m w) = toasts w
  /\ insert_requests (Lib.sendEmail env m w) = insert_requests w
  /\ blocked_dates (Lib.sendEmail env m w) = blocked_dates w.
Proof. unfold Lib.sendEmail. destruct (send_email_fails env); auto. Qed.

Lemma only_token (token : string) (tbl : table) (r : Reservation.t) :
  (forall o, In o tbl -> Page.has_token token o = false) ->
  Page.has_token token r = true ->
  filter (Page.has_token token) (tbl ++ [r]) = [r].
Proof.
  intros Hfresh Hr. rewrite filter_app, (filter_none _ tbl Hfresh).
  simpl. rewrite Hr. reflexivity.
Qed.

(** A token that exists but does not pass the filter of the update is
    reported as expired, whether or not the update request went through. *)
Lemma confirm_not_valid env token (w : World) (r : Reservation.t) :
  Js.truthy token = true -> select_fault env = None ->
  filter (Page.has_token token) (reservations w) = [r] ->
  Page.token_valid env token r = false ->
  Page.confirmReservation env (Some token) w
  = ({| Page.status := Page.expired; Page.reservationDetails := None |}, w).
Proof.
  intros Ht Hsel Hone Hbad. unfold Page.confirmReservation.
  rewrite Ht. cbn [negb]. cbv iota.
  unfold Page.select_by_token. rewrite Hsel, Hone.
  unfold Page.update_confirmed.
  destruct (confirm_fault env); [reflexivity|].
  destruct (db_admin env); [|reflexivity].
  rewrite (filter_token_valid env token _ r Hone), Hbad. reflexivity.
Qed.

(** X9. A confirmation succeeds exactly when the update request goes
    through, the session passes the UPDATE policy of the table (only
    administrators do) and the token has not expired; in every other case
    nothing is written, and (the second lookup working) the page says
    "expired", also when the only problem was a failed request or the
    visitor's session. *)
Theorem confirmReservation_success_iff env (token : string) (w : World)
    (r : Reservation.t) :
  valid (reservations w) -> Js.truthy token = true ->
  filter (Page.has_token token) (reservations w) = [r] ->
  let out := Page.confirmReservation env (Some token) w in
  (Page.status (fst out) = Page.success <->
   confirm_fault env = None /\ db_admin env = true
   /\ Page.token_valid env token r = true)
  /\ (Page.status (fst out) <> Page.success -> snd out = w)
  /\ (Page.status (fst out) <> Page.success -> select_fault env = None ->
      Page.status (fst out) = Page.expired).
Proof.
  intros Hv Ht Hone out.
  destruct (db_admin env) eqn:Hadm.
  2:{ assert (Hout : out =
        match Page.select_by_token env token (reservations w) with
        | Some _ => ({| Page.status := Page.expired;
                        Page.reservationDetails := None |}, w)
        | None => ({| Page.status := Page.error;
                      Page.reservationDetails := None |}, w)
        end).
      { unfold out, Page.confirmReservation, Page.update_confirmed.
        rewrite Ht, Hadm. destruct (confirm_fault env); reflexivity. }
      rewrite Hout. unfold Page.select_by_token. rewrite Hone.
      destruct (select_fault env); cbn [fst snd Page.status];
        (split; [split; [discriminate|intros [_ [? _]]; discriminate]|]);
        (split; [reflexivity|]); intros; congruence. }
  destruct (confirm_fault env) as [e|] eqn:Hf.
  - assert (Hout : out =
      match Page.select_by_token env token (reservations w) with
      | Some _ => ({| Page.status := Page.expired;
                      Page.reservationDetails := None |}, w)
      | None => ({| Page.status := Page.error;
                    Page.reservationDetails := None |}, w)
      end).
    { unfold out, Page.confirmReservation, Page.update_confirmed.
      rewrite Ht, Hf. reflexivity. }
    rewrite Hout. unfold Page.select_by_token. rewrite Hone.
    destruct (select_fault env); cbn [fst snd Page.status];
      (split; [split; [discriminate|intros [? _]; discriminate]|]);
      (split; [reflexivity|]); intros; congruence.
  - destruct (Page.token_valid env token r) eqn:Hok.
    + pose proof (confirm_in_time env token w r Hv Hf Hadm Ht Hone Hok) as H.
      cbv zeta in H. unfold out. rewrite H. cbn [fst snd Page.status].
      split; [split; auto|]. split; intros Hn; exfalso; apply Hn; reflexivity.
    + assert (Hout : out =
        match Page.select_by_token env token (reservations w) with
        | Some _ => ({| Page.status := Page.expired;
                        Page.reservationDetails := None |}, w)
        | None => ({| Page.status := Page.error;
                      Page.reservationDetails := None |}, w)
        end).
      { unfold out, Page.confirmReservation, Page.update_confirmed.
        rewrite Ht, Hf, Hadm.
        rewrite (filter_token_valid env token _ r Hone), Hok. reflexivity. }
      rewrite Hout. unfold Page.select_by_token. rewrite Hone.
      destruct (select_fault env); cbn [fst snd Page.status];
        (split; [split; [discriminate|intros [_ [_ ?]]; discriminate]|]);
        (split; [reflexivity|]); intros; congruence.
Qed.

Lemma confirmReservation_success_iff_witness :
  let out := Page.confirmReservation Examples.env_signed_out
               (Some "token-r1"%string)
               (Examples.world [Examples.pending_1000]) in
  Page.token_valid Examples.env_signed_out "token-r1" Examples.pending_1000
  = true
  /\ Page.status (fst out) <> Page.success
  /\ Page.status (fst out) = Page.expired.
Proof.
  intros out.
  destruct (confirmReservation_success_iff Examples.env_signed_out
              "token-r1"%string
              (Examples.world [Examples.pending_1000]) Examples.pending_1000)
    as [Hiff [_ Hexp]].
  - exact pending_1000_valid.
  - reflexivity.
  - reflexivity.
  - assert (Hno : Page.status (fst out) <> Page.success).
    { intros Hs. apply Hiff in Hs. destruct Hs as [_ [Hadm _]].
      discriminate Hadm. }
    split; [reflexivity|]. split; [exact Hno|].
    apply Hexp; [exact Hno|reflexivity].
Defined.

(** X10. Round trip of a booking made through the form: when
    [addReservation] returns a reservation, that reservation is stored
    pending and unconfirmed and the table still satisfies the schema. Its
    confirmation link, before 24 hours have passed since the submission
    (both moments read on the browser's clock), works in a session that
    passes the UPDATE policy of the table; in any other session, the
    visitor's anonymous one included, the page says "expired" and writes
    nothing; from 24 hours on it says "expired" in every session. *)
Theorem addReservation_then_confirm env (n : Hooks.NewReservation)
    (w w' : World) (r : Reservation.t) :
  valid (reservations w) ->
  Hooks.addReservation env n w = (Some r, w') ->
  Js.truthy (gen_random_token env) = true ->
  (forall o, In o (reservations w) ->
             Page.has_token (gen_random_token env) o = false) ->
  reservations w' = reservations w ++ [r]
  /\ valid (reservations w')
  /\ status r = Status.pending /\ confirmed r = false
  /\ toasts w' = toasts w
  /\ forall env', confirm_fault env' = None -> select_fault env' = None ->
       let out := Page.confirmReservation env'
                    (Some (gen_random_token env)) w' in
       (db_admin env' = true -> now env' < now env + 24 * 60 * 60 * 1000 ->
        Page.status (fst out) = Page.success
        /\ In (set_updated_at (db_now env') (Page.set_confirmed r))
              (reservations (snd out)))
       /\ (db_admin env' = false ->
           out = ({| Page.status := Page.expired;
                     Page.reservationDetails := None |}, w'))
       /\ (now env + 24 * 60 * 60 * 1000 <= now env' ->
           out = ({| Page.status := Page.expired;
                     Page.reservationDetails := None |}, w')).
Proof.
  intros Hv Hadd Htok Hfresh.
  unfold Hooks.addReservation in Hadd.
  destruct (Hooks.insertData env n) as [r0|] eqn:Hrow.
  2:{ unfold Lib.insert_row in Hadd.
      destruct (insert_fault env); discriminate. }
  destruct (Lib.insert_row env (Some r0) w) as [[err|d] w1] eqn:Hins;
    [discriminate|].
  destruct (insert_row_ok env r0 d w w1 Hins) as [Hd [Hw1 Hck]]. subst d.
  injection Hadd as Hr Hw'. subst r0.
  assert (Hres : reservations w' = reservations w ++ [r]).
  { rewrite <- Hw'.
    rewrite (proj1 (sendEmail_tables env _ w1)). rewrite Hw1. reflexivity. }
  assert (Hto : toasts w' = toasts w).
  { rewrite <- Hw'.
    rewrite (proj1 (sendEmail_rest env _ w1)). rewrite Hw1. reflexivity. }
  assert (Hv' : valid (reservations w')).
  { rewrite Hres. apply (insert_reservation_valid r (reservations w)); [exact Hv|].
    unfold insert_reservation. rewrite Hck. reflexivity. }
  assert (Hfields : status r = Status.pending /\ confirmed r = false
            /\ confirmation_token r = Some (gen_random_token env)
            /\ token_expires_at r = Some (now env + 24 * 60 * 60 * 1000)).
  { unfold Hooks.insertData in Hrow.
    destruct (Rest.time_in (Hooks.inicio n)); [|discriminate].
    destruct (Rest.time_in (Hooks.fin n)); [|discriminate].
    injection Hrow as Hrow. subst r. simpl. auto. }
  destruct Hfields as [Hst [Hcf [Htk Hex]]].
  split; [exact Hres|]. split; [exact Hv'|].
  split; [exact Hst|]. split; [exact Hcf|]. split; [exact Hto|].
  intros env' Hcf' Hsel' out.
  assert (Hone : filter (Page.has_token (gen_random_token env))
                   (reservations w') = [r]).
  { rewrite Hres. apply only_token; [exact Hfresh|].
    unfold Page.has_token. rewrite Htk. apply String.eqb_refl. }
  assert (Hvalid : Page.token_valid env' (gen_random_token env) r
                   = (now env' <? now env + 24 * 60 * 60 * 1000)).
  { unfold Page.token_valid. rewrite Htk, Hex, String.eqb_refl. reflexivity. }
  split; [|split].
  - intros Hadm' Hnow.
    assert (Hok : Page.token_valid env' (gen_random_token env) r = true).
    { rewrite Hvalid. apply Z.ltb_lt. exact Hnow. }
    pose proof (confirm_in_time env' (gen_random_token env) w' r
                  Hv' Hcf' Hadm' Htok Hone Hok) as H.
    cbv zeta in H. unfold out. unfold Uuid in *. rewrite H.
    cbn [fst snd Page.status].
    split; [reflexivity|].
    cbn [reservations with_reservations].
    apply in_map_iff. exists r. split.
    + unfold rewritten. rewrite Hok. reflexivity.
    + rewrite Hres. apply in_or_app. right. left. reflexivity.
  - intros Hadm'. unfold out.
    apply (confirm_filtered env' _ w' r); assumption.
  - intros Hlate. unfold out.
    apply (confirm_not_valid env' _ w' r); try assumption.
    rewrite Hvalid. apply Z.ltb_ge. exact Hlate.
Qed.

Lemma addReservation_then_confirm_witness :
  exists r w',
    Hooks.addReservation Examples.env Examples.second_submission
      (Examples.world []) = (Some r, w')
    /\ reservations w' = [r]
    /\ status r = Status.pending
    /\ Page.status
         (fst (Page.confirmReservation Examples.env
                 (Some (gen_random_token Examples.env)) w')) = Page.success
    /\ Page.confirmReservation Examples.env_signed_out
         (Some (gen_random_token Examples.env)) w'
       = ({| Page.status := Page.expired; Page.reservationDetails := None |},
          w').
Proof.
  eexists. eexists. split; [reflexivity|].
  match goal with
  | |- reservations ?w' = [?r] /\ _ =>
      destruct (addReservation_then_confirm Examples.env
                  Examples.second_submission (Examples.world []) w' r)
        as [Hres [_ [Hst [_ [_ Hlink]]]]]
  end.
  - exact valid_nil.
  - reflexivity.
  - reflexivity.
  - intros o [].
  - split; [exact Hres|]. split; [exact Hst|]. split.
    + destruct (Hlink Examples.env eq_refl eq_refl) as [Hin _].
      refine (proj1 (Hin eq_refl _)). vm_compute. reflexivity.
    + destruct (Hlink Examples.env_signed_out eq_refl eq_refl)
        as [_ [Hout _]].
      exact (Hout eq_refl).
Defined.

(** X11. A reservation stored by the library's [createReservation] can
    never be confirmed: its row is inserted without [token_expires_at],
    so the confirmation page answers "expired" to its token at any moment,
    and the row stays unconfirmed. *)
Theorem createReservation_never_confirmable env (input : Booking.ReservationInput)
    (w w' : World) (r : Reservation.t) :
  Booking.createReservation env input w = (Js.Return r, w') ->
  Js.truthy (gen_random_token env) = true ->
  (forall o, In o (reservations w) ->
             Page.has_token (gen_random_token env) o = false) ->
  reservations w' = reservations w ++ [r]
  /\ confirmation_token r = Some (gen_random_token env)
  /\ token_expires_at r = None /\ confirmed r = false
  /\ responsable r = Lib.sanitizeInput (Some (Booking.responsable input))
  /\ forall env', select_fault env' = None ->
       Page.confirmReservation env' (Some (gen_random_token env)) w'
       = ({| Page.status := Page.expired; Page.reservationDetails := None |},
          w').
Proof.
  intros Hcreate Htok Hfresh.
  unfold Booking.createReservation in Hcreate.
  destruct (negb (Booking.checkAvailability _ _ _ _ _)); [discriminate|].
  destruct (Booking.stored_row env (Booking.sanitizeReservation input))
    as [e|r0] eqn:Hrow.
  { unfold Booking.insert_stored in Hcreate.
    destruct (insert_fault env); discriminate. }
  unfold Booking.insert_stored in Hcreate.
  destruct (Lib.insert_row env (Some r0) w) as [[err|d] w1] eqn:Hins;
    [discriminate|].
  destruct (insert_row_ok env r0 d w w1 Hins) as [Hd [Hw1 Hck]]. subst d.
  injection Hcreate as Hr Hw'. subst r0.
  assert (Hres : reservations w' = reservations w ++ [r]).
  { rewrite <- Hw'.
    rewrite (proj1 (sendEmail_tables env _ _)).
    rewrite (proj1 (sendEmail_tables env _ _)).
    rewrite Hw1. reflexivity. }
  assert (Hfields : confirmation_token r = Some (gen_random_token env)
            /\ token_expires_at r = None /\ confirmed r = false
            /\ responsable r
               = Lib.sanitizeInput (Some (Booking.responsable input))).
  { unfold Booking.stored_row in Hrow.
    destruct (_ || _); [discriminate|].
    destruct (Booking.parsed _); [|discriminate].
    destruct (Booking.parsed _); [|discriminate].
    destruct (Booking.or_num _ _); [|discriminate].
    injection Hrow as Hrow. subst r. simpl. auto. }
  destruct Hfields as [Htk [Hex [Hcf Hresp]]].
  split; [exact Hres|]. split; [exact Htk|]. split; [exact Hex|].
  split; [exact Hcf|]. split; [exact Hresp|].
  intros env' Hsel'.
  apply (confirm_not_valid env' _ w' r); try assumption.
  - rewrite Hres. apply only_token; [exact Hfresh|].
    unfold Page.has_token. rewrite Htk. apply String.eqb_refl.
  - unfold Page.token_valid. rewrite Htk, Hex. reflexivity.
Qed.

Lemma createReservation_never_confirmable_witness :
  exists r w',
    Booking.createReservation Examples.env Samples.walk_in (Examples.world [])
    = (Js.Return r, w')
    /\ responsable r = "Sean ONeil"%string
    /\ token_expires_at r = None
    /\ Page.status
         (fst (Page.confirmReservation Examples.env (Some "new-token"%string) w'))
       = Page.expired.
Proof.
  eexists. eexists. split; [reflexivity|].
  match goal with
  | |- responsable ?r = _ /\ _ /\ Page.status (fst (_ _ _ ?w')) = _ =>
      destruct (createReservation_never_confirmable Examples.env
                  Samples.walk_in (Examples.world []) w' r)
        as [_ [_ [Hex [_ [Hresp Hpage]]]]]
  end.
  - reflexivity.
  - reflexivity.
  - intros o [].
  - split; [rewrite Hresp; reflexivity|]. split; [exact Hex|].
    change (@Some string "new-token"%string)
      with (Some (gen_random_token Examples.env)).
    rewrite (Hpage Examples.env eq_refl). reflexivity.
Defined.

(** X12. The pre-check of [createReservation] refuses before anything
    is sent to the table: when the availability query fails, or when some
    reservation of that date that is not cancelled (a rejected one
    included) overlaps the requested times in the text comparison, the
    call throws the "not available" error and the backend is left
    untouched: no insert request, no e-mail. *)
Theorem createReservation_unavailable env (input : Booking.ReservationInput)
    (w : World) :
  let s := Booking.sanitizeReservation input in
  let startTime := Js.or (Booking.inicio s) (Booking.horaInicio s) in
  let endTime := Js.or (Booking.fin s) (Booking.horaFin s) in
  select_fault env <> None
  \/ (exists o, In o (reservations w) /\ status o <> Status.cancelled
                /\ fecha o = Booking.fecha s
                /\ Booking.hasOverlap startTime endTime o = true) ->
  Booking.createReservation env input w
  = (Js.Throw (Js.Error Booking.unavailable), w).
Proof.
  intros s startTime endTime H.
  unfold Booking.createReservation.
  fold s. fold startTime. fold endTime.
  assert (Hno : Booking.checkAvailability env (Booking.fecha s)
                  startTime endTime w = false).
  { unfold Booking.checkAvailability.
    destruct (select_fault env); [reflexivity|].
    destruct H as [H|[o [Ho [Hst [Hd Hov]]]]]; [congruence|].
    apply negb_false_iff. apply existsb_exists. exists o.
    split; [|exact Hov].
    unfold Lib.select_not_cancelled. apply filter_In. split; [exact Ho|].
    rewrite Hd, String.eqb_refl.
    destruct (status o); simpl; congruence. }
  rewrite Hno. reflexivity.
Qed.

Lemma createReservation_unavailable_witness :
  let w := Examples.world [Examples.rejected_1000] in
  Booking.createReservation Examples.env Samples.walk_in w
  = (Js.Throw (Js.Error Booking.unavailable), w)
  /\ exists row tbl,
       Booking.stored_row Examples.env
         (Booking.sanitizeReservation Samples.walk_in) = inr row
       /\ insert_reservation row (reservations w) = inr tbl.
Proof.
  intros w. split.
  - apply (createReservation_unavailable Examples.env Samples.walk_in w).
    right. exists Examples.rejected_1000.
    split; [left; reflexivity|]. split; [discriminate|].
    split; reflexivity.
  - eexists. eexists. split; reflexivity.
Defined.

End ConfirmationRoundTrip.

(* ------------------------------------------------------------------------- *)
(** ** The cascade of a block: what it leaves behind and whom it tells *)

Section CascadeEffects.
Import Reservation Pg.
Local Open Scope Z_scope.
Local Open Scope list_scope.

Lemma time_order_of_insert env (NEW : BlockedDate.t) (w w' : World) :
  Trigger.insert_blocked_date env NEW w = inr w' ->
  Trigger.blocked_dates_time_order_check NEW = true.
Proof.
  unfold Trigger.insert_blocked_date.
  destruct (Trigger.blocked_dates_time_order_check NEW); [reflexivity|].
  discriminate.
Qed.

Lemma valid_checks (tbl : table) (r : Reservation.t) :
  valid tbl -> In r tbl -> checks_ok r.
Proof.
  intros [_ [Hall _]] Hr. rewrite Forall_forall in Hall. apply Hall, Hr.
Qed.

(** X13. After a block has been inserted, the blocked range is clear:
    no active reservation of that date overlaps a block with both bounds,
    no active reservation of that date remains at all after a full-day
    block, and reservations of other dates are exactly as before. *)
Theorem cascade_clears_blocked_range env (NEW : BlockedDate.t) (w w' : World) :
  valid (reservations w) ->
  Trigger.insert_blocked_date env NEW w = inr w' ->
  (forall s e r', BlockedDate.start_time NEW = Some s ->
      BlockedDate.end_time NEW = Some e ->
      In r' (reservations w') -> fecha r' = BlockedDate.fecha NEW ->
      active r' = true -> ~ (inicio r' < e /\ s < fin r'))
  /\ (forall r', BlockedDate.start_time NEW = None ->
        BlockedDate.end_time NEW = None ->
        In r' (reservations w') -> fecha r' = BlockedDate.fecha NEW ->
        active r' = false)
  /\ (forall r, In r (reservations w) -> fecha r <> BlockedDate.fecha NEW ->
        In r (reservations w')).
Proof.
  intros Hv Hins.
  destruct (insert_blocked_date_spec env NEW w w' Hv Hins) as [Htbl _].
  pose proof (time_order_of_insert env NEW w w' Hins) as Hord.
  split; [|split].
  - intros s e r' Hs He Hr' Hd Hact [Hlt1 Hlt2].
    rewrite Htbl in Hr'. apply in_map_iff in Hr'.
    destruct Hr' as [r [Hr0 Hr]]. unfold rewritten in Hr0.
    destruct (Trigger.affected NEW r) eqn:Haff.
    + subst r'. discriminate.
    + subst r'.
      assert (Hse : s < e).
      { unfold Trigger.blocked_dates_time_order_check in Hord.
        rewrite Hs, He in Hord. apply Z.ltb_lt. exact Hord. }
      destruct (valid_checks _ r Hv Hr) as [Hck _].
      assert (Trigger.affected NEW r = true); [|congruence].
      apply (affected_iff_overlap NEW r s e Hs He Hse Hck). auto.
  - intros r' Hs He Hr' Hd.
    rewrite Htbl in Hr'. apply in_map_iff in Hr'.
    destruct Hr' as [r [Hr0 Hr]]. unfold rewritten in Hr0.
    destruct (Trigger.affected NEW r) eqn:Haff.
    + subst r'. reflexivity.
    + subst r'. unfold Trigger.affected in Haff.
      rewrite Hs, He, Hd, String.eqb_refl in Haff. simpl in Haff.
      rewrite andb_true_r in Haff. exact Haff.
  - intros r Hr Hd. rewrite Htbl. apply in_map_iff. exists r.
    split; [|exact Hr]. unfold rewritten, Trigger.affected.
    apply String.eqb_neq in Hd. rewrite Hd. reflexivity.
Qed.

Lemma cascade_clears_blocked_range_witness :
  exists w',
    Trigger.insert_blocked_date Examples.env Examples.maintenance
      (Examples.world [Examples.approved_0900]) = inr w'
    /\ forall r', In r' (reservations w') ->
         fecha r' = "2025-08-10"%string -> active r' = true ->
         ~ (inicio r' < Examples.t1200 /\ Examples.t0800 < fin r').
Proof.
  eexists. split; [reflexivity|].
  intros r' Hr' Hd Hact.
  match goal with
  | H : In r' (reservations ?w') |- _ =>
      destruct (cascade_clears_blocked_range Examples.env Examples.maintenance
                  (Examples.world [Examples.approved_0900]) w'
                  approved_0900_valid eq_refl) as [Hclear _]
  end.
  apply (Hclear Examples.t0800 Examples.t1200 r'); auto.
Defined.

(** The e-mails one run of the loop queues, in the order of its
    iterations: one per row whose [http_post] does not raise. *)
Lemma cancel_loop_outbox env (NEW : BlockedDate.t) (rows : list Reservation.t) :
  forall w w', Trigger.cancel_loop env NEW rows w = inr w' ->
  outbox w' =
    outbox w ++
    match service_role_key env with
    | Some _ => map (Notice.cancelled_mail NEW)
                  (filter (fun a => negb (http_post_raises env (id a))) rows)
    | None => []
    end.
Proof.
  induction rows as [|a rest IH]; intros w w' Hrun; simpl in Hrun.
  - injection Hrun as Hrun. subst w'.
    destruct (service_role_key env); simpl; rewrite app_nil_r; reflexivity.
  - destruct (update_reservations _ _ _ _) as [e|tbl]; [discriminate|].
    rewrite (IH _ _ Hrun). unfold Trigger.notify.
    destruct (service_role_key env); simpl; [|reflexivity].
    destruct (http_post_raises env (id a)); simpl; [reflexivity|].
    rewrite <- app_assoc. reflexivity.
Qed.

Lemma insert_blocked_date_outbox env (NEW : BlockedDate.t) (w w' : World) :
  Trigger.insert_blocked_date env NEW w = inr w' ->
  outbox w' =
    outbox w ++
    (match service_role_key env with
     | Some _ => map (Notice.cancelled_mail NEW)
                   (filter (fun a => negb (http_post_raises env (id a)))
                      (filter (Trigger.affected NEW) (reservations w)))
     | None => []
     end).
Proof.
  intros Hins.
  unfold Trigger.insert_blocked_date in Hins.
  destruct (negb (Trigger.blocked_dates_time_order_check NEW)); [discriminate|].
  destruct (existsb _ (blocked_dates w)); [discriminate|].
  unfold Trigger.cancel_reservations_in_blocked_range in Hins.
  rewrite (cancel_loop_outbox env NEW _ _ _ Hins). reflexivity.
Qed.

(** X14. The notifications of the cascade: with the service key in the
    Vault, exactly one "reservation-cancelled" e-mail carrying the block's
    reason is queued for each cancelled reservation whose [http_post] does
    not raise, and none for one whose [http_post] raises (each call is
    caught on its own); the order of the e-mails is the order in which the
    query hands out the rows, which the statement leaves open, so it is
    stated up to a permutation. Without the key none is queued. The
    reservations are cancelled all the same. *)
Theorem cascade_notifies_each_cancelled env (NEW : BlockedDate.t) (w w' : World) :
  valid (reservations w) ->
  Trigger.insert_blocked_date env NEW w = inr w' ->
  (exists sent,
     outbox w' = outbox w ++ sent
     /\ match service_role_key env with
        | Some _ =>
            Permutation sent
              (map (Notice.cancelled_mail NEW)
                 (filter (fun r => Trigger.affected NEW r
                                   && negb (http_post_raises env (id r)))
                    (reservations w)))
        | None => sent = []
        end)
  /\ reservations w' =
       map (rewritten (db_now env) (Trigger.affected NEW)
              (Trigger.cancel_row NEW (db_now env))) (reservations w).
Proof.
  intros Hv Hins.
  split; [|apply (insert_blocked_date_spec env NEW w w' Hv Hins)].
  eexists. split; [apply insert_blocked_date_outbox; exact Hins|].
  destruct (service_role_key env); [|reflexivity].
  rewrite filter_both. apply Permutation_refl.
Qed.

Lemma cascade_notifies_each_cancelled_witness :
  exists w',
    Trigger.insert_blocked_date Examples.env Examples.maintenance
      (Examples.world [Examples.approved_0900]) = inr w'
    /\ exists sent,
         outbox w' = sent
         /\ Permutation sent
              [Notice.cancelled_mail Examples.maintenance
                 Examples.approved_0900].
Proof.
  eexists. split; [reflexivity|].
  match goal with
  | |- exists sent, outbox ?w' = sent /\ _ =>
      destruct (cascade_notifies_each_cancelled Examples.env
                  Examples.maintenance
                  (Examples.world [Examples.approved_0900]) w'
                  approved_0900_valid eq_refl) as [[sent [Hout Hperm]] _]
  end.
  exists sent. split; [rewrite Hout; reflexivity|exact Hperm].
Defined.

End CascadeEffects.

(* ------------------------------------------------------------------------- *)
(** ** The calendar's view of blocks *)

Section CalendarView.
Import Reservation Pg.
Local Open Scope Z_scope.
Local Open Scope list_scope.

Lemma time_out_truthy (t : Time) : Js.truthy (Rest.time_out t) = true.
Proof. reflexivity. Qed.

Lemma ltb_proper_prefix (s x : string) :
  x <> ""%string -> String.ltb s (s ++ x) = true.
Proof.
  intros Hx. unfold String.ltb.
  induction s as [|c s IH]; simpl.
  - destruct x; [contradiction|reflexivity].
  - assert (Ascii.compare c c = Eq) as Hc.
    { pose proof (string_compare_refl (String c "")) as H. simpl in H.
      destruct (Ascii.compare c c); congruence. }
    rewrite Hc. exact IH.
Qed.

(** X15. Overlap of two time ranges as the calendar computes it, on the
    texts of the times: it is symmetric in the two ranges; two ranges
    that touch at an endpoint written with the same text do not overlap;
    a range that starts before it ends overlaps itself. But the form
    writes times as HH:MM and the database returns them as HH:MM:SS, and
    a text is smaller than every proper extension of itself: a range
    whose end is the start of the other followed by more characters
    overlaps it as soon as the other ends after the range starts, so a
    block 09:00:00-10:00:00 overlaps the slot 10:00-11:00. *)
Theorem doTimeRangesOverlap_on_texts (start1 end1 start2 end2 : string) :
  Hooks.doTimeRangesOverlap start1 end1 start2 end2
  = Hooks.doTimeRangesOverlap start2 end2 start1 end1
  /\ Hooks.doTimeRangesOverlap start1 end1 end1 end2 = false
  /\ Hooks.doTimeRangesOverlap start1 end1 start2 start1 = false
  /\ (Js.before start1 end1 ->
      Hooks.doTimeRangesOverlap start1 end1 start1 end1 = true)
  /\ (forall suffix, suffix <> ""%string ->
      Hooks.doTimeRangesOverlap start1 end1 start2 (start1 ++ suffix)
      = Js.gt (Some end1) (Some start2)).
Proof.
  unfold Hooks.doTimeRangesOverlap, Js.gt, Js.lt.
  assert (Hirr : forall a, String.ltb a a = false).
  { intros a. apply not_true_is_false. intros H.
    apply ltb_before in H. exact (before_irrefl a H). }
  split; [apply andb_comm|].
  split; [rewrite Hirr; apply andb_false_r|].
  split; [rewrite Hirr; reflexivity|].
  split.
  - intros H. apply ltb_before in H. rewrite H. reflexivity.
  - intros suffix Hs. rewrite (ltb_proper_prefix start1 suffix Hs).
    reflexivity.
Qed.

Lemma doTimeRangesOverlap_on_texts_witness :
  Hooks.doTimeRangesOverlap "10:00" "11:00" "09:00" "10:00" = false
  /\ Hooks.doTimeRangesOverlap "10:00" "11:00" "09:00:00" "10:00:00" = true.
Proof.
  split.
  - exact (proj1 (proj2 (proj2
             (doTimeRangesOverlap_on_texts "10:00" "11:00" "09:00" "10:00")))).
  - change "10:00:00"%string with ("10:00" ++ ":00")%string.
    rewrite (proj2 (proj2 (proj2 (proj2
               (doTimeRangesOverlap_on_texts "10:00" "11:00" "09:00:00"
                  "10:00:00")))) ":00"%string); [reflexivity|discriminate].
Defined.

(** X16. A time slot is only ever reported blocked on a day that carries
    a block: [isTimeSlotWithinBlockedPeriod] implies
    [isDateWithinBlockedPeriod], and on a day without any block every
    slot is free. *)
Theorem isTimeSlotWithinBlockedPeriod_needs_blocked_day (date : Hooks.JsDate)
    (startTime endTime : string) (blockedDates : list Calendar.BlockedDate) :
  (Calendar.isTimeSlotWithinBlockedPeriod date startTime endTime blockedDates
   = true ->
   Calendar.isDateWithinBlockedPeriod date blockedDates = true)
  /\ ((forall b, In b blockedDates ->
         Calendar.isSameDay date (Calendar.fecha b) = false) ->
      Calendar.isTimeSlotWithinBlockedPeriod date startTime endTime blockedDates
      = false).
Proof.
  unfold Calendar.isTimeSlotWithinBlockedPeriod,
    Calendar.isDateWithinBlockedPeriod.
  split.
  - intros H. apply existsb_exists in H. destruct H as [b [Hb Hhit]].
    apply existsb_exists. exists b. split; [exact Hb|].
    destruct (Calendar.isSameDay date (Calendar.fecha b)); [reflexivity|].
    discriminate.
  - intros Hnone. apply not_true_is_false. intros H.
    apply existsb_exists in H. destruct H as [b [Hb Hhit]].
    rewrite (Hnone b Hb) in Hhit. discriminate.
Qed.

Lemma isTimeSlotWithinBlockedPeriod_needs_blocked_day_witness :
  let day := {| Hooks.getFullYear := 2025; Hooks.getMonth := 7;
                Hooks.getDate := 10 |} in
  let blocks := [{| Calendar.fecha := day;
                    Calendar.start_time := Some "08:00:00"%string;
                    Calendar.end_time := Some "12:00:00"%string |}] in
  Calendar.isTimeSlotWithinBlockedPeriod day "09:00" "10:00" blocks = true
  /\ Calendar.isDateWithinBlockedPeriod day blocks = true.
Proof.
  intros day blocks. split; [reflexivity|].
  apply (proj1 (isTimeSlotWithinBlockedPeriod_needs_blocked_day day
                  "09:00" "10:00" blocks)).
  reflexivity.
Defined.

(** X17. A block stored with only one of its two time bounds is read in
    two ways: the trigger cancels no reservation for it, while the
    calendar shows every slot of that day as blocked. *)
Theorem half_bounded_block_diverges env (NEW : BlockedDate.t)
    (dateObj : Hooks.JsDate) (w w' : World) :
  (BlockedDate.start_time NEW = None /\ BlockedDate.end_time NEW <> None)
  \/ (BlockedDate.start_time NEW <> None /\ BlockedDate.end_time NEW = None) ->
  valid (reservations w) ->
  Trigger.insert_blocked_date env NEW w = inr w' ->
  reservations w' = reservations w
  /\ outbox w' = outbox w
  /\ forall date startTime endTime,
       Calendar.isSameDay date dateObj = true ->
       Calendar.isTimeSlotWithinBlockedPeriod date startTime endTime
         [Calendar.formatted NEW dateObj] = true.
Proof.
  intros Hhalf Hv Hins.
  assert (Hnone : forall r, Trigger.affected NEW r = false).
  { intros r. unfold Trigger.affected.
    destruct Hhalf as [[Hs He]|[Hs He]];
      destruct (BlockedDate.start_time NEW), (BlockedDate.end_time NEW);
      try congruence; apply andb_false_r. }
  pose proof (insert_blocked_date_outbox env NEW w w' Hins) as Hout.
  destruct (insert_blocked_date_spec env NEW w w' Hv Hins) as [Htbl _].
  split; [|split].
  - rewrite Htbl. rewrite <- (map_id (reservations w)) at 2.
    apply map_ext. intros r. unfold rewritten. rewrite Hnone. reflexivity.
  - rewrite Hout. rewrite (filter_none _ _ (fun y _ => Hnone y)).
    destruct (service_role_key env); apply app_nil_r.
  - intros date startTime endTime Hday.
    unfold Calendar.isTimeSlotWithinBlockedPeriod, Calendar.formatted.
    simpl. rewrite Hday. simpl.
    destruct Hhalf as [[Hs He]|[Hs He]]; rewrite Hs || rewrite He;
      destruct (BlockedDate.start_time NEW), (BlockedDate.end_time NEW);
      try congruence; reflexivity.
Qed.

Lemma half_bounded_block_diverges_witness :
  let NEW := Examples.block "2025-08-10" (Some Examples.t0800) None None in
  let day := {| Hooks.getFullYear := 2025; Hooks.getMonth := 7;
                Hooks.getDate := 10 |} in
  exists w',
    Trigger.insert_blocked_date Examples.env NEW
      (Examples.world [Examples.approved_0900]) = inr w'
    /\ map status (reservations w') = [Status.approved]
    /\ Calendar.isTimeSlotWithinBlockedPeriod day "09:00" "10:00"
         [Calendar.formatted NEW day] = true.
Proof.
  intros NEW day. eexists. split; [reflexivity|].
  match goal with
  | |- map status (reservations ?w') = _ /\ _ =>
      destruct (half_bounded_block_diverges Examples.env NEW day
                  (Examples.world [Examples.approved_0900]) w')
        as [Htbl [_ Hcal]]
  end.
  - right. split; [discriminate|reflexivity].
  - exact approved_0900_valid.
  - reflexivity.
  - split; [rewrite Htbl; reflexivity|].
    apply Hcal. reflexivity.
Defined.

End CalendarView.

(* ------------------------------------------------------------------------- *)
(** ** Hard deletes *)

Section HardDeletes.
Import Reservation Pg.
Local Open Scope Z_scope.
Local Open Scope list_scope.

Lemma cascade_delete_references p (w : World) :
  Store.references_ok w -> Store.references_ok (Store.cascade_delete p w).
Proof.
  intros Hok c Hc. simpl in Hc. apply filter_In in Hc.
  destruct Hc as [Hc Hkeep]. destruct (Hok c Hc) as [r [Hr Hid]].
  exists r. split; [|exact Hid]. simpl. unfold delete_reservations.
  apply filter_In. split; [exact Hr|].
  destruct (p r) eqn:Hp; [|reflexivity]. exfalso.
  apply negb_true_iff in Hkeep.
  assert (existsb (fun r0 => (id r0 =? Cancellation.reservation_id c)%string)
            (filter p (reservations w)) = true); [|congruence].
  apply existsb_exists. exists r. split.
  - apply filter_In. auto.
  - apply String.eqb_eq. exact Hid.
Qed.

Lemma cascade_delete_drops_audit p (w : World) (r : Reservation.t)
    (c : Cancellation.t) :
  In r (reservations w) -> p r = true ->
  Cancellation.reservation_id c = id r ->
  ~ In c (cancellations (Store.cascade_delete p w)).
Proof.
  intros Hr Hp Hid Hc. simpl in Hc. apply filter_In in Hc.
  destruct Hc as [_ Hkeep]. apply negb_true_iff in Hkeep.
  assert (existsb (fun r0 => (id r0 =? Cancellation.reservation_id c)%string)
            (filter p (reservations w)) = true); [|congruence].
  apply existsb_exists. exists r. split.
  - apply filter_In. auto.
  - apply String.eqb_eq. symmetry. exact Hid.
Qed.

(** X18. The cleanup function answers 200 exactly when it is configured
    and the delete goes through; otherwise it changes nothing. On success
    it removes the reservations that are unconfirmed and were created more
    than 24 hours before, whatever their status, together with their
    audit rows; confirmed reservations and younger ones stay as they
    are, the schema constraints still hold and every remaining audit row
    still points to a stored reservation. *)
Theorem cleanup_removes_stale_unconfirmed (e : Sweep.SweepEnv) (w : World) :
  valid (reservations w) -> Store.references_ok w ->
  let out := Sweep.cleanup e w in
  (Sweep.status (fst out) = 200 <->
   Js.truthy_opt (Sweep.SUPABASE_URL e) = true
   /\ Js.truthy_opt (Sweep.SUPABASE_SERVICE_ROLE_KEY e) = true
   /\ Sweep.delete_fault e = None)
  /\ (Sweep.status (fst out) <> 200 -> snd out = w)
  /\ (Sweep.status (fst out) = 200 ->
      (forall r, In r (reservations (snd out)) <->
         In r (reservations w)
         /\ (confirmed r = true
             \/ Sweep.Date_now e - 24 * 60 * 60 * 1000 <= created_at r))
      /\ (forall r c, In r (reservations w) ->
            ~ In r (reservations (snd out)) ->
            Cancellation.reservation_id c = id r ->
            ~ In c (cancellations (snd out)))
      /\ valid (reservations (snd out))
      /\ Store.references_ok (snd out)).
Proof.
  intros Hv Hok out. unfold out, Sweep.cleanup.
  destruct (Js.truthy_opt (Sweep.SUPABASE_URL e)) eqn:Hu;
    destruct (Js.truthy_opt (Sweep.SUPABASE_SERVICE_ROLE_KEY e)) eqn:Hk;
    cbn [negb orb];
    try (cbn [fst snd Sweep.status]; split;
         [split; [discriminate|intros [? [? ?]]; discriminate]|
          split; [reflexivity|discriminate]]).
  destruct (Sweep.delete_fault e) as [err|] eqn:Hf; cbn [fst snd Sweep.status].
  - split; [split; [discriminate|intros [? [? ?]]; discriminate]|].
    split; [reflexivity|discriminate].
  - split; [split; auto|].
    split; [intros Hn; exfalso; apply Hn; reflexivity|].
    intros _.
    assert (Hin : forall r, In r (reservations (Store.cascade_delete (Sweep.stale e) w))
              <-> In r (reservations w)
                  /\ (confirmed r = true
                      \/ Sweep.Date_now e - 24 * 60 * 60 * 1000 <= created_at r)).
    { intros r. simpl. unfold delete_reservations. rewrite filter_In.
      unfold Sweep.stale, Sweep.cutoff.
      split; intros [Hr Hc]; (split; [exact Hr|]).
      - apply negb_true_iff, andb_false_iff in Hc.
        destruct Hc as [Hc|Hc].
        + left. apply negb_false_iff. exact Hc.
        + right. apply Z.ltb_ge. exact Hc.
      - apply negb_true_iff, andb_false_iff.
        destruct Hc as [Hc|Hc].
        + left. rewrite Hc. reflexivity.
        + right. apply Z.ltb_ge. exact Hc. }
    split; [exact Hin|]. split; [|split].
    + intros r c Hr Hgone Hid.
      apply (cascade_delete_drops_audit (Sweep.stale e) w r c Hr); [|exact Hid].
      destruct (Sweep.stale e r) eqn:Hst; [reflexivity|]. exfalso.
      apply Hgone. simpl. unfold delete_reservations. apply filter_In.
      rewrite Hst. auto.
    + simpl. apply delete_reservations_valid. exact Hv.
    + apply cascade_delete_references. exact Hok.
Qed.

Lemma cleanup_removes_stale_unconfirmed_witness :
  let e := {| Sweep.SUPABASE_URL := Some "https://db.example"%string;
              Sweep.SUPABASE_SERVICE_ROLE_KEY := Some "service-key"%string;
              Sweep.Date_now := 90000000;
              Sweep.delete_fault := None |} in
  let out := Sweep.cleanup e (Examples.world [Examples.approved_0900]) in
  Sweep.status (fst out) = 200
  /\ ~ In Examples.approved_0900 (reservations (snd out)).
Proof.
  intros e out. split; [reflexivity|].
  destruct (cleanup_removes_stale_unconfirmed e
              (Examples.world [Examples.approved_0900]))
    as [_ [_ Hdone]].
  - exact approved_0900_valid.
  - intros c [].
  - destruct (Hdone eq_refl) as [Hin _].
    intros Hr. apply Hin in Hr. destruct Hr as [_ [Hc|Hc]].
    + discriminate.
    + simpl in Hc. lia.
Defined.

(** X19. The cleanup and the confirmation link read different clocks: a
    row of the booking form carries the database's [now()] as its
    [created_at] and the browser's clock plus 24 hours as its
    [token_expires_at]. With cleanup and confirmation page looking at the
    same moment: the row is stale exactly when more than 24 hours of the
    database's clock have passed since it was stored; when the submitting
    browser's clock was not ahead of the database's, a token that is
    still valid means the row is not stale, and a stale row has an
    expired token; when the browser's clock was ahead, there are moments
    at which the token is still valid and the row is already stale, so
    the cleanup removes a booking whose link still works. *)
Theorem cleanup_spares_valid_links_unless_skewed env0 env (e : Sweep.SweepEnv)
    (n : Hooks.NewReservation) (r : Reservation.t) (token : string) :
  Hooks.insertData env0 n = Some r ->
  Sweep.Date_now e = now env ->
  (Sweep.stale e r = true <-> db_now env0 + 24 * 60 * 60 * 1000 < now env)
  /\ (now env0 <= db_now env0 ->
      (Page.token_valid env token r = true -> Sweep.stale e r = false)
      /\ (Sweep.stale e r = true -> Page.token_valid env token r = false))
  /\ (token = gen_random_token env0 ->
      db_now env0 + 24 * 60 * 60 * 1000 < now env ->
      now env < now env0 + 24 * 60 * 60 * 1000 ->
      Page.token_valid env token r = true /\ Sweep.stale e r = true).
Proof.
  intros Hrow Hnow.
  assert (Hfields : created_at r = db_now env0 /\ confirmed r = false
            /\ confirmation_token r = Some (gen_random_token env0)
            /\ token_expires_at r = Some (now env0 + 24 * 60 * 60 * 1000)).
  { unfold Hooks.insertData in Hrow.
    destruct (Rest.time_in (Hooks.inicio n)); [|discriminate].
    destruct (Rest.time_in (Hooks.fin n)); [|discriminate].
    injection Hrow as Hrow. subst r. simpl. auto. }
  destruct Hfields as [Hc [Hcf [Htk Hex]]].
  assert (Hstale : Sweep.stale e r = true
                   <-> db_now env0 + 24 * 60 * 60 * 1000 < now env).
  { unfold Sweep.stale, Sweep.cutoff. rewrite Hcf, Hc, Hnow. simpl.
    rewrite Z.ltb_lt. lia. }
  assert (Hvalid : Page.token_valid env token r = true
                   -> now env < now env0 + 24 * 60 * 60 * 1000).
  { unfold Page.token_valid. rewrite Htk, Hex. intros H.
    apply andb_true_iff in H. destruct H as [_ H].
    apply Z.ltb_lt. exact H. }
  split; [exact Hstale|]. split.
  - intros Hclock. split.
    + intros Hv. apply Hvalid in Hv.
      apply not_true_is_false. intros Hs. apply Hstale in Hs. lia.
    + intros Hs. apply Hstale in Hs.
      apply not_true_is_false. intros Hv. apply Hvalid in Hv. lia.
  - intros Htoken Hold Hlive. split.
    + unfold Page.token_valid. rewrite Htk, Hex, Htoken, String.eqb_refl.
      simpl. apply Z.ltb_lt. exact Hlive.
    + apply Hstale. exact Hold.
Qed.

Lemma cleanup_spares_valid_links_unless_skewed_witness :
  let ahead :=
    {| now := 3601000; db_now := 1000;
       gen_random_uuid := "new-id"; gen_random_token := "new-token";
       auth_user := getUser_data None; db_admin := false;
       service_role_key := None; http_post_raises := fun _ => false;
       send_email_fails := false; select_fault := None;
       single_fault := fun _ => None; audit_transport := fun _ => no_fault;
       update_fault := fun _ => None; insert_fault := None;
       confirm_fault := None |} in
  let later :=
    {| now := 86401001; db_now := 86401001;
       gen_random_uuid := "new-id"; gen_random_token := "new-token";
       auth_user := getUser_data None; db_admin := false;
       service_role_key := None; http_post_raises := fun _ => false;
       send_email_fails := false; select_fault := None;
       single_fault := fun _ => None; audit_transport := fun _ => no_fault;
       update_fault := fun _ => None; insert_fault := None;
       confirm_fault := None |} in
  let e := {| Sweep.SUPABASE_URL := None;
              Sweep.SUPABASE_SERVICE_ROLE_KEY := None;
              Sweep.Date_now := 86401001;
              Sweep.delete_fault := None |} in
  exists r,
    Hooks.insertData ahead Examples.second_submission = Some r
    /\ Page.token_valid later "new-token" r = true
    /\ Sweep.stale e r = true.
Proof.
  intros ahead later e.
  eexists. split; [reflexivity|].
  match goal with
  | |- Page.token_valid _ _ ?r = true /\ _ =>
      apply (proj2 (proj2 (cleanup_spares_valid_links_unless_skewed ahead later e
                      Examples.second_submission r "new-token"%string
                      eq_refl eq_refl)))
  end.
  - reflexivity.
  - reflexivity.
  - reflexivity.
Defined.

(** X20. The older trigger function [delete_overlapping_reservations]
    removes rows instead of cancelling them: after it has run for a block
    with both bounds no reservation of that date overlaps the range, of
    any status, cancelled ones included; the audit rows of the removed
    reservations are gone with them; reservations of other dates are
    untouched; and a block with only one bound removes nothing. *)
Theorem delete_overlapping_reservations_clears (NEW : BlockedDate.t) (w : World) :
  valid (reservations w) -> Store.references_ok w ->
  let w' := Legacy.delete_overlapping_reservations NEW w in
  (forall s e r, BlockedDate.start_time NEW = Some s ->
     BlockedDate.end_time NEW = Some e ->
     In r (reservations w') -> fecha r = BlockedDate.fecha NEW ->
     ~ (inicio r < e /\ s < fin r))
  /\ (forall r, In r (reservations w) -> fecha r <> BlockedDate.fecha NEW ->
        In r (reservations w'))
  /\ (forall r c, In r (reservations w) -> Legacy.overlapping NEW r = true ->
        Cancellation.reservation_id c = id r ->
        ~ In r (reservations w') /\ ~ In c (cancellations w'))
  /\ ((BlockedDate.start_time NEW = None <-> BlockedDate.end_time NEW <> None) ->
      reservations w' = reservations w)
  /\ valid (reservations w') /\ Store.references_ok w'.
Proof.
  intros Hv Hok w'. unfold w', Legacy.delete_overlapping_reservations.
  split; [|split; [|split; [|split; [|split]]]].
  - intros s e r Hs He Hr Hd [H1 H2]. simpl in Hr.
    unfold delete_reservations in Hr. apply filter_In in Hr.
    destruct Hr as [_ Hkeep]. apply negb_true_iff in Hkeep.
    unfold Legacy.overlapping in Hkeep.
    rewrite Hs, He, Hd, String.eqb_refl in Hkeep. simpl in Hkeep.
    apply andb_false_iff in Hkeep.
    destruct Hkeep as [Hk|Hk]; apply Z.ltb_ge in Hk; lia.
  - intros r Hr Hd. simpl. unfold delete_reservations. apply filter_In.
    split; [exact Hr|]. unfold Legacy.overlapping.
    apply String.eqb_neq in Hd. rewrite Hd. reflexivity.
  - intros r c Hr Hov Hid. split.
    + simpl. unfold delete_reservations. intros Hin.
      apply filter_In in Hin. destruct Hin as [_ Hk].
      rewrite Hov in Hk. discriminate.
    + apply (cascade_delete_drops_audit _ w r c Hr Hov Hid).
  - intros Hhalf. simpl. unfold delete_reservations.
    assert (Hnone : forall r, Legacy.overlapping NEW r = false).
    { intros r. unfold Legacy.overlapping.
      destruct (BlockedDate.start_time NEW) as [s|],
               (BlockedDate.end_time NEW) as [e|].
      - exfalso. destruct Hhalf as [_ Hh].
        assert (Some s = None) by (apply Hh; discriminate). discriminate.
      - apply andb_false_r.
      - apply andb_false_r.
      - exfalso. destruct Hhalf as [Hh _]. apply (Hh eq_refl). reflexivity. }
    clear - Hnone. induction (reservations w) as [|a l IH]; simpl.
    + reflexivity.
    + rewrite Hnone. simpl. rewrite IH. reflexivity.
  - simpl. apply delete_reservations_valid. exact Hv.
  - apply cascade_delete_references. exact Hok.
Qed.

Lemma delete_overlapping_reservations_clears_witness :
  let gone := Examples.booking "r1" "Ana" "2025-08-10" Examples.t0900
                Examples.t1000 Status.cancelled (Some "Motivo: clima"%string) in
  let w' := Legacy.delete_overlapping_reservations Examples.maintenance
              (Examples.world [gone]) in
  Legacy.overlapping Examples.maintenance gone = true
  /\ forall r, In r (reservations w') -> fecha r = "2025-08-10"%string ->
       ~ (inicio r < Examples.t1200 /\ Examples.t0800 < fin r).
Proof.
  intros gone w'. split; [reflexivity|].
  destruct (delete_overlapping_reservations_clears Examples.maintenance
              (Examples.world [gone])) as [Hclear _].
  - exact cancelled_0900_valid.
  - intros c [].
  - intros r Hr Hd. apply (Hclear Examples.t0800 Examples.t1200 r); auto.
Defined.

End HardDeletes.

(* ------------------------------------------------------------------------- *)
(** ** The hooks around the library *)

Section HooksFeedback.
Import Reservation Pg.
Local Open Scope Z_scope.
Local Open Scope list_scope.

Lemma addReservation_cases env (n : Hooks.NewReservation) (w : World) :
  (exists r w1, Hooks.addReservation env n w = (Some r, w1)
      /\ reservations w1 = reservations w ++ [r]
      /\ toasts w1 = toasts w)
  \/ (exists w1 t, Hooks.addReservation env n w = (None, w1)
        /\ reservations w1 = reservations w
        /\ outbox w1 = outbox w
        /\ toasts w1 = toasts w ++ [t]
        /\ (t = Hooks.slot_taken_toast \/ t = Hooks.generic_toast)).
Proof.
  unfold Hooks.addReservation.
  destruct (Lib.insert_row env (Hooks.insertData env n) w) as [[e|d] w1] eqn:Hins.
  - right. apply insert_row_failed in Hins. subst w1.
    unfold Hooks.on_error.
    destruct (Js.instanceof_Error _ && _).
    + eexists. exists Hooks.slot_taken_toast.
      split; [reflexivity|]. repeat split; auto.
    + eexists. exists Hooks.generic_toast.
      split; [reflexivity|]. repeat split; auto.
  - left. destruct (Hooks.insertData env n) as [r0|].
    + destruct (insert_row_ok env r0 d w w1 Hins) as [Hd [Hw1 _]]. subst d.
      eexists. eexists. split; [reflexivity|].
      rewrite (proj1 (sendEmail_tables env _ w1)).
      rewrite (proj1 (sendEmail_rest env _ w1)).
      subst w1. split; reflexivity.
    + unfold Lib.insert_row in Hins.
      destruct (insert_fault env); discriminate.
Qed.

Lemma app_one_neq {A} (l : list A) (x : A) : l <> l ++ [x].
Proof.
  intros H. apply (f_equal (@List.length A)) in H.
  rewrite length_app in H. simpl in H. lia.
Qed.

(** X21. Feedback of the booking form: when validation fails, no date
    is chosen or the date object holds no valid date, nothing is sent to
    the backend and one error toast is shown (for the invalid date it is
    the toast of the [catch] block, raised by formatting the date); the
    call returns [true] exactly when a reservation has been stored; and a
    refused insert shows two error toasts, the specific one of
    [addReservation] followed by the generic "there was a problem"
    one. *)
Theorem submitReservation_feedback env (data : Submit.ReservationSubmitData)
    (validateForm : bool) (w : World) :
  let out := Submit.submitReservation env data validateForm w in
  (validateForm = false \/ Submit.fecha data = Submit.undefined
   \/ Submit.fecha data = Submit.invalid_date ->
     fst out = false
     /\ reservations (snd out) = reservations w
     /\ insert_requests (snd out) = insert_requests w
     /\ outbox (snd out) = outbox w
     /\ (toasts (snd out) = toasts w ++ [Submit.incomplete]
         \/ toasts (snd out) = toasts w ++ [Submit.no_date]
         \/ toasts (snd out) = toasts w ++ [Submit.processing_error]))
  /\ (validateForm = true -> Submit.fecha data = Submit.invalid_date ->
      out = (false, with_toast Submit.processing_error w))
  /\ (fst out = true <->
      exists r, reservations (snd out) = reservations w ++ [r])
  /\ (fst out = true ->
      toasts (snd out) = toasts w ++ [Submit.check_mail (Submit.email data)])
  /\ (forall d, validateForm = true -> Submit.fecha data = Submit.valid_date d ->
      fst out = false ->
      reservations (snd out) = reservations w
      /\ (toasts (snd out)
          = toasts w ++ [Hooks.slot_taken_toast; Submit.problem]
          \/ toasts (snd out)
             = toasts w ++ [Hooks.generic_toast; Submit.problem])).
Proof.
  intros out. unfold out, Submit.submitReservation.
  destruct validateForm; cbn [negb].
  2:{ cbn [fst snd]. split; [intros _; repeat split; auto|].
      split; [discriminate|].
      split; [split; [discriminate|]|split; [discriminate|]].
      - intros [r Hr]. simpl in Hr. exfalso. exact (app_one_neq _ _ Hr).
      - discriminate. }
  destruct (Submit.fecha data) as [| |d] eqn:Hd.
  1:{ cbn [fst snd]. split; [intros _; repeat split; auto|].
      split; [discriminate|].
      split; [split; [discriminate|]|split; [discriminate|]].
      - intros [r Hr]. simpl in Hr. exfalso. exact (app_one_neq _ _ Hr).
      - discriminate. }
  1:{ cbn [fst snd]. split; [intros _; repeat split; auto|].
      split; [reflexivity|].
      split; [split; [discriminate|]|split; [discriminate|]].
      - intros [r Hr]. simpl in Hr. exfalso. exact (app_one_neq _ _ Hr).
      - discriminate. }
  set (n := {| Hooks.responsable := Submit.responsable data;
               Hooks.email := Submit.email data;
               Hooks.motivo := Submit.motivo data;
               Hooks.fecha := d;
               Hooks.inicio := Submit.inicio data;
               Hooks.fin := Submit.fin data;
               Hooks.personas := Submit.personas data;
               Hooks.affiliation := Some (Submit.affiliation data) |}).
  destruct (addReservation_cases env n w)
    as [[r [w1 [Hadd [Hres Hto]]]]|[w1 [t [Hadd [Hres [Hob [Hto Ht]]]]]]];
    rewrite Hadd; cbn [fst snd].
  - split; [intros [H|[H|H]]; discriminate|].
    split; [discriminate|].
    split; [split; [intros _; exists r; exact Hres|reflexivity]|].
    split; [intros _; simpl; rewrite Hto; reflexivity|].
    discriminate.
  - split; [intros [H|[H|H]]; discriminate|].
    split; [discriminate|].
    split; [split; [discriminate|]|split; [discriminate|]].
    + intros [r Hr]. simpl in Hr. rewrite Hres in Hr.
      exfalso. exact (app_one_neq _ _ Hr).
    + intros d' _ _ _. split; [exact Hres|]. simpl. rewrite Hto.
      rewrite <- app_assoc. simpl.
      destruct Ht as [Ht|Ht]; subst t; auto.
Qed.

Lemma update_rows_inr now p f (todo : table) :
  forall done tbl', update_rows now p f done todo = inr tbl' ->
  tbl' = done ++ map (rewritten now p f) todo.
Proof.
  induction todo as [|a rest IH]; intros done tbl' H; simpl in H.
  - injection H as H. subst tbl'. simpl. rewrite app_nil_r. reflexivity.
  - unfold rewritten at 1. simpl. destruct (p a).
    + destruct (check_row _ _); [discriminate|].
      apply IH in H. rewrite H, <- app_assoc. reflexivity.
    + apply IH in H. rewrite H, <- app_assoc. reflexivity.
Qed.

Lemma deleteReservation_outcomes env (i : Uuid) (reason : option string)
    (w : World) :
  let out := Lib.deleteReservation env i reason w in
  toasts (snd out) = toasts w
  /\ (forall x, fst out = Js.Throw x ->
        reservations (snd out) = reservations w
        /\ outbox (snd out) = outbox w)
  /\ (forall b, fst out = Js.Return b ->
        (db_admin env = true ->
         forall r, In r (reservations (snd out)) -> id r = i ->
                   status r = Status.cancelled)
        /\ (db_admin env = false -> reservations (snd out) = reservations w)).
Proof.
  unfold Lib.deleteReservation.
  destruct (negb (Js.truthy i)).
  { cbn [fst snd]. split; [reflexivity|]. split; [auto|discriminate]. }
  destruct (Lib.single env i (reservations w)) as [e|r0].
  { cbn [fst snd]. split; [reflexivity|]. split; [auto|discriminate]. }
  cbv zeta.
  set (w1 := match audit_fault env i with
             | no_fault => _ | fault_error _ => _ | fault_throw _ => _ end).
  assert (Hw1 : reservations w1 = reservations w /\ outbox w1 = outbox w
                /\ toasts w1 = toasts w).
  { unfold w1. destruct (audit_fault env i); auto. }
  destruct Hw1 as [Hr1 [Ho1 Ht1]].
  destruct (update_fault env i) as [e|].
  { cbn [fst snd]. split; [exact Ht1|]. split; [auto|discriminate]. }
  unfold Rls.update_reservations.
  destruct (db_admin env) eqn:Hadm.
  2:{ cbn [fst snd]. split; [|split; [discriminate|]].
      - rewrite (proj1 (sendEmail_rest env _ _)). exact Ht1.
      - intros _ _. split; [discriminate|]. intros _.
        rewrite (proj1 (sendEmail_tables env _ _)). exact Hr1. }
  destruct (update_reservations _ _ _ _) as [e|tbl] eqn:Hup.
  { cbn [fst snd]. split; [exact Ht1|]. split; [auto|discriminate]. }
  cbn [fst snd]. split; [|split; [discriminate|]].
  - rewrite (proj1 (sendEmail_rest env _ _)). exact Ht1.
  - intros _ _. split; [|discriminate]. intros _ r Hr Hid.
    rewrite (proj1 (sendEmail_tables env _ _)) in Hr.
    cbn [reservations with_reservations] in Hr.
    unfold update_reservations in Hup. apply update_rows_inr in Hup.
    simpl in Hup. subst tbl. apply in_map_iff in Hr.
    destruct Hr as [r1 [Hr1' _]]. unfold rewritten in Hr1'.
    destruct (id r1 =? i)%string eqn:E.
    + subst r. reflexivity.
    + subst r. apply String.eqb_neq in E. contradiction.
Qed.

(** X22. Feedback of the cancel button: the hook shows exactly one toast;
    after the error toast no reservation has changed and no e-mail has
    been queued; after the success toast, in an administrator's session
    every stored reservation with that id is cancelled, while in a
    session that fails the UPDATE policy of the table no reservation has
    changed at all. *)
Theorem hook_deleteReservation_feedback env (i : Uuid) (reason : option string)
    (w : World) :
  let w' := Mutations.deleteReservation env i reason w in
  (toasts w' = toasts w ++ [Mutations.cancel_done]
   \/ toasts w' = toasts w ++ [Mutations.cancel_failed])
  /\ (toasts w' = toasts w ++ [Mutations.cancel_failed] ->
      reservations w' = reservations w /\ outbox w' = outbox w)
  /\ (toasts w' = toasts w ++ [Mutations.cancel_done] ->
      (db_admin env = true ->
       forall r, In r (reservations w') -> id r = i ->
                 status r = Status.cancelled)
      /\ (db_admin env = false -> reservations w' = reservations w)).
Proof.
  intros w'. unfold w', Mutations.deleteReservation.
  destruct (deleteReservation_outcomes env i reason w) as [Ht [Hthrow Hret]].
  destruct (Lib.deleteReservation env i reason w) as [[b|x] w1];
    cbn [fst snd] in *.
  - simpl. rewrite Ht. split; [left; reflexivity|]. split.
    + intros H. apply app_inv_head in H. discriminate.
    + intros _. apply (Hret b eq_refl).
  - simpl. rewrite Ht. split; [right; reflexivity|]. split.
    + intros _. apply (Hthrow x eq_refl).
    + intros H. apply app_inv_head in H. discriminate.
Qed.

Lemma update_refused now f (tbl : table) (r o : Reservation.t) :
  valid tbl -> In r tbl -> In o tbl -> id o <> id r ->
  active (f r) = true -> active o = true ->
  excl_conflict (set_updated_at now (f r)) o = true ->
  exists e,
    update_reservations now (fun x => (id x =? id r)%string) f tbl = inl e.
Proof.
  intros Hv Hr Ho Hne Har Hao Hex.
  destruct (in_split r tbl Hr) as [l1 [l2 Htbl]]. subst tbl.
  assert (Hpk := proj1 Hv). unfold pk_unique in Hpk.
  rewrite map_app in Hpk. simpl in Hpk.
  assert (Hnot : ~ In (id r) (map id (l1 ++ l2))).
  { rewrite map_app. apply NoDup_remove_2 in Hpk. exact Hpk. }
  assert (Hl1 : forall x, In x l1 -> (id x =? id r)%string = false).
  { intros x Hx. apply String.eqb_neq. intros E. apply Hnot.
    rewrite <- E. apply in_map. apply in_or_app. left. exact Hx. }
  unfold update_reservations.
  rewrite (update_rows_skip now _ f l1 (r :: l2) [] Hl1).
  simpl. rewrite String.eqb_refl.
  assert (Ho' : In o (l1 ++ l2)).
  { apply in_app_or in Ho. apply in_or_app.
    destruct Ho as [Ho|[Ho|Ho]]; [left; exact Ho| |right; exact Ho].
    subst o. exfalso. apply Hne. reflexivity. }
  destruct (check_row (set_updated_at now (f r)) (l1 ++ l2)) as [e|] eqn:Hc.
  - exists e. reflexivity.
  - exfalso. apply check_row_None in Hc.
    pose proof (adm_excl _ _ Hc o Ho' Har Hao) as Hfree. congruence.
Qed.

Lemma with_reservations_same (w : World) :
  with_reservations (reservations w) w = w.
Proof. destruct w. reflexivity. Qed.

(** X23. Editing a reservation can never break the schema: after
    [updateReservation] the table satisfies the constraints whatever was
    submitted; after the error toast the table is unchanged; in an
    administrator's session, moving a reservation onto a slot held by
    another active reservation ends in the generic error toast; an id
    that matches no reservation is answered with the success toast
    although nothing was changed; and so is every edit with well-formed
    times made in a session that fails the UPDATE policy of the table. *)
Theorem updateReservation_is_safe env (i : Uuid) (p : Mutations.Patch)
    (w : World) :
  valid (reservations w) ->
  let w' := Mutations.updateReservation env i p w in
  let f := Mutations.patched p (Booking.parsed (Mutations.inicio p))
             (Booking.parsed (Mutations.fin p)) in
  valid (reservations w')
  /\ (toasts w' = toasts w ++ [Mutations.update_done]
      \/ (toasts w' = toasts w ++ [Mutations.update_failed]
          /\ reservations w' = reservations w))
  /\ (db_admin env = true ->
      forall r o, In r (reservations w) -> id r = i ->
        In o (reservations w) -> id o <> i ->
        active (f r) = true -> active o = true ->
        excl_conflict (set_updated_at (db_now env) (f r)) o = true ->
        w' = with_toast Mutations.update_failed w)
  /\ ((forall r, In r (reservations w) -> id r <> i) ->
      update_fault env i = None ->
      Booking.unparsable (Mutations.inicio p) = false ->
      Booking.unparsable (Mutations.fin p) = false ->
      w' = with_toast Mutations.update_done w)
  /\ (db_admin env = false ->
      update_fault env i = None ->
      Booking.unparsable (Mutations.inicio p) = false ->
      Booking.unparsable (Mutations.fin p) = false ->
      w' = with_toast Mutations.update_done w).
Proof.
  intros Hv w' f. unfold w', Mutations.updateReservation. fold f.
  destruct (Booking.unparsable (Mutations.inicio p)
            || Booking.unparsable (Mutations.fin p)) eqn:Hbad.
  { split; [exact Hv|]. split; [right; split; reflexivity|].
    split; [reflexivity|].
    split; intros _ _ H1 H2; rewrite H1, H2 in Hbad; discriminate. }
  unfold Admin.update_by_id.
  destruct (update_fault env i) as [e|] eqn:Hf.
  { split; [exact Hv|]. split; [right; split; reflexivity|].
    split; [reflexivity|]. split; intros _ H; discriminate. }
  unfold Rls.update_reservations.
  destruct (db_admin env) eqn:Hadm.
  2:{ rewrite with_reservations_same.
      split; [exact Hv|]. split; [left; reflexivity|].
      split; [discriminate|]. split; reflexivity. }
  destruct (update_reservations (db_now env) (fun r => (id r =? i)%string) f
              (reservations w)) as [e|tbl] eqn:Hup.
  - split; [exact Hv|]. split; [right; split; reflexivity|].
    split; [reflexivity|]. split; [|discriminate].
    intros Hnone _ _ _. exfalso.
    unfold update_reservations in Hup.
    rewrite <- (app_nil_r (reservations w)) in Hup.
    rewrite update_rows_skip in Hup; [discriminate|].
    intros x Hx. apply String.eqb_neq. apply Hnone. exact Hx.
  - split; [exact (update_reservations_valid _ _ _ _ _ Hv Hup)|].
    split; [left; reflexivity|]. split; [|split; [|discriminate]].
    + intros _ r o Hr Hid Ho Hne Har Hao Hex. exfalso. subst i.
      destruct (update_refused (db_now env) f _ r o Hv Hr Ho Hne Har Hao Hex)
        as [e He].
      congruence.
    + intros Hnone _ _ _.
      unfold update_reservations in Hup.
      rewrite <- (app_nil_r (reservations w)) in Hup.
      rewrite update_rows_skip in Hup.
      * simpl in Hup. injection Hup as Hup. subst tbl.
        rewrite with_reservations_same. reflexivity.
      * intros x Hx. apply String.eqb_neq. apply Hnone. exact Hx.
Qed.

End HooksFeedback.

Section HooksFeedbackExamples.
Import Reservation Pg.
Local Open Scope Z_scope.
Local Open Scope list_scope.

Lemma updateReservation_is_safe_witness :
  let move := {| Mutations.responsable := None; Mutations.email := None;
                 Mutations.motivo := None; Mutations.fecha := None;
                 Mutations.inicio := Some "10:30"%string;
                 Mutations.fin := Some "11:30"%string;
                 Mutations.personas := None; Mutations.status := None;
                 Mutations.admin_notes := None; Mutations.affiliation := None;
                 Mutations.approved := None |} in
  let w := Examples.world [Examples.pending_1000] in
  Mutations.updateReservation Examples.env "r7" move w
  = with_toast Mutations.update_done w.
Proof.
  intros move w.
  destruct (updateReservation_is_safe Examples.env "r7"%string move w
              pending_1000_valid) as [_ [_ [_ [Hunknown _]]]].
  apply Hunknown; try reflexivity.
  intros r [Hr|[]]. subst r. discriminate.
Defined.

End HooksFeedbackExamples.

(* ------------------------------------------------------------------------- *)
(** ** Who is treated as an administrator *)

Section AdminFlag.
Local Open Scope Z_scope.

Lemma create_profile_true (env : Auth.AuthEnv) :
  Auth.create_profile env = Some true ->
  exists t e t', Auth.getUser env = Auth.fulfils t (Some e)
    /\ Js.endsWith e "@fiuna.edu.py" = true
    /\ Auth.profiles_insert env = Auth.fulfils t' None.
Proof.
  unfold Auth.create_profile.
  destruct (Auth.getUser env) as [t [e|]|t x|]; try discriminate.
  - destruct (Auth.profiles_insert env) as [t' [err|]|t' x|]; try discriminate.
    intros H. injection H as H. exists t, e, t'. auto.
  - destruct (Auth.profiles_insert env) as [t' [err|]|t' x|]; discriminate.
Qed.

Lemma after_client_true (env : Auth.AuthEnv) (started : Z) :
  Auth.after_client env started = Some true ->
  exists d r, Auth.profiles_query env = Auth.fulfils d r
    /\ started + d < Auth.timeout_ms
    /\ Auth.error r = None
    /\ (Auth.data r = Some {| Auth.is_admin := true |}
        \/ (Auth.data r = None /\ Auth.create_profile env = Some true)).
Proof.
  unfold Auth.after_client, Auth.race.
  destruct (Auth.profiles_query env) as [d r|d x|]; try discriminate.
  - destruct (started + d <? Auth.timeout_ms) eqn:Hlt; [|discriminate].
    destruct (Auth.error r) eqn:He; [discriminate|].
    intros H. exists d, r. split; [reflexivity|].
    split; [apply Z.ltb_lt; exact Hlt|]. split; [exact He|].
    destruct (Auth.data r) as [[b]|].
    + left. simpl in H. injection H as H. subst b. reflexivity.
    + right. auto.
  - destruct (started + d <? Auth.timeout_ms); discriminate.
Qed.

(** X24. [fetchUserProfile] answers [true] for two reasons only: the
    profiles query was issued, came back before the 3 second timer
    without error, and either returned a profile whose [is_admin] is
    true, or returned no profile while the signed-in e-mail ends in
    [@fiuna.edu.py] and the insert of the new profile reported no
    error. *)
Theorem fetchUserProfile_grants_only (env : Auth.AuthEnv) (userId : string)
    (accessToken : option string) :
  Auth.fetchUserProfile env userId accessToken = Some true ->
  exists started d r,
    Auth.query_started env accessToken = Some started
    /\ Auth.profiles_query env = Auth.fulfils d r
    /\ started + d < 3000
    /\ Auth.error r = None
    /\ (Auth.data r = Some {| Auth.is_admin := true |}
        \/ (Auth.data r = None
            /\ exists t e t',
                 Auth.getUser env = Auth.fulfils t (Some e)
                 /\ Js.endsWith e "@fiuna.edu.py" = true
                 /\ Auth.profiles_insert env = Auth.fulfils t' None)).
Proof.
  unfold Auth.fetchUserProfile, Auth.query_started.
  assert (Hgen : forall started, Auth.after_client env started = Some true ->
    exists d r,
      Auth.profiles_query env = Auth.fulfils d r
      /\ started + d < 3000
      /\ Auth.error r = None
      /\ (Auth.data r = Some {| Auth.is_admin := true |}
          \/ (Auth.data r = None
              /\ exists t e t',
                   Auth.getUser env = Auth.fulfils t (Some e)
                   /\ Js.endsWith e "@fiuna.edu.py" = true
                   /\ Auth.profiles_insert env = Auth.fulfils t' None))).
  { intros started H. apply after_client_true in H.
    destruct H as [d [r [Hq [Hlt [He Hd]]]]]. exists d, r.
    split; [exact Hq|]. split; [exact Hlt|]. split; [exact He|].
    destruct Hd as [Hd|[Hd Hc]]; [left; exact Hd|right].
    split; [exact Hd|]. apply create_profile_true. exact Hc. }
  destruct (Js.truthy_opt accessToken).
  - destruct (Auth.setSession env) as [t u|t x|]; try discriminate.
    intros H. destruct (Hgen t H) as [d [r Hrest]].
    exists t, d, r. split; [reflexivity|exact Hrest].
  - intros H. destruct (Hgen 0 H) as [d [r Hrest]].
    exists 0, d, r. split; [reflexivity|exact Hrest].
Qed.

Lemma fetchUserProfile_grants_only_witness :
  let env := {| Auth.setSession := Auth.never;
                Auth.profiles_query :=
                  Auth.fulfils 120 {| Auth.data := None; Auth.error := None |};
                Auth.getUser := Auth.fulfils 10 (Some "ana@fiuna.edu.py"%string);
                Auth.profiles_insert := Auth.fulfils 10 None |} in
  Auth.fetchUserProfile env "user-1" None = Some true
  /\ exists d r, Auth.profiles_query env = Auth.fulfils d r /\ d < 3000.
Proof.
  intros env. split; [reflexivity|].
  destruct (fetchUserProfile_grants_only env "user-1"%string None eq_refl)
    as [started [d [r [Hs [Hq [Hlt _]]]]]].
  exists d, r. split; [exact Hq|].
  unfold Auth.query_started in Hs. simpl in Hs. injection Hs as Hs.
  subst started. lia.
Defined.

(** X25. [handleUserSignIn] trusts the browser's cache first: a stored
    user whose e-mail equals the session's is returned as it is,
    whatever the metadata or the profiles table say. Whenever the
    returned user is an administrator, the flag comes from that cache
    entry, from a truthy [is_admin] in the session metadata, or from
    [fetchUserProfile] answering [true]; no session gives no user. *)
Theorem handleUserSignIn_admin_sources (env : Auth.AuthEnv)
    (storage : SignIn.LocalStorage) (s : SignIn.Session) :
  let userEmail := match SignIn.user_email s with
                   | Some e => e
                   | None => ""%string
                   end in
  (forall u, storage = SignIn.holds u -> SignIn.email u = userEmail ->
     SignIn.handleUserSignIn env storage (Some s) = Some (Some u))
  /\ (forall u, SignIn.handleUserSignIn env storage (Some s) = Some (Some u) ->
        SignIn.isAdmin u = true ->
        (storage = SignIn.holds u /\ SignIn.email u = userEmail)
        \/ SignIn.user_metadata_is_admin s = Some true
        \/ (SignIn.user_metadata_is_admin s = None
            /\ Auth.fetchUserProfile env (SignIn.user_id s) None = Some true))
  /\ (forall u, SignIn.handleUserSignIn env storage (Some s) = Some (Some u) ->
        SignIn.email u = userEmail)
  /\ SignIn.handleUserSignIn env storage None = Some None.
Proof.
  intros userEmail.
  assert (Hfresh : forall u,
    match SignIn.user_metadata_is_admin s with
    | Some flag =>
        Some (Some {| SignIn.email := userEmail; SignIn.isAdmin := flag |})
    | None =>
        match Auth.fetchUserProfile env (SignIn.user_id s) None with
        | Some isAdmin =>
            Some (Some {| SignIn.email := userEmail; SignIn.isAdmin := isAdmin |})
        | None => None
        end
    end = Some (Some u) ->
    SignIn.email u = userEmail
    /\ (SignIn.isAdmin u = true ->
        SignIn.user_metadata_is_admin s = Some true
        \/ (SignIn.user_metadata_is_admin s = None
            /\ Auth.fetchUserProfile env (SignIn.user_id s) None = Some true))).
  { intros u. destruct (SignIn.user_metadata_is_admin s) as [flag|].
    - intros H. injection H as H. subst u. simpl. split; [reflexivity|].
      intros Hf. left. rewrite Hf. reflexivity.
    - destruct (Auth.fetchUserProfile env (SignIn.user_id s) None) as [b|];
        [|discriminate].
      intros H. injection H as H. subst u. simpl. split; [reflexivity|].
      intros Hf. right. rewrite Hf. auto. }
  split; [|split; [|split]].
  - intros u Hst He. subst storage. unfold SignIn.handleUserSignIn.
    fold userEmail. rewrite He, String.eqb_refl. reflexivity.
  - intros u H Hadm. unfold SignIn.handleUserSignIn in H. fold userEmail in H.
    destruct storage as [| |u0].
    + right. apply (Hfresh u H). exact Hadm.
    + discriminate.
    + destruct (SignIn.email u0 =? userEmail)%string eqn:E.
      * injection H as H. subst u0. left. split; [reflexivity|].
        apply String.eqb_eq. exact E.
      * right. apply (Hfresh u H). exact Hadm.
  - intros u H. unfold SignIn.handleUserSignIn in H. fold userEmail in H.
    destruct storage as [| |u0].
    + apply (Hfresh u H).
    + discriminate.
    + destruct (SignIn.email u0 =? userEmail)%string eqn:E.
      * injection H as H. subst u0. apply String.eqb_eq. exact E.
      * apply (Hfresh u H).
  - reflexivity.
Qed.

End AdminFlag.

(* ------------------------------------------------------------------------- *)
(** ** Delivery of e-mails *)

Section Delivery.
Local Open Scope Z_scope.
Local Open Scope list_scope.

(** X26. The retry loop of the [send-email] function: once the request
    is parsed and the template loaded, the mail API is called at least
    once and at most three times, never again after a call that was
    accepted, with pauses of 600 ms and then 1200 ms between calls; the
    answer is 200 exactly when the last call was accepted with a JSON
    body, and a run without accepted call has used all three. *)
Theorem serve_retries_three_times (env : Mailer.MailEnv) (method type t : string) :
  method <> "OPTIONS"%string -> Mailer.request_parses env = true ->
  Mailer.template env (Mailer.templateName type) = Some t ->
  let run := Mailer.serve env method type in
  (1 <= Mailer.attempts run <= 3)%nat
  /\ (Mailer.status run = 200 <->
      Mailer.resend env (Mailer.attempts run) = Mailer.accepted true)
  /\ (forall k, (1 <= k < Mailer.attempts run)%nat ->
        Mailer.is_accepted (Mailer.resend env k) = false)
  /\ (Mailer.is_accepted (Mailer.resend env (Mailer.attempts run)) = false ->
      Mailer.attempts run = 3%nat)
  /\ Mailer.waited run = firstn (Mailer.attempts run - 1) [600; 1200].
Proof.
  intros Hm Hp Ht run. unfold run, Mailer.serve.
  apply String.eqb_neq in Hm. rewrite Hm, Hp, Ht. cbn [negb].
  unfold Mailer.maxRetries. cbn [Mailer.retry].
  destruct (Mailer.resend env 1) as [j1| |] eqn:E1;
    [| destruct (Mailer.resend env 2) as [j2| |] eqn:E2;
       [| destruct (Mailer.resend env 3) as [j3| |] eqn:E3
        | destruct (Mailer.resend env 3) as [j3| |] eqn:E3]
     | destruct (Mailer.resend env 2) as [j2| |] eqn:E2;
       [| destruct (Mailer.resend env 3) as [j3| |] eqn:E3
        | destruct (Mailer.resend env 3) as [j3| |] eqn:E3]];
    unfold Mailer.maxRetries;
    cbn [Mailer.status Mailer.attempts Mailer.waited Nat.ltb Nat.leb app];
    (split; [lia|]);
    (split; [first [rewrite E1|rewrite E2|rewrite E3];
             try destruct j1; try destruct j2; try destruct j3;
             split; intros; congruence|]);
    (split; [intros k Hk;
             destruct k as [|[|[|k]]]; try lia;
             first [rewrite E1|rewrite E2]; reflexivity|]);
    (split; [first [rewrite E1|rewrite E2|rewrite E3]; simpl;
             intros; congruence|]);
    reflexivity.
Qed.

Lemma serve_retries_three_times_witness :
  let env := {| Mailer.request_parses := true;
                Mailer.template := fun _ => Some "<html></html>"%string;
                Mailer.resend := fun k => if (k <? 3)%nat then Mailer.unreachable
                                          else Mailer.accepted true |} in
  let run := Mailer.serve env "POST" "reservation-approved" in
  Mailer.status run = 200 /\ Mailer.attempts run = 3%nat
  /\ Mailer.waited run = [600; 1200].
Proof.
  intros env run.
  destruct (serve_retries_three_times env "POST"%string
              "reservation-approved"%string "<html></html>"%string)
    as [_ [Hst [_ [_ Hw]]]].
  - discriminate.
  - reflexivity.
  - reflexivity.
  - split; [apply Hst; reflexivity|]. split; [reflexivity|].
    unfold run. rewrite Hw. reflexivity.
Defined.

(** X27. An e-mail type outside the five the function knows selects the
    empty template name, so that, no template of that name existing, the
    function answers 500 without calling the mail API. The
    "new-reservation" notice that [createReservation] sends to the
    administrator is such a type: [sendEmail] renames only
    "confirmation" and "cancellation". *)
Theorem serve_unknown_type_not_sent (env : Mailer.MailEnv) (method type : string) :
  type <> "confirm-reservation"%string -> type <> "reservation-approved"%string ->
  type <> "reservation-cancelled"%string -> type <> "reservation-rejected"%string ->
  type <> "reservation-reminder"%string ->
  Mailer.templateName type = ""%string
  /\ (method <> "OPTIONS"%string -> Mailer.template env ""%string = None ->
      Mailer.serve env method type
      = {| Mailer.status := 500; Mailer.attempts := 0; Mailer.waited := [] |})
  /\ Mailer.templateName (Booking.mappedType "new-reservation") = ""%string
  /\ Mailer.templateName (Booking.mappedType "confirmation")
     = "confirm-reservation"%string.
Proof.
  intros H1 H2 H3 H4 H5.
  assert (Hname : Mailer.templateName type = ""%string).
  { unfold Mailer.templateName.
    apply String.eqb_neq in H1, H2, H3, H4, H5.
    rewrite H1, H2, H3, H4, H5. reflexivity. }
  split; [exact Hname|]. split; [|split; reflexivity].
  intros Hm Hnone. unfold Mailer.serve.
  apply String.eqb_neq in Hm. rewrite Hm, Hname, Hnone.
  destruct (Mailer.request_parses env); reflexivity.
Qed.

Lemma serve_unknown_type_not_sent_witness :
  Mailer.serve {| Mailer.request_parses := true;
                  Mailer.template := fun name =>
                    if (name =? "")%string then None
                    else Some "<html></html>"%string;
                  Mailer.resend := fun _ => Mailer.accepted true |}
    "POST" "new-reservation"
  = {| Mailer.status := 500; Mailer.attempts := 0; Mailer.waited := [] |}.
Proof.
  apply (proj1 (proj2 (serve_unknown_type_not_sent _ "POST"%string
                         "new-reservation"%string
                         ltac:(discriminate) ltac:(discriminate)
                         ltac:(discriminate) ltac:(discriminate)
                         ltac:(discriminate)))).
  - discriminate.
  - reflexivity.
Defined.

End Delivery.

(* ------------------------------------------------------------------------- *)
(** ** What reaches the console *)

Section Logging.

(** X28. The logger writes a message exactly when its level is [error],
    or [warn] outside production: [logger.debug] and [logger.info] never
    write anything in any build, and in production warnings are dropped
    as well. *)
Theorem logger_writes_iff (PROD : bool) (level : Logger.LogLevel) :
  Logger.writes PROD level = true <->
  level = Logger.error \/ (level = Logger.warn /\ PROD = false).
Proof.
  destruct PROD, level; simpl; split; intros H;
    try discriminate; try reflexivity; auto;
    destruct H as [H|[H1 H2]]; discriminate.
Qed.

End Logging.

(* ------------------------------------------------------------------------- *)
(** ** New accounts *)

Section NewAccounts.
Local Open Scope Z_scope.
Local Open Scope list_scope.

Lemma handle_new_user_ids now (new : Profiles.NewUser) (tbl : Profiles.table) :
  map Profiles.id (Profiles.handle_new_user now new tbl)
  = if existsb (fun r => (Profiles.id r =? Profiles.new_id new)%string) tbl
    then map Profiles.id tbl
    else map Profiles.id tbl ++ [Profiles.new_id new].
Proof.
  unfold Profiles.handle_new_user.
  destruct (existsb _ tbl).
  - rewrite map_map. apply map_ext. intros r.
    destruct (Profiles.id r =? Profiles.new_id new)%string; reflexivity.
  - rewrite map_app. reflexivity.
Qed.

Lemma profiles_filter_other now (new : Profiles.NewUser) (tbl : Profiles.table)
    (u : Uuid) :
  u <> Profiles.new_id new ->
  filter (fun r => (Profiles.id r =? u)%string)
    (Profiles.handle_new_user now new tbl)
  = filter (fun r => (Profiles.id r =? u)%string) tbl.
Proof.
  intros Hne. unfold Profiles.handle_new_user.
  destruct (existsb _ tbl).
  - induction tbl as [|a l IH]; simpl; [reflexivity|].
    destruct (Profiles.id a =? Profiles.new_id new)%string eqn:E.
    + apply String.eqb_eq in E. simpl.
      replace (Profiles.id a =? u)%string with false.
      * exact IH.
      * symmetry. apply String.eqb_neq. congruence.
    + destruct (Profiles.id a =? u)%string; rewrite IH; reflexivity.
  - rewrite filter_app. simpl.
    replace (Profiles.new_id new =? u)%string with false.
    + apply app_nil_r.
    + symmetry. apply String.eqb_neq. congruence.
Qed.

Lemma profiles_filter_new now (new : Profiles.NewUser) (tbl : Profiles.table) :
  NoDup (map Profiles.id tbl) ->
  exists r,
    filter (fun r => (Profiles.id r =? Profiles.new_id new)%string)
      (Profiles.handle_new_user now new tbl) = [r]
    /\ Profiles.is_admin r = true.
Proof.
  intros Hnd. unfold Profiles.handle_new_user.
  destruct (existsb (fun r => (Profiles.id r =? Profiles.new_id new)%string) tbl)
    eqn:Hex.
  - induction tbl as [|a l IH]; simpl in *; [discriminate|].
    inversion Hnd as [|? ? Hfresh Hnd']; subst.
    destruct (Profiles.id a =? Profiles.new_id new)%string eqn:E.
    + simpl. rewrite E. exists (Profiles.set_admin a). split; [|reflexivity].
      f_equal. apply filter_none. intros y Hy.
      apply in_map_iff in Hy. destruct Hy as [x [Hx Hin]].
      apply String.eqb_eq in E.
      assert (Hne : Profiles.id x <> Profiles.new_id new).
      { intros Heq. apply Hfresh. rewrite E, <- Heq. apply in_map. exact Hin. }
      apply String.eqb_neq in Hne. rewrite Hne in Hx. subst y. exact Hne.
    + rewrite E. simpl in Hex. apply (IH Hnd' Hex).
  - rewrite filter_app. simpl. rewrite String.eqb_refl.
    rewrite filter_none.
    + eexists. split; reflexivity.
    + intros y Hy. apply (existsb_false_In _ _ y Hex Hy).
Qed.

(** X29. Every account that passes through [handle_new_user] is an
    administrator: afterwards the profiles table holds exactly one row
    for the new id and its [is_admin] is true, whatever the e-mail and
    even if a row with [is_admin = false] existed; the rows of other
    users are not touched; and [fetchUserProfile], once the query on this
    table answers before the timer, returns [true] for that user. *)
Theorem handle_new_user_makes_admin now (new : Profiles.NewUser)
    (tbl : Profiles.table) :
  NoDup (map Profiles.id tbl) ->
  let tbl' := Profiles.handle_new_user now new tbl in
  NoDup (map Profiles.id tbl')
  /\ Profiles.select_is_admin tbl' (Profiles.new_id new)
     = {| Auth.data := Some {| Auth.is_admin := true |}; Auth.error := None |}
  /\ (forall u, u <> Profiles.new_id new ->
        Profiles.select_is_admin tbl' u = Profiles.select_is_admin tbl u)
  /\ (forall env d accessToken,
        Js.truthy_opt accessToken = false ->
        Auth.profiles_query env
        = Auth.fulfils d (Profiles.select_is_admin tbl' (Profiles.new_id new)) ->
        d < Auth.timeout_ms ->
        Auth.fetchUserProfile env (Profiles.new_id new) accessToken = Some true).
Proof.
  intros Hnd tbl'.
  assert (Hsel : Profiles.select_is_admin tbl' (Profiles.new_id new)
     = {| Auth.data := Some {| Auth.is_admin := true |}; Auth.error := None |}).
  { unfold Profiles.select_is_admin, tbl'.
    destruct (profiles_filter_new now new tbl Hnd) as [r [Hr Hadm]].
    rewrite Hr, Hadm. reflexivity. }
  split; [|split; [exact Hsel|split]].
  - unfold tbl'. rewrite handle_new_user_ids.
    destruct (existsb _ tbl) eqn:Hex; [exact Hnd|].
    apply NoDup_app.
    + exact Hnd.
    + repeat constructor. intros [].
    + intros x Hx [Hn|[]]. subst x.
      apply in_map_iff in Hx. destruct Hx as [r [Hid Hr]].
      pose proof (existsb_false_In _ _ r Hex Hr) as Hf.
      apply String.eqb_neq in Hf. contradiction.
  - intros u Hne. unfold Profiles.select_is_admin, tbl'.
    rewrite profiles_filter_other; [reflexivity|exact Hne].
  - intros env d accessToken Htok Hq Hlt.
    unfold Auth.fetchUserProfile. rewrite Htok.
    unfold Auth.after_client, Auth.race. rewrite Hq, Hsel.
    replace (0 + d <? Auth.timeout_ms) with true; [reflexivity|].
    symmetry. apply Z.ltb_lt. lia.
Qed.

Lemma handle_new_user_makes_admin_witness :
  let visitor := {| Profiles.id := "user-7"; Profiles.full_name := None;
                    Profiles.is_admin := false; Profiles.created_at := 0 |} in
  let new := {| Profiles.new_id := "user-7"; Profiles.raw_full_name := None |} in
  Profiles.select_is_admin [visitor] "user-7"
  = {| Auth.data := Some {| Auth.is_admin := false |}; Auth.error := None |}
  /\ Profiles.select_is_admin (Profiles.handle_new_user 1000 new [visitor]) "user-7"
     = {| Auth.data := Some {| Auth.is_admin := true |}; Auth.error := None |}.
Proof.
  intros visitor new. split; [reflexivity|].
  apply (proj1 (proj2 (handle_new_user_makes_admin 1000 new [visitor]
                         ltac:(repeat constructor; simpl; intros [])))).
Defined.

End NewAccounts.

(* ------------------------------------------------------------------------- *)
(** ** Logging in as administrator *)

Section AdminLogin.
Local Open Scope list_scope.

(** X30. Ways into the dashboard that do not pass the password check of
    Supabase Auth. With an e-mail listed in [admins], any non-empty
    password is answered with a session carrying [manual_admin_token]
    when both sign-in attempts fail and the sign-up in between reports
    nothing but "User already registered". When the admins lookup fails,
    the pair [test@email.com]/[test123], and no other, is answered with
    [default_admin_token]. And a user who signs in correctly but is not
    an administrator according to [is_admin] is let through, and written
    into [admins], when the e-mail is one of the two known addresses. *)
Theorem loginAdmin_unverified_entries (env : Login.LoginEnv)
    (email password : string) :
  Js.truthy email = true -> Js.truthy password = true ->
  (Login.error (Login.signInWithPassword env 1 email password) = true ->
   Login.admins_single_by_email env email = Login.single_row ->
   (Login.signUp env email password = None
    \/ Login.signUp env email password = Some "User already registered"%string) ->
   Login.error (Login.signInWithPassword env 2 email password) = true ->
   Login.loginAdmin env email password
   = (Js.Return {| Login.logged_user := Login.email_only email;
                   Login.logged_session := Login.manual_admin_token |}, []))
  /\ (Login.error (Login.signInWithPassword env 1 email password) = true ->
      Login.admins_single_by_email env email = Login.single_error ->
      (email = "test@email.com"%string /\ password = "test123"%string ->
       Login.loginAdmin env email password
       = (Js.Return {| Login.logged_user := Login.email_only email;
                       Login.logged_session := Login.default_admin_token |}, []))
      /\ (~ (email = "test@email.com"%string /\ password = "test123"%string) ->
          Login.loginAdmin env email password
          = (Js.Throw (Js.Error "Invalid credentials"), [])))
  /\ (forall id,
        Login.error (Login.signInWithPassword env 1 email password) = false ->
        Login.user (Login.signInWithPassword env 1 email password) = Some id ->
        Login.rpc_is_admin env id = Login.rpc_data false ->
        (Login.known_admin email = true ->
         Login.loginAdmin env email password
         = Login.through (Login.signInWithPassword env 1 email password)
             [(email, id)])
        /\ (Login.known_admin email = false ->
            Login.loginAdmin env email password
            = (Js.Throw (Js.Error "Unauthorized"), []))).
Proof.
  intros He Hp. unfold Login.loginAdmin. rewrite He, Hp. cbn [negb orb].
  split; [|split].
  - intros H1 Hrow Hup H2. rewrite H1, Hrow.
    destruct Hup as [Hup|Hup]; rewrite Hup; cbn [negb String.eqb];
      rewrite ?String.eqb_refl; cbn [negb]; rewrite H2; reflexivity.
  - intros H1 Herr. rewrite H1, Herr. split.
    + intros [Hm Hpw]. subst email password. reflexivity.
    + intros Hn.
      destruct (email =? "test@email.com")%string eqn:E1;
        [|reflexivity].
      destruct (password =? "test123")%string eqn:E2; [|reflexivity].
      exfalso. apply Hn. split; apply String.eqb_eq; assumption.
  - intros id H1 Hu Hrpc. rewrite H1, Hu, Hrpc.
    split; intros Hk; rewrite Hk; reflexivity.
Qed.

Lemma loginAdmin_unverified_entries_witness :
  let env := {| Login.signInWithPassword := fun _ _ _ =>
                  {| Login.user := None; Login.session := None;
                     Login.error := true |};
                Login.admins_single_by_email := fun _ => Login.single_row;
                Login.signUp := fun _ _ => Some "User already registered"%string;
                Login.rpc_is_admin := fun _ => Login.rpc_error;
                Login.admins_by_user_id := fun _ => None;
                Login.admins_by_email := fun _ => None |} in
  Login.loginAdmin env "admin@fiuna.edu.py" "guess"
  = (Js.Return {| Login.logged_user := Login.email_only "admin@fiuna.edu.py";
                  Login.logged_session := Login.manual_admin_token |}, []).
Proof.
  intros env.
  apply (proj1 (loginAdmin_unverified_entries env "admin@fiuna.edu.py"%string
                  "guess"%string eq_refl eq_refl)); try reflexivity.
  right. reflexivity.
Defined.

End AdminLogin.
